(* ===== verification/_CoqProject ===== *)
-Q . S2P
Prelude.v
GoPath.v
OsFs.v
Confinement.v
Upload.v
UploadSpec.v
OsRead.v
PathOrder.v
Archive.v
Bufio.v
Redkit.v
Chroot.v
Race.v
Server.v
