(* ===== verification/Prelude.v ===== *)
(** * A verification of redbag

    The repository holds two Go programs and a package, all of which
    write or read a directory tree on behalf of HTTP clients:

    - [src/main.go], the upload server.  [chrootHandler] (POST /chroot)
      re-creates each uploaded form field under [chroot/], creating the
      intermediate directories with [createFileRecursive], which walks
      them with [os.Chdir] and restores the working directory with a
      deferred [os.Chdir]; [uploadHandler] (POST /upload) stores each field
      flat in [uploads/], its slashes replaced by underscores.  Both write
      the parts of a field to the file in request order.
    - [src/cmd/redkit/main.go], the kit server.  [serveFiles]
      (GET /kit/<name>) finds <name> among the entries of the kits
      directory and streams [zipDirFull] of [<kits>/<name>/bin] into
      [bufio.NewWriter(w)]; [zipDirFull] walks the directory with
      [fs.WalkDir], opens every entry, passes it through [followIfSymlink]
      and archives the non-empty regular files.
    - [src/pkg/chroot], a root directory ([New]) with [CreateFile] and
      [CreateDirectory] ([os.MkdirAll]) relative to it.

    ** Files

    - [Prelude] (this file): Go errors ([go_error]), results ([res]), the
      state and error monad [St] of the models with its notation
      [x <- m ;; k] (scope [go_scope]), [defer] ([st_defer]), the hint
      databases [redbag] and [redbag_rw], and list lemmas.
    - [GoPath]: [path.Clean] (one pass over the elements with a stack),
      [path.Join], [strings.Split], [Join], [TrimPrefix], [ReplaceAll],
      [HasSuffix]; the normal form of a cleaned path (leading [..]s, then
      normal names) and the walk names [rel_name].
    - [OsFs]: the machine: a tree [gmap (list string) node] of
      directories, files and symbolic links, and one working directory.
      Path resolution follows links with Linux's bound of 40 expansions
      ([max_symlinks], the fuel of [resolve_from], after which it fails
      with [ELOOP]).  [os.Mkdir], [os.Create], [File.Write], [os.Open],
      [os.Chdir], [os.Getwd]; the invariant [wf] and the fact that no call
      removes a directory ([dirs_kept]), packed as [sound].
    - [Confinement]: [frame] (nothing changes outside a directory), the
      absence of links below it, and the effect of each call on one name
      or on a path of normal names.
    - [Upload]: the model of [main.go] ([createFolderIfNotExists],
      [mkdir_chdir_all], [createFileRecursive], [copy_parts],
      [chrootHandler], [uploadHandler]) and its confinement and invariant
      theorems.  [UploadSpec]: what [/chroot] writes, exactly.
    - [OsRead]: the calls that only read ([os.Stat], [os.Lstat],
      [os.Readlink], [os.ReadDir], [os.ReadFile], [File.Stat],
      [File.Chdir], reading a file), [os.DirFS] and its [join], the
      [fs.FileMode] bits, and [read_only].
    - [PathOrder]: the lexical order of paths, element by element, and
      sorted lists.
    - [Archive]: [followIfSymlink], [fs.WalkDir] with its
      helper [walkDir], the entries of an [archive/zip] writer, and
      [zipDirFull]; the walk is proved equal to a pure traversal
      ([tree_walk]) and that traversal to the sorted list of the tree's
      paths ([walk_ref]).
    - [Bufio]: [bufio.Writer] over any writer (the class [Writer], whose
      instances are an HTTP body and a buffered writer itself).
    - [Redkit]: [serveFiles] and the two buffered writers between
      [zip.Writer] and the client ([deliver]).
    - [Chroot]: [os.MkdirAll] and the package [chroot]: the struct
      [FileSystem] with its [Root], the interface [FS] of [fs.go] as a
      class and [os.DirFS] as its instance; the test [TestNew].
    - [Race]: [createFileRecursive] and [uploadHandler] as threads whose
      steps are their operating system calls ([cfr_step], [up_step]), and
      two requests sharing one machine ([par_step], [par_run]), as
      net/http runs each request in a goroutine of its own.
    - [Server]: the [init] and [main] functions of both programs, with
      pflag's [Parse], [http.ServeMux]'s choice of a handler,
      [http.StripPrefix] and the name [http.FileServer] over [http.Dir]
      opens.

    ** What is proved

    - Containment and escape.  [/chroot] stays under [chroot/] when no
      field name leads up once cleaned and no link lies below it (C1), but
      a name like [../x] is written outside it with a 200 answer (C2);
      [/upload] stays under [uploads/] for every name when no link lies
      below it (C3); [CreateFile]
      of the package escapes its root the same way (C18).
    - Function.  A field's file holds the concatenation of its parts in
      request order (C4); [createFolderIfNotExists] and [CreateDirectory]
      are idempotent (C6, C15); a trailing slash never yields the
      directory-only branch (C7); [CreateFile] ignores its data (C16), so
      reading the file back through the [FileSystem]'s own [Root] gives
      nothing when the root and the name are relative paths of normal
      names and no link lies below the working directory (C21).
    - Invariants.  [createFileRecursive] restores the working directory
      on every path (C5); [New] accepts a regular file as root (C17),
      which the package's own test [TestNew] detects: when [chroot] is not
      a symbolic link, it passes exactly when [chroot] is not a regular
      file (C26).
    - The archiver.  [followIfSymlink] never follows a link, its test being
      always true (C8); every archive [zipDirFull] completes lists its
      paths once each, in lexical order (C9); the archive holds the
      non-empty files of the walk with the bytes their links lead to (C10); a dangling link or a
      cycle aborts the export (C11).
    - The kit server.  Only the bin directory of a listed kit is exported
      (C12); the client receives a strict prefix of the archive, the
      writer never being flushed (C13); a missing kits directory ends the
      process (C14).
    - Concurrency.  Two calls of the thread model interleaved so that the
      second saves [chroot] as its [olddir], they leave the server's
      working directory at [chroot] (C19) and the second file at
      [chroot/chroot/<name>] (C20); an /upload request racing a /chroot
      request creates [chroot/uploads] and writes there, outside the
      server's [uploads] (C27).
    - Setup and routing.  The static server of [/bin/] opens only entries
      of [bin] (C22); the upload server never parses its command line and
      listens on [:8080] whatever [--port] says (C23), while the kit
      server honours [--port] and [-p] (C24); only the exact paths
      [/chroot] and [/upload] reach the upload handlers (C25).

    ** Bounds and fuel

    Link resolution uses the kernel's 40 expansions.  The walk's fuel
    [walk_fuel] is one more than the longest path of the tree, enough by
    [tree_walk_ref]; [bufio.Writer.Write]'s loop gets [2 * len(p) + 2]
    rounds, enough by [write_loop_done]; [MkdirAll] recurses on shorter
    strings and gets the path's length plus one ([mkdir_all_fuel]);
    [followIfSymlink] returns after one call whatever its fuel (C8).
    A call of the thread model returns within [pc_fuel] steps, two per
    directory of its path and four more ([cfr_run_start]); the upload
    thread within [files_fuel] steps, two per field and one per part
    ([up_run_start]).
    Buffers have Go's [defaultBufSize], 4096 bytes.

    ** Not modelled

    Logging, the network and what [http.FileServer] sends once it has
    opened a file; the multipart parser (a form is given parsed); the byte
    encoding of [archive/zip] (a parameter of [serveFiles], of which only
    the length of its last write is used); permissions.  Concurrency is
    modelled for [createFileRecursive] and [uploadHandler], whose paths
    depend on the working directory that requests share: the other
    functions run one request at a time, each OS call being atomic.  The [results]
    package that [redkit] and [chroot] use is outside the repository;
    [Unwrap] is taken to panic on an error.  Creating calls on paths
    ending in a separator, [.] or [..] are simplified (see [OsFs]); no
    modelled caller makes one.  File names never hold a NUL byte, so the
    NUL check of [os.DirFS] and [http.Dir] is left out.  The [Logger] of a [FileSystem] records what [log.New] was
    given; nothing writes to it. *)

From stdpp Require Import base list gmap strings.
From Stdlib Require Import Ascii String.
From Stdlib Require Strings.Byte.

(** ** Go errors

    The error values the modelled code observes.  They stand for the
    [errors.Is] classes of the Go standard library: [fs.ErrExist],
    [fs.ErrNotExist], [syscall.ENOTDIR], [syscall.EISDIR], [syscall.ELOOP]
    and [os.ErrInvalid] (returned by methods of a nil [*os.File]). *)
Inductive go_error :=
| ErrExist
| ErrNotExist
| ErrNotDir
| ErrIsDir
| ErrLoop
| ErrInvalid.

#[export] Instance go_error_eq_dec : EqDecision go_error.
Proof. solve_decision. Defined.

(** Bytes of files and request bodies. *)
#[export] Instance byte_eq_dec : EqDecision Byte.byte := Strings.Byte.byte_eq_dec.

(** A Go function returning [(T, error)]: exactly one of the two is
    meaningful, as in the idiom [if err != nil { return nil, err }]. *)
Inductive res (A : Type) :=
| Ok (a : A)
| Err (e : go_error).
Arguments Ok {A} a.
Arguments Err {A} e.

(** ** A state and error monad

    [St S A] is a computation over a mutable world [S] that may fail.
    Failure does not roll the world back: what was done before the error
    stays done, which is how the Go code behaves (directories created
    before a failing [os.Create] remain). *)
Definition St (S A : Type) : Type := S -> res A * S.

Definition st_ret {S A} (a : A) : St S A := fun s => (Ok a, s).

Definition st_bind {S A B} (m : St S A) (k : A -> St S B) : St S B :=
  fun s => match m s with
           | (Ok a, s') => k a s'
           | (Err e, s') => (Err e, s')
           end.

Definition st_fail {S A} (e : go_error) : St S A := fun s => (Err e, s).

(** Run [m], keep its effect on the world, drop its result or error:
    Go's [f()] or [_ = f()] for a call whose error is ignored. *)
Definition st_ignore {S A} (m : St S A) : St S unit :=
  fun s => (Ok tt, snd (m s)).

Declare Scope go_scope.
Delimit Scope go_scope with go.
Notation "x <- m ;; k" := (st_bind m (fun x => k))
  (at level 100, m at next level, right associativity) : go_scope.
Notation "m ;; k" := (st_bind m (fun _ => k))
  (at level 100, right associativity) : go_scope.

(** ** Automation *)
Create HintDb redbag discriminated.
Create Rewrite HintDb redbag_rw.

Lemma st_bind_ok {S A B} (m : St S A) (k : A -> St S B) s a s' :
  m s = (Ok a, s') -> st_bind m k s = k a s'.
Proof. intros H. unfold st_bind. by rewrite H. Qed.

Lemma st_bind_err {S A B} (m : St S A) (k : A -> St S B) s e s' :
  m s = (Err e, s') -> st_bind m k s = (Err e, s').
Proof. intros H. unfold st_bind. by rewrite H. Qed.

#[export] Hint Rewrite @st_bind_ok @st_bind_err using assumption : redbag_rw.

(** Unfold one monadic step of the goal. *)
Ltac st_step :=
  match goal with
  | |- context [st_bind ?m ?k ?s] =>
      let E := fresh "E" in
      destruct (m s) as [[?|?] ?] eqn:E;
      [rewrite (st_bind_ok m k s _ _ E) | rewrite (st_bind_err m k s _ _ E)]
  end.

(** ** Generic list lemmas *)

Lemma removelast_app_single {A} (l : list A) (x : A) :
  removelast (l ++ [x]) = l.
Proof. apply removelast_last. Qed.

#[export] Hint Rewrite @removelast_app_single : redbag_rw.

Lemma rev_replicate {A} n (x : A) : rev (replicate n x) = replicate n x.
Proof.
  induction n as [|n IH]; [done|].
  rewrite replicate_S_end at 2. simpl. by rewrite IH.
Qed.

#[export] Hint Rewrite @rev_replicate : redbag_rw.

Lemma Forall_last {A} (P : A -> Prop) (l : list A) d :
  Forall P l -> l <> [] -> P (List.last l d).
Proof.
  induction 1 as [|x l Hx Hl IH]; intros Hne; [done|].
  destruct l as [|y l]; [done|]. apply IH. done.
Qed.

(** [defer d] at the top of a Go function whose body is [m]: [d] runs
    after [m], whether [m] returned normally or with an error, and its
    own result is dropped. *)
Definition st_defer {S A B} (m : St S A) (d : St S B) : St S A :=
  fun s => let '(r, s1) := m s in (r, snd (d s1)).

Lemma head_removelast_take {A} (l : list A) x :
  head (removelast l) = Some x -> take 1 l = [x].
Proof. destruct l as [|a [|b l]]; simpl; congruence. Qed.

Lemma Forall_removelast {A} (P : A -> Prop) (l : list A) :
  Forall P l -> Forall P (removelast l).
Proof.
  induction 1 as [|x l Hx Hl IH]; [constructor|].
  destruct l as [|y l]; [constructor|]. by constructor.
Qed.

Lemma st_bind_assoc {S A B C} (m : St S A) (k1 : A -> St S B) (k2 : B -> St S C) s :
  st_bind (st_bind m k1) k2 s = st_bind m (fun a => st_bind (k1 a) k2) s.
Proof. unfold st_bind. by destruct (m s) as [[a|e] s']. Qed.

(** [omap] of a function that no two elements map to the same value keeps
    a list without repetition. *)
Lemma NoDup_omap {A B} (f : A -> option B) (l : list A) :
  NoDup l -> (forall a b y, a ∈ l -> b ∈ l -> f a = Some y -> f b = Some y -> a = b) ->
  NoDup (omap f l).
Proof.
  induction 1 as [|a l Ha Hl IH]; intros Hinj; [constructor|]. simpl.
  assert (IH' : NoDup (omap f l)) by (apply IH; intros; eapply Hinj; eauto; by constructor).
  destruct (f a) as [y|] eqn:E; [|done]. constructor; [|done].
  intros (b & Hb & Hfb)%list_elem_of_omap. apply Ha.
  assert (a = b) as -> by (eapply Hinj; [by constructor|by constructor|done|done]). done.
Qed.

Lemma st_bind_ext {S A B} (m : St S A) (k1 k2 : A -> St S B) s :
  (forall a s', k1 a s' = k2 a s') -> st_bind m k1 s = st_bind m k2 s.
Proof. intros H. unfold st_bind. destruct (m s) as [[a|e] s']; [apply H|done]. Qed.

Lemma st_bind_eq_l {S A B} (m1 m2 : St S A) (k : A -> St S B) s :
  m1 s = m2 s -> st_bind m1 k s = st_bind m2 k s.
Proof. intros H. unfold st_bind. by rewrite H. Qed.

(** Deciding a [Forall] over a concrete list. *)
Lemma Forall_by_check {A} (P : A -> Prop) `{forall x, Decision (P x)} (l : list A) :
  bool_decide (Forall P l) = true -> Forall P l.
Proof. intros H'. by apply bool_decide_eq_true in H'. Qed.

Lemma Forall_by_forallb {A} (f : A -> bool) (l : list A) :
  forallb f l = true -> Forall (fun x => f x = true) l.
Proof. intros H. apply List.Forall_forall. by apply List.forallb_forall. Qed.

(** A list passes a test everywhere, or has a first element that fails it. *)
Lemma Forall_or_first_failure {A} (f : A -> bool) (l : list A) :
  Forall (fun x => f x = true) l \/
  exists pre x post, l = pre ++ x :: post /\ Forall (fun x => f x = true) pre /\ f x = false.
Proof.
  induction l as [|x l [IH|(pre & y & post & -> & Hpre & Hy)]]; [by left| |].
  - destruct (f x) eqn:Hx; [left; by constructor|right; by exists [], x, l].
  - destruct (f x) eqn:Hx; [|right; by exists [], x, (pre ++ y :: post)].
    right. exists (x :: pre), y, post. split_and!; [done|by constructor|done].
Qed.
