(* ===== verification/GoPath.v ===== *)
(** * GoPath: the string and path functions of Go's standard library

    The handlers of [src/main.go] compute every file-system path with
    [path.Clean], [path.Join], [strings.Split], [strings.TrimPrefix] and
    [strings.ReplaceAll].  These are library functions, not code of the
    repository; they are modelled here from the Go documentation so that
    the handlers' models can call them; [fs.ValidPath], which [os.DirFS]
    applies to every name, is here as well.  The main facts are the segment
    view of [path.Clean] (its result is a list of normal names, preceded
    by [".."]s only when the path is relative) and the round trip between
    [strings.Split] and [strings.Join]. *)

From stdpp Require Import base list strings.
From Stdlib Require Import Ascii String.
From S2P Require Import Prelude.

Local Open Scope string_scope.
Local Open Scope list_scope.

(** ** strings.Split(s, "/") and strings.Join(l, "/") *)

(** [strings.Split(s, "/")]: [n] separators give [n+1] pieces, and the
    empty string gives [[""]]. *)
Fixpoint split_slash (s : string) : list string :=
  match s with
  | EmptyString => [""]
  | String c rest =>
      let parts := split_slash rest in
      if Ascii.eqb c "/" then "" :: parts
      else match parts with
           | p :: ps => String c p :: ps
           | [] => [String c ""]
           end
  end.

(** [strings.Join(l, "/")]. *)
Fixpoint join_slash (l : list string) : string :=
  match l with
  | [] => ""
  | [x] => x
  | x :: xs => x +:+ String "/" (join_slash xs)
  end.

(** Whether a string contains the separator. *)
Fixpoint has_slash (s : string) : bool :=
  match s with
  | EmptyString => false
  | String c rest => Ascii.eqb c "/" || has_slash rest
  end.

(** Lists of slash-free elements. *)
Definition slash_free (l : list string) : Prop :=
  Forall (fun x => has_slash x = false) l.

(** [strings.TrimPrefix(s, "/")]: drops one leading separator. *)
Definition trim_prefix_slash (s : string) : string :=
  match s with
  | String c rest => if Ascii.eqb c "/" then rest else s
  | EmptyString => s
  end.

(** [strings.ReplaceAll(s, "/", "_")]. *)
Fixpoint replace_slash (s : string) : string :=
  match s with
  | EmptyString => EmptyString
  | String c rest =>
      String (if Ascii.eqb c "/" then "_"%char else c) (replace_slash rest)
  end.

(** [strings.HasSuffix(s, "/")]. *)
Fixpoint has_suffix_slash (s : string) : bool :=
  match s with
  | EmptyString => false
  | String c EmptyString => Ascii.eqb c "/"
  | String _ rest => has_suffix_slash rest
  end.

(** ** path.Clean

    Go documents [path.Clean] by four rules applied until nothing changes:
    (1) replace multiple slashes by one, (2) drop each [.] element,
    (3) drop each inner [..] together with the non-[..] element before it,
    (4) drop [..] elements that begin a rooted path; the result is ["."]
    when nothing is left.  The model applies the rules in one left to right
    pass over the elements, keeping the output as a stack (top first). *)

Definition is_rooted (s : string) : bool :=
  match s with
  | String c _ => Ascii.eqb c "/"
  | EmptyString => false
  end.

Definition clean_step (rooted : bool) (out : list string) (seg : string)
    : list string :=
  if String.eqb seg "" || String.eqb seg "." then out
  else if String.eqb seg ".." then
    match out with
    | x :: rest => if String.eqb x ".." then ".." :: out else rest
    | [] => if rooted then [] else [".."]
    end
  else seg :: out.

Definition clean_segments (rooted : bool) (segs : list string) : list string :=
  rev (fold_left (clean_step rooted) segs []).

Definition clean (s : string) : string :=
  let out := clean_segments (is_rooted s) (split_slash s) in
  if is_rooted s then String "/" (join_slash out)
  else match out with
       | [] => "."
       | _ => join_slash out
       end.

(** ** path.Join

    [path.Join(elem...)] returns [""] when every element is empty;
    otherwise it joins the non-empty elements (an empty element after a
    non-empty one still contributes a separator) and cleans the result. *)
Definition join_buf_step (buf e : string) : string :=
  if String.eqb buf "" && String.eqb e "" then buf
  else if String.eqb buf "" then e
  else buf +:+ String "/" e.

Definition path_join (elems : list string) : string :=
  if forallb (fun e => String.eqb e "") elems then ""
  else clean (fold_left join_buf_step elems "").

(** ** Names

    A normal name is what [path.Clean] leaves between separators apart
    from leading [".."]s: not empty, not [.] or [..], without a slash. *)
Definition normal_name (x : string) : Prop :=
  x <> "" /\ x <> "." /\ x <> ".." /\ has_slash x = false.

#[export] Instance normal_name_dec x : Decision (normal_name x).
Proof. unfold normal_name. apply _. Defined.

Lemma normal_name_unrooted x : normal_name x -> is_rooted x = false.
Proof.
  intros (H1 & _ & _ & H4). destruct x as [|a x]; [done|]. simpl in *.
  by destruct (Ascii.eqb a "/").
Qed.

(** Whether a path goes up from where it starts: its first element
    is [..]. *)
Definition leads_up (p : string) : bool :=
  match split_slash p with
  | x :: _ => String.eqb x ".."
  | [] => false
  end.

(** ** Lemmas: split and join *)

Lemma split_slash_nonempty s : split_slash s <> [].
Proof.
  induction s as [|c s IH]; simpl; [done|].
  destruct (Ascii.eqb c "/"); [done|]. by destruct (split_slash s).
Qed.

Lemma split_slash_no_slash s : slash_free (split_slash s).
Proof.
  induction s as [|c s IH]; simpl; [by repeat constructor|].
  destruct (Ascii.eqb c "/") eqn:Hc; [by constructor|].
  destruct (split_slash s) as [|p ps] eqn:E; [by repeat constructor; simpl; rewrite Hc|].
  inversion IH; subst. constructor; [|done]. simpl. by rewrite Hc.
Qed.

(** Splitting at the first separator. *)
Lemma split_slash_app s t :
  split_slash (s +:+ String "/" t) = split_slash s ++ split_slash t.
Proof.
  induction s as [|c s IH]; [done|]. simpl. rewrite IH.
  destruct (Ascii.eqb c "/"); [done|].
  destruct (split_slash s) eqn:E; [by destruct (split_slash_nonempty s)|done].
Qed.

Lemma split_slash_single x : has_slash x = false -> split_slash x = [x].
Proof.
  induction x as [|c x IH]; simpl; [done|].
  intros [Hc Hx]%orb_false_elim. rewrite Hc, IH by done. done.
Qed.

(** Round trip: splitting a joined list of slash-free elements gives the
    list back. *)
Lemma split_join l :
  l <> [] -> slash_free l -> split_slash (join_slash l) = l.
Proof.
  induction l as [|x [|y l] IH]; intros Hne Hl; [done| |].
  - inversion Hl; subst. by apply split_slash_single.
  - inversion Hl; subst. change (join_slash (x :: y :: l))
      with (x +:+ String "/" (join_slash (y :: l))).
    rewrite split_slash_app, split_slash_single by done.
    by rewrite IH.
Qed.

(** Round trip the other way: joining the pieces gives the string back. *)
Lemma join_split s : join_slash (split_slash s) = s.
Proof.
  induction s as [|c s IH]; [done|]. simpl.
  destruct (Ascii.eqb c "/") eqn:Hc.
  - apply Ascii.eqb_eq in Hc as ->.
    destruct (split_slash s) eqn:E; [by destruct (split_slash_nonempty s)|].
    simpl in *. by rewrite IH.
  - destruct (split_slash s) as [|p [|q ps]] eqn:E; simpl in *;
      [by destruct (split_slash_nonempty s)|by subst|by rewrite <- IH].
Qed.

(** ** Lemmas: the segment view of path.Clean *)

(** The output of [path.Clean] as a list of elements: some [".."]s (none
    for a rooted path) followed by normal names. *)
Definition clean_form (rooted : bool) (out : list string) : Prop :=
  exists k names, out = replicate k ".." ++ names /\ Forall normal_name names
                  /\ (rooted = true -> k = 0).

(** The list [["."]] for an empty result, as [path.Clean] prints it. *)
Definition or_dot (l : list string) : list string :=
  match l with [] => ["."] | _ => l end.

Lemma normal_name_slash_free l : Forall normal_name l -> slash_free l.
Proof. intros H. eapply Forall_impl; [exact H|]. by intros x (_&_&_&?). Qed.

Lemma dotdots_slash_free k : slash_free (replicate k "..").
Proof. apply Forall_replicate. done. Qed.

Lemma slash_free_app l1 l2 : slash_free l1 -> slash_free l2 -> slash_free (l1 ++ l2).
Proof. intros. by apply Forall_app. Qed.

#[export] Hint Resolve normal_name_slash_free dotdots_slash_free slash_free_app : redbag.

Lemma clean_step_skip r out seg :
  seg = "" \/ seg = "." -> clean_step r out seg = out.
Proof. by intros [-> | ->]. Qed.

Lemma clean_step_name r out x : normal_name x -> clean_step r out x = x :: out.
Proof.
  intros (H1&H2&H3&_). unfold clean_step.
  apply String.eqb_neq in H1, H2, H3. by rewrite H1, H2, H3.
Qed.

(** A [..] cancels the name on top of the stack. *)
Lemma clean_step_cancel r x out :
  normal_name x -> clean_step r (x :: out) ".." = out.
Proof.
  intros (_&_&Hx&_). unfold clean_step. simpl.
  by rewrite (proj2 (String.eqb_neq _ _) Hx).
Qed.

Lemma fold_clean_names r l out :
  Forall normal_name l -> fold_left (clean_step r) l out = rev l ++ out.
Proof.
  intros H. revert out. induction H as [|x l Hx Hl IH]; intros out; [done|].
  simpl. rewrite clean_step_name, IH by done. by rewrite <- app_assoc.
Qed.

Lemma fold_clean_dotdots i j :
  fold_left (clean_step false) (replicate j "..") (replicate i "..")
  = replicate (i + j) "..".
Proof.
  revert i. induction j as [|j IH]; intros i; simpl; [by rewrite Nat.add_0_r|].
  replace (clean_step false (replicate i "..") "..") with (replicate (S i) "..")
    by (by destruct i).
  rewrite IH. f_equal. lia.
Qed.

(** One step of [path.Clean] keeps the stack in clean form. *)
Lemma clean_step_form r st seg :
  has_slash seg = false -> clean_form r (rev st) -> clean_form r (rev (clean_step r st seg)).
Proof.
  intros Hseg (k & names & Hst & Hn & Hr).
  apply (f_equal (@rev string)) in Hst. rewrite rev_involutive, rev_app_distr, rev_replicate in Hst.
  subst st. unfold clean_step.
  assert (Hself : clean_form r (rev (rev names ++ replicate k "..")))
    by (exists k, names; by rewrite rev_app_distr, rev_involutive, rev_replicate).
  destruct (String.eqb_spec seg ""); [done|].
  destruct (String.eqb_spec seg "."); [done|].
  simpl. destruct (String.eqb_spec seg "..") as [->|Hdd].
  - destruct names as [|x names'] using rev_ind.
    + destruct k as [|k]; simpl.
      * destruct r; [by exists 0, []|by exists 1, []].
      * exists (S (S k)), []. split; [|split; [done|intros ?%Hr; lia]].
        rewrite !app_nil_r, rev_replicate, <- !replicate_S_end. done.
    + apply Forall_app in Hn as [Hn' [Hx _]%Forall_cons].
      rewrite rev_app_distr. simpl.
      destruct (String.eqb_spec x "..") as [->|_]; [by destruct Hx as (_&_&?&_)|].
      exists k, names'. by rewrite rev_app_distr, rev_involutive, rev_replicate.
  - exists k, (names ++ [seg]). split; [|split; [apply Forall_app; by repeat constructor|done]].
    simpl. by rewrite rev_app_distr, rev_involutive, rev_replicate, <- app_assoc.
Qed.

Lemma clean_segments_form r segs : slash_free segs -> clean_form r (clean_segments r segs).
Proof.
  intros H. unfold clean_segments.
  cut (forall st, clean_form r (rev st) -> clean_form r (rev (fold_left (clean_step r) segs st))).
  { intros C. apply C. by exists 0, []. }
  induction H as [|x l Hx Hl IH]; intros st Hst; [done|]. simpl.
  apply IH. by apply clean_step_form.
Qed.

Lemma clean_nonempty s : clean s <> "".
Proof.
  unfold clean. destruct (is_rooted s); [done|].
  destruct (clean_segments false (split_slash s)) as [|x [|y l]] eqn:E;
    [done| |by destruct x].
  pose proof (clean_segments_form false (split_slash s) (split_slash_no_slash s)) as
    (k & names & Hf & Hn & _). rewrite E in Hf. simpl.
  destruct k as [|[|k]]; simpl in Hf; [|by inversion Hf|done].
  subst names. inversion Hn as [|? ? (?&_)]. done.
Qed.

Lemma split_or_dot out :
  slash_free out ->
  split_slash (match out with [] => "." | _ => join_slash out end) = or_dot out.
Proof. intros H. destruct out as [|x l]; [done|]. by apply split_join. Qed.

Lemma clean_form_slash_free r out : clean_form r out -> slash_free out.
Proof. intros (k & names & -> & Hn & _). auto with redbag. Qed.

Lemma clean_segments_slash_free r s : slash_free (clean_segments r (split_slash s)).
Proof. eapply clean_form_slash_free, clean_segments_form, split_slash_no_slash. Qed.

#[export] Hint Resolve clean_segments_slash_free : redbag.

(** Cleaning again sees the same elements: the separators and [.] that
    [path.Clean] prints around its output are skipped. *)
Lemma fold_clean_of_clean r s acc :
  fold_left (clean_step r) (split_slash (clean s)) acc
  = fold_left (clean_step r) (clean_segments (is_rooted s) (split_slash s)) acc.
Proof.
  pose proof (clean_segments_slash_free (is_rooted s) s) as Hsf.
  unfold clean. destruct (is_rooted s).
  - simpl. rewrite clean_step_skip by auto.
    destruct (clean_segments true (split_slash s)) eqn:E; [done|]. by rewrite split_join.
  - rewrite split_or_dot by done.
    by destruct (clean_segments false (split_slash s)).
Qed.

Lemma clean_unrooted s :
  is_rooted s = false ->
  clean s = match clean_segments false (split_slash s) with
            | [] => "."
            | _ => join_slash (clean_segments false (split_slash s))
            end.
Proof.
  intros Hr. unfold clean. rewrite Hr.
  by destruct (clean_segments false (split_slash s)).
Qed.

(** [path.Join(c, path.Clean(s))] for a normal name [c]: when the cleaned
    [s] begins with [k > 0] elements [..], the first of them cancels [c]. *)
Lemma path_join_clean c s k names :
  normal_name c ->
  clean_segments (is_rooted s) (split_slash s) = replicate k ".." ++ names ->
  Forall normal_name names ->
  split_slash (path_join [c; clean s])
  = or_dot (match k with 0 => c :: names | S k' => replicate k' ".." ++ names end).
Proof.
  intros Hc Hs Hn. pose proof Hc as (Hc1 & Hc2 & Hc3 & Hc4).
  apply String.eqb_neq in Hc1 as Hc1'.
  pose proof (clean_nonempty s) as Hne. apply String.eqb_neq in Hne.
  unfold path_join, join_buf_step. cbn [forallb fold_left andb String.eqb].
  rewrite Hc1'. cbn [andb]. rewrite Hc1', Hne. cbn [andb].
  assert (Hr : is_rooted (c +:+ String "/" (clean s)) = false).
  { destruct c as [|a c]; [done|]. simpl in *. destruct (Ascii.eqb a "/"); [discriminate Hc4|done]. }
  rewrite (clean_unrooted _ Hr), split_slash_app, (split_slash_single c) by done.
  unfold clean_segments. simpl. rewrite clean_step_name by done.
  rewrite fold_clean_of_clean, Hs, fold_left_app.
  destruct k as [|k]; simpl.
  - rewrite fold_clean_names by done. rewrite rev_app_distr, rev_involutive.
    apply split_or_dot. constructor; [done|]. by apply normal_name_slash_free.
  - rewrite clean_step_cancel by done.
    rewrite (fold_clean_dotdots 0 k : fold_left _ _ [] = _), fold_clean_names by done. simpl.
    rewrite rev_app_distr, rev_involutive, rev_replicate.
    apply split_or_dot. auto with redbag.
Qed.

Lemma split_slash_rooted t : split_slash (String "/" t) = "" :: split_slash t.
Proof. reflexivity. Qed.

Lemma is_rooted_slash t : is_rooted (String "/" t) = true.
Proof. reflexivity. Qed.

(** ** Lemmas: path.Clean is idempotent *)

Lemma fold_clean_form_unrooted k names :
  Forall normal_name names ->
  rev (fold_left (clean_step false) (replicate k ".." ++ names) []) = replicate k ".." ++ names.
Proof.
  intros Hn. rewrite fold_left_app, (fold_clean_dotdots 0 k : fold_left _ _ [] = _).
  rewrite fold_clean_names by done. by rewrite rev_app_distr, rev_involutive, rev_replicate.
Qed.

Lemma fold_clean_form_rooted names :
  Forall normal_name names -> rev (fold_left (clean_step true) names []) = names.
Proof. intros Hn. rewrite fold_clean_names by done. by rewrite app_nil_r, rev_involutive. Qed.

Lemma is_rooted_join e rest : e <> "" -> is_rooted (join_slash (e :: rest)) = is_rooted e.
Proof. intros He. destruct rest; [done|]. simpl. by destruct e. Qed.

Lemma clean_unrooted_is_unrooted s : is_rooted s = false -> is_rooted (clean s) = false.
Proof.
  intros Hr. rewrite clean_unrooted by done.
  destruct (clean_segments_form false (split_slash s) (split_slash_no_slash s))
    as (k & names & Hout & Hn & _).
  rewrite Hout. destruct k as [|k]; cbn [replicate app].
  - destruct names as [|e names]; [done|]. inversion Hn as [|? ? (He1&_&_&He4)]; subst.
    rewrite is_rooted_join by done. destruct e as [|a e]; [done|]. simpl in *.
    by destruct (Ascii.eqb a "/").
  - by rewrite is_rooted_join.
Qed.

Lemma clean_idem s : clean (clean s) = clean s.
Proof.
  destruct (clean_segments_form (is_rooted s) (split_slash s) (split_slash_no_slash s))
    as (k & names & Hout & Hn & Hr).
  destruct (is_rooted s) eqn:Hrs.
  - rewrite (Hr eq_refl) in Hout. simpl in Hout.
    assert (Hc : clean s = String "/" (join_slash names)) by (unfold clean; by rewrite Hrs, Hout).
    rewrite Hc. unfold clean at 1. rewrite is_rooted_slash. f_equal. f_equal.
    unfold clean_segments. rewrite split_slash_rooted. simpl.
    destruct names as [|e names]; [done|].
    rewrite clean_step_skip by auto.
    rewrite split_join by (done || auto with redbag). by apply fold_clean_form_rooted.
  - assert (E : clean_segments false (split_slash (clean s)) = replicate k ".." ++ names).
    { unfold clean_segments. rewrite fold_clean_of_clean, Hrs, Hout.
      by apply fold_clean_form_unrooted. }
    rewrite (clean_unrooted (clean s)) by (by apply clean_unrooted_is_unrooted).
    by rewrite E, (clean_unrooted s Hrs), Hout.
Qed.

Lemma trim_prefix_unrooted s : is_rooted s = false -> trim_prefix_slash s = s.
Proof. destruct s as [|a s]; [done|]. simpl. by intros ->. Qed.

(** Whether the cleaned path leads up is read off its leading [".."]s. *)
Lemma leads_up_clean s k names :
  clean_segments (is_rooted s) (split_slash s) = replicate k ".." ++ names ->
  Forall normal_name names ->
  leads_up (clean s) = negb (Nat.eqb k 0).
Proof.
  intros Hout Hn. unfold leads_up.
  destruct (is_rooted s) eqn:Hrs.
  - assert (Hk : k = 0).
    { destruct (clean_segments_form true (split_slash s) (split_slash_no_slash s))
        as (k' & n' & Ho' & Hn' & Hr'). rewrite Ho' in Hout.
      rewrite (Hr' eq_refl) in Hout. simpl in Hout. subst n'.
      destruct k; [done|]. inversion Hn' as [|? ? (_&_&?&_)]. done. }
    subst k. unfold clean. rewrite Hrs, split_slash_rooted. done.
  - rewrite (clean_unrooted s Hrs), Hout.
    rewrite split_or_dot by auto with redbag.
    destruct k as [|k]; simpl; [|done].
    destruct names as [|e names]; [done|]. inversion Hn as [|? ? (_&_&He&_)]; subst.
    by apply String.eqb_neq.
Qed.

(** [path.Join] of two non-empty elements cleans their concatenation. *)
Lemma path_join_two c t :
  c <> "" -> t <> "" -> path_join [c; t] = clean (c +:+ String "/" t).
Proof.
  intros Hc Ht. apply String.eqb_neq in Hc, Ht.
  unfold path_join, join_buf_step. cbn [forallb fold_left andb String.eqb].
  rewrite Hc. cbn [andb]. by rewrite Hc, Ht.
Qed.

Lemma normal_join_unrooted c t : normal_name c -> is_rooted (c +:+ String "/" t) = false.
Proof.
  intros (Hc1&_&_&Hc4). destruct c as [|a c]; [done|]. simpl in *.
  by destruct (Ascii.eqb a "/").
Qed.

(** The result of [path.Join(c, path.Clean(s))] is clean and relative. *)
Lemma path_join_clean_fixed c s :
  normal_name c ->
  clean (path_join [c; clean s]) = path_join [c; clean s] /\
  is_rooted (path_join [c; clean s]) = false.
Proof.
  intros Hc. rewrite path_join_two by (apply Hc || apply clean_nonempty).
  split; [apply clean_idem|]. by apply clean_unrooted_is_unrooted, normal_join_unrooted.
Qed.

(** ** Lemmas: strings.ReplaceAll(s, "/", "_") *)

Lemma replace_slash_no_slash x : has_slash (replace_slash x) = false.
Proof.
  induction x as [|a x IH]; [done|]. simpl. rewrite IH, orb_false_r.
  destruct (Ascii.eqb a "/") eqn:E; [done|]. exact E.
Qed.

Lemma replace_slash_empty x : replace_slash x = "" -> x = "".
Proof. by destruct x. Qed.

(** Replacing separators cannot produce [.] or [..] from anything else. *)
Lemma replace_slash_char a : (if Ascii.eqb a "/" then "_"%char else a) = "."%char -> a = "."%char.
Proof. destruct (Ascii.eqb_spec a "/") as [->|]; [discriminate|done]. Qed.

Lemma replace_slash_dot x : replace_slash x = "." -> x = ".".
Proof.
  destruct x as [|a [|b x]]; simpl; try discriminate.
  intros [= Ha]. by rewrite (replace_slash_char a Ha).
Qed.

Lemma replace_slash_dotdot x : replace_slash x = ".." -> x = "..".
Proof.
  destruct x as [|a [|b [|c x]]]; simpl; try discriminate.
  intros [= Ha Hb]. by rewrite (replace_slash_char a Ha), (replace_slash_char b Hb).
Qed.

(** A relative path of normal names is already clean. *)
Lemma clean_normal_join cs :
  cs <> [] -> Forall normal_name cs -> clean (join_slash cs) = join_slash cs.
Proof.
  intros Hne Hn. destruct cs as [|c cs]; [done|].
  inversion Hn as [|? ? Hc Hcs]; subst.
  assert (Hr : is_rooted (join_slash (c :: cs)) = false)
    by (rewrite is_rooted_join, normal_name_unrooted by apply Hc; reflexivity).
  rewrite clean_unrooted by done. unfold clean_segments.
  rewrite split_join by (done || auto with redbag).
  by rewrite fold_clean_names, app_nil_r, rev_involutive.
Qed.

Lemma or_dot_nonempty l : or_dot l <> [].
Proof. by destruct l. Qed.

Lemma normal_names_by_check l : bool_decide (Forall normal_name l) = true -> Forall normal_name l.
Proof. intros H. by apply bool_decide_eq_true in H. Qed.

(** ** Names of a tree walk

    [fs.WalkDir] names the entry at relative path [r] by [rel_name r]:
    ["."] for the root and the elements joined by separators below it;
    [path.Join(name, child)] names the child. *)
Definition rel_name (r : list string) : string := join_slash (or_dot r).

Lemma is_rooted_app s t : s <> "" -> is_rooted (s +:+ t) = is_rooted s.
Proof. by destruct s. Qed.

Lemma rel_name_nonempty r : Forall normal_name r -> rel_name r <> "".
Proof.
  intros Hr. destruct r as [|c r]; [done|]. inversion Hr as [|? ? (Hc&_) _]; subst.
  unfold rel_name, or_dot. destruct r; simpl; [done|]. by destruct c.
Qed.

Lemma split_rel_name r : Forall normal_name r -> split_slash (rel_name r) = or_dot r.
Proof.
  intros Hr. destruct r as [|c r]; [done|]. apply split_join; [done|].
  by apply normal_name_slash_free.
Qed.

Lemma is_rooted_rel_name r : Forall normal_name r -> is_rooted (rel_name r) = false.
Proof.
  intros Hr. destruct r as [|c r]; [done|]. inversion Hr as [|? ? Hc _]; subst.
  unfold rel_name, or_dot. by rewrite is_rooted_join, normal_name_unrooted by apply Hc.
Qed.

Lemma path_join_rel_name r x :
  Forall normal_name r -> normal_name x -> path_join [rel_name r; x] = rel_name (r ++ [x]).
Proof.
  intros Hr Hx. rewrite path_join_two; [|by apply rel_name_nonempty|apply Hx].
  rewrite clean_unrooted; last first.
  { rewrite is_rooted_app by by apply rel_name_nonempty. by apply is_rooted_rel_name. }
  rewrite split_slash_app, split_rel_name, split_slash_single by (done || apply Hx).
  assert (Hrx : Forall normal_name (r ++ [x])) by (apply Forall_app; auto).
  unfold clean_segments. destruct r as [|c r].
  - cbn [or_dot app fold_left]. rewrite (clean_step_skip false [] ".") by by right.
    by rewrite clean_step_name by done.
  - cbn [or_dot]. rewrite fold_clean_names, app_nil_r, rev_involutive by done.
    unfold rel_name. by destruct (r ++ [x]).
Qed.

Lemma normal_name_by_check x : bool_decide (normal_name x) = true -> normal_name x.
Proof. intros H. by apply bool_decide_eq_true in H. Qed.

(** ** [fs.ValidPath]

    [fs.ValidPath(name)] (io/fs/fs.go): ["."], or elements separated by
    single slashes, none of them empty, [.] or [..]. *)
Definition valid_elem (e : string) : bool :=
  negb (String.eqb e "" || String.eqb e "." || String.eqb e "..").

Definition valid_path (name : string) : bool :=
  String.eqb name "." || forallb valid_elem (split_slash name).

Lemma string_app_assoc a b c : (a +:+ b) +:+ c = a +:+ (b +:+ c).
Proof. induction a as [|x a IH]; [reflexivity|]. exact (f_equal (String x) IH). Qed.

Lemma join_slash_app l1 l2 :
  l1 <> [] -> l2 <> [] -> join_slash l1 +:+ String "/" (join_slash l2) = join_slash (l1 ++ l2).
Proof.
  intros H1 H2. induction l1 as [|x [|y l1] IH]; [done| |].
  - by destruct l2.
  - change (join_slash (x :: y :: l1)) with (x +:+ String "/" (join_slash (y :: l1))).
    rewrite string_app_assoc.
    change (x +:+ String "/" (join_slash (y :: l1) +:+ String "/" (join_slash l2))
            = join_slash (x :: (y :: l1) ++ l2)).
    rewrite IH by done. reflexivity.
Qed.

Lemma normal_valid_elem x : normal_name x -> valid_elem x = true.
Proof.
  intros (H1&H2&H3&_). unfold valid_elem.
  apply String.eqb_neq in H1, H2, H3. by rewrite H1, H2, H3.
Qed.

Lemma valid_path_join l : l <> [] -> Forall normal_name l -> valid_path (join_slash l) = true.
Proof.
  intros Hne Hl. unfold valid_path. rewrite split_join by auto using normal_name_slash_free.
  apply orb_true_iff. right. apply forallb_forall. intros x Hx%list_elem_of_In.
  apply normal_valid_elem. by eapply Forall_forall.
Qed.

Lemma valid_path_rel_name r : Forall normal_name r -> valid_path (rel_name r) = true.
Proof. intros Hr. destruct r as [|c r]; [reflexivity|]. by apply valid_path_join. Qed.

Lemma has_suffix_slash_app a t : t <> "" -> has_suffix_slash (a +:+ t) = has_suffix_slash t.
Proof.
  intros Ht. induction a as [|c a IH]; [done|].
  change (has_suffix_slash (String c (a +:+ t)) = has_suffix_slash t).
  rewrite <- IH. simpl. by destruct (a +:+ t) eqn:E; [destruct a, t|].
Qed.

Lemma has_suffix_slash_cons c t : t <> "" -> has_suffix_slash (String c t) = has_suffix_slash t.
Proof. by destruct t. Qed.

Lemma has_suffix_no_slash x : has_slash x = false -> has_suffix_slash x = false.
Proof.
  induction x as [|c x IH]; [done|]. simpl.
  intros [Hc Hx]%orb_false_elim. destruct x; [done|]. by apply IH.
Qed.

Lemma join_slash_no_suffix l :
  Forall normal_name l -> has_suffix_slash (join_slash l) = false.
Proof.
  induction 1 as [|x l (_&_&_&Hs) Hl IH]; [done|].
  destruct l as [|y l]; [by apply has_suffix_no_slash|].
  change (join_slash (x :: y :: l)) with (x +:+ String "/" (join_slash (y :: l))).
  rewrite has_suffix_slash_app by done.
  inversion Hl as [|? ? (Hy&_) _]; subst.
  assert (Hj : join_slash (y :: l) <> "") by (destruct l; [done|by destruct y]).
  rewrite has_suffix_slash_cons by done. exact IH.
Qed.
