(* ===== verification/OsFs.v ===== *)
(** * OsFs: the operating-system file system the handlers act on

    The Go code reaches the disk through [os.Mkdir], [os.Create],
    [os.Open], [os.Chdir], [os.Getwd] and [os.File.Write] (through
    [io.Copy]), modelled here; the calls that only read are in [OsRead],
    [os.MkdirAll] in [Chroot].  This file models the part of the POSIX
    file system these calls observe:

    - the tree is a finite map from absolute paths (lists of names) to
      nodes: directories, regular files with their bytes, symbolic links
      with their target string;
    - the process has one current working directory, shared by every
      request the server handles (the Go code changes it with [os.Chdir]);
    - path resolution follows POSIX: elements [""] and ["."] stay,
      [".."] goes to the parent (the parent of [/] is [/]), a symbolic
      link met anywhere but in the last position of a call that does not
      follow it is replaced by its target, read relative to the
      directory holding the link, and a lookup that expands more than
      [max_symlinks] = 40 links fails with [ELOOP] (Linux's MAXSYMLINKS).

    Simplifications, none of which the modelled code can observe on the
    paths it builds: no permissions; [os.Create] through a dangling
    symbolic link fails with [ErrNotExist] where Linux would create the
    target; a creating call whose path ends in a separator, [.] or [..]
    names the directory the path resolves to. *)

From stdpp Require Import base list gmap strings.
From Stdlib Require Import Ascii String.
From S2P Require Import Prelude GoPath.

Local Open Scope string_scope.
Local Open Scope list_scope.

Inductive node :=
| Dir
| File (data : list Byte.byte)
| Symlink (target : string).

#[export] Instance node_eq_dec : EqDecision node.
Proof. solve_decision. Defined.

(** The state of the machine: the file tree and the process's current
    working directory. *)
Record os := mkOS {
  fsys : gmap (list string) node;
  cwd : list string
}.

Definition set_fsys (f : gmap (list string) node -> gmap (list string) node)
    (s : os) : os :=
  mkOS (f (fsys s)) (cwd s).

(** An open [*os.File]: the file it designates and its offset. *)
Record handle := mkHandle {
  h_path : list string;
  h_off : nat
}.

Definition max_symlinks : nat := 40.

Definition parent (d : list string) : list string := removelast d.

Definition is_dot (c : string) : bool := String.eqb c "" || String.eqb c ".".

(** Resolve the elements [cs] from directory [d], following every
    symbolic link, with at most [hops] more link expansions. *)
Fixpoint resolve_from (hops : nat) (m : gmap (list string) node)
    (d : list string) (cs : list string) {struct hops} : res (list string) :=
  let fix go (d : list string) (cs : list string) {struct cs} :=
    match cs with
    | [] => Ok d
    | c :: rest =>
        if is_dot c then go d rest
        else if String.eqb c ".." then go (parent d) rest
        else match m !! (d ++ [c]) with
             | None => Err ErrNotExist
             | Some Dir => go (d ++ [c]) rest
             | Some (File _) =>
                 match rest with
                 | [] => Ok (d ++ [c])
                 | _ => Err ErrNotDir
                 end
             | Some (Symlink t) =>
                 match hops with
                 | O => Err ErrLoop
                 | S h => resolve_from h m (if is_rooted t then [] else d)
                            (split_slash t ++ rest)
                 end
             end
    end in
  go d cs.

(** Where a path string starts: [/] when rooted, else the working
    directory. *)
Definition start (s : os) (p : string) : list string :=
  if is_rooted p then [] else cwd s.

Definition resolve (s : os) (p : string) : res (list string) :=
  resolve_from max_symlinks (fsys s) (start s p) (split_slash p).

(** A creating call resolves all elements but the last one and then
    looks at the last name in the directory it reached. *)
Definition last_name (p : string) : string := List.last (split_slash p) "".

Definition dir_part (p : string) : list string := removelast (split_slash p).

Definition names_dir (p : string) : bool :=
  is_dot (last_name p) || String.eqb (last_name p) "..".

(** The directory a creating call works in, with the name it creates. *)
Definition resolve_entry (s : os) (p : string) : res (list string * string) :=
  match resolve_from max_symlinks (fsys s) (start s p) (dir_part p) with
  | Err e => Err e
  | Ok d =>
      match fsys s !! d with
      | Some Dir => Ok (d, last_name p)
      | _ => Err ErrNotDir
      end
  end.

(** [os.Mkdir(p, perm)]. *)
Definition os_mkdir (p : string) : St os unit := fun s =>
  if names_dir p then
    match resolve s p with
    | Ok _ => (Err ErrExist, s)
    | Err e => (Err e, s)
    end
  else match resolve_entry s p with
       | Err e => (Err e, s)
       | Ok (d, x) =>
           match fsys s !! (d ++ [x]) with
           | Some _ => (Err ErrExist, s)
           | None => (Ok tt, set_fsys <[d ++ [x] := Dir]> s)
           end
       end.

(** Truncate or create the regular file at [q]. *)
Definition truncate_at (q : list string) (s : os) : res handle * os :=
  (Ok (mkHandle q 0), set_fsys <[q := File []]> s).

(** [os.Create(p)]: open with [O_RDWR|O_CREATE|O_TRUNC]. *)
Definition os_create (p : string) : St os handle := fun s =>
  if names_dir p then
    match resolve s p with
    | Ok _ => (Err ErrIsDir, s)
    | Err e => (Err e, s)
    end
  else match resolve_entry s p with
       | Err e => (Err e, s)
       | Ok (d, x) =>
           match fsys s !! (d ++ [x]) with
           | None | Some (File _) => truncate_at (d ++ [x]) s
           | Some Dir => (Err ErrIsDir, s)
           | Some (Symlink _) =>
               match resolve s p with
               | Err e => (Err e, s)
               | Ok q =>
                   match fsys s !! q with
                   | Some (File _) => truncate_at q s
                   | _ => (Err ErrIsDir, s)
                   end
               end
           end
       end.

(** [f.Write(data)] on an open file: the bytes replace those at the
    offset (a gap past the end reads as zero bytes) and the offset moves
    past them.  [io.Copy(f, part)] has the effect of one such write of
    the whole part. *)
Definition splice (off : nat) (data c : list Byte.byte) : list Byte.byte :=
  take off c ++ replicate (off - List.length c) Byte.x00 ++ data ++ drop (off + List.length data) c.

Definition os_write (h : handle) (data : list Byte.byte) : St os handle := fun s =>
  match fsys s !! h_path h with
  | Some (File c) =>
      (Ok (mkHandle (h_path h) (h_off h + List.length data)),
       set_fsys <[h_path h := File (splice (h_off h) data c)]> s)
  | Some Dir => (Err ErrIsDir, s)
  | _ => (Err ErrInvalid, s)
  end.

(** [os.Open(p)]: read-only, following symbolic links. *)
Definition os_open (p : string) : St os handle := fun s =>
  match resolve s p with
  | Ok q => (Ok (mkHandle q 0), s)
  | Err e => (Err e, s)
  end.

(** [os.Chdir(p)]. *)
Definition os_chdir (p : string) : St os unit := fun s =>
  match resolve s p with
  | Err e => (Err e, s)
  | Ok q =>
      match fsys s !! q with
      | Some Dir => (Ok tt, mkOS (fsys s) q)
      | _ => (Err ErrNotDir, s)
      end
  end.

(** The absolute name of a directory, as [getcwd] prints it. *)
Definition render (p : list string) : string := String "/" (join_slash p).

(** [os.Getwd()]: the canonical name of the working directory.  (Go
    first tries [$PWD] when it names the same directory; either string
    resolves to the same directory, which is all the callers use.) *)
Definition os_getwd : St os string := fun s => (Ok (render (cwd s)), s).

(** ** Well-formed states

    The root is a directory, the parent of every entry is a directory,
    every element of an entry's path is a normal name, and the working
    directory is a directory. *)
Record wf (s : os) : Prop := {
  wf_root : fsys s !! [] = Some Dir;
  wf_parent : forall p x n, fsys s !! (p ++ [x]) = Some n -> fsys s !! p = Some Dir;
  wf_names : forall p n, fsys s !! p = Some n -> Forall normal_name p;
  wf_cwd : fsys s !! cwd s = Some Dir
}.

(** A node is a directory or a regular file: what a resolution ends on. *)
Definition resolved_node (m : gmap (list string) node) (q : list string) : Prop :=
  m !! q = Some Dir \/ exists c, m !! q = Some (File c).

Section Wf.
Context (s : os) (Hwf : wf s).

Lemma parent_dir d : fsys s !! d = Some Dir -> fsys s !! parent d = Some Dir.
  Proof.
    intros Hd. destruct d as [|x d _] using rev_ind; [done|].
    unfold parent. rewrite removelast_app_single. by eapply wf_parent.
  Qed.

Lemma start_dir p : fsys s !! start s p = Some Dir.
  Proof. unfold start. destruct (is_rooted p); [apply Hwf|apply Hwf]. Qed.

  (** Resolution from a directory ends on a directory or a file. *)
Lemma resolve_from_node hops d cs q :
    fsys s !! d = Some Dir -> resolve_from hops (fsys s) d cs = Ok q ->
    resolved_node (fsys s) q.
  Proof.
    revert d cs. induction hops as [|h IH]; intros d cs; revert d;
      induction cs as [|c cs IHcs]; intros d Hd Hres; simpl in Hres.
    all: try (injection Hres as <-; by left).
    all: destruct (is_dot c); [by eapply IHcs|].
    all: destruct (String.eqb c ".."); [eapply IHcs; [apply parent_dir, Hd|exact Hres]|].
    all: destruct (fsys s !! (d ++ [c])) as [[|data|t]|] eqn:E; try done.
    all: try (by eapply IHcs).
    all: try (destruct cs; [injection Hres as <-; right; by exists data|done]).
    eapply IH; [|exact Hres]. destruct (is_rooted t); [apply Hwf|exact Hd].
  Qed.

Lemma resolve_node p q : resolve s p = Ok q -> resolved_node (fsys s) q.
  Proof. apply resolve_from_node, start_dir. Qed.
End Wf.

(** ** Names a creating call creates *)

Lemma last_name_no_slash p : has_slash (last_name p) = false.
Proof.
  unfold last_name. pose proof (split_slash_no_slash p) as H.
  pose proof (split_slash_nonempty p) as Hne.
  by apply Forall_last.
Qed.

Lemma last_name_normal p : names_dir p = false -> normal_name (last_name p).
Proof.
  unfold names_dir, is_dot. intros [[H1 H2]%orb_false_elim H3]%orb_false_elim.
  repeat split; [by apply String.eqb_neq..|apply last_name_no_slash].
Qed.

Lemma resolve_entry_dir s p d x :
  resolve_entry s p = Ok (d, x) -> fsys s !! d = Some Dir /\ x = last_name p.
Proof.
  unfold resolve_entry. destruct (resolve_from _ _ _ _) as [d'|]; [|done].
  destruct (fsys s !! d') as [[]|] eqn:E; intros H; inversion H; by subst.
Qed.

(** ** Well-formedness is preserved *)

Lemma wf_insert_child s d x n :
  wf s -> fsys s !! d = Some Dir -> normal_name x -> fsys s !! (d ++ [x]) = None ->
  wf (set_fsys <[d ++ [x] := n]> s).
Proof.
  intros Hwf Hd Hx Hnew. constructor; simpl.
  - rewrite lookup_insert_ne; [apply Hwf|]. by destruct d.
  - intros p y m. rewrite lookup_insert.
    case_decide as Heq.
    + intros _. apply app_inj_tail in Heq as [<- _].
      rewrite lookup_insert_ne; [done|]. intros Hc. apply (f_equal List.length) in Hc.
      rewrite length_app in Hc. simpl in Hc. lia.
    + intros Hp. pose proof (wf_parent s Hwf p y m Hp) as Hpd.
      rewrite lookup_insert_ne; [done|]. intros <-. congruence.
  - intros p m. rewrite lookup_insert. case_decide as Heq.
    + intros _. subst p. apply Forall_app. split; [|by constructor].
      by eapply wf_names.
    + apply wf_names, Hwf.
  - rewrite lookup_insert_ne; [apply Hwf|]. intros Hc. rewrite Hc in Hnew.
    pose proof (wf_cwd s Hwf). congruence.
Qed.

Lemma wf_replace s q n n' :
  wf s -> fsys s !! q = Some n -> n <> Dir -> n' <> Dir ->
  wf (set_fsys <[q := n']> s).
Proof.
  intros Hwf Hq Hn Hn'. constructor; simpl.
  - rewrite lookup_insert_ne; [apply Hwf|]. intros ->. rewrite (wf_root s Hwf) in Hq. congruence.
  - intros p y m. rewrite !lookup_insert.
    destruct (decide (q = p ++ [y])) as [->|Hne1].
    + intros _. destruct (decide (p ++ [y] = p)) as [Hc|_]; [|by eapply wf_parent].
      apply (f_equal List.length) in Hc. rewrite length_app in Hc. simpl in Hc. lia.
    + intros Hp. pose proof (wf_parent s Hwf p y m Hp) as Hpd.
      destruct (decide (q = p)) as [->|_]; [congruence|done].
  - intros p m. rewrite lookup_insert. case_decide as Heq.
    + intros _. subst. by eapply wf_names.
    + apply wf_names, Hwf.
  - rewrite lookup_insert. case_decide as Heq; [subst; pose proof (wf_cwd s Hwf); congruence|apply Hwf].
Qed.

Section Preservation.
Context (s : os) (Hwf : wf s).

Lemma os_mkdir_wf p : wf (snd (os_mkdir p s)).
  Proof.
    unfold os_mkdir. destruct (names_dir p) eqn:Hp; [by destruct (resolve s p)|].
    destruct (resolve_entry s p) as [[d x]|] eqn:E; [|done].
    apply resolve_entry_dir in E as [Hd ->].
    destruct (fsys s !! (d ++ [last_name p])) eqn:Hn; [done|].
    apply wf_insert_child; auto using last_name_normal.
  Qed.

Lemma os_create_wf p : wf (snd (os_create p s)).
  Proof.
    unfold os_create. destruct (names_dir p) eqn:Hp; [by destruct (resolve s p)|].
    destruct (resolve_entry s p) as [[d x]|] eqn:E; [|done].
    apply resolve_entry_dir in E as [Hd ->].
    destruct (fsys s !! (d ++ [last_name p])) as [[|c|t]|] eqn:Hn; simpl.
    - done.
    - by eapply wf_replace.
    - destruct (resolve s p) as [q|]; [|done].
      destruct (fsys s !! q) as [[]|] eqn:Hq; try done. by eapply wf_replace.
    - apply wf_insert_child; auto using last_name_normal.
  Qed.

Lemma os_write_wf h data : wf (snd (os_write h data s)).
  Proof.
    unfold os_write. destruct (fsys s !! h_path h) as [[]|] eqn:E; try done.
    by eapply wf_replace.
  Qed.

Lemma os_chdir_wf p : wf (snd (os_chdir p s)).
  Proof.
    unfold os_chdir. destruct (resolve s p) as [q|]; [|done].
    destruct (fsys s !! q) as [[]|] eqn:E; try done.
    constructor; try apply Hwf. done.
  Qed.
End Preservation.

#[export] Hint Resolve os_mkdir_wf os_create_wf os_write_wf os_chdir_wf : redbag.

(** ** Directories are never removed or replaced

    No call of the model deletes an entry or turns a directory into
    something else. *)
Definition dirs_kept (s s' : os) : Prop :=
  forall q, fsys s !! q = Some Dir -> fsys s' !! q = Some Dir.

#[export] Instance dirs_kept_preorder : PreOrder dirs_kept.
Proof. split; [by intros s q|intros s1 s2 s3 H12 H23 q Hq; auto]. Qed.

Lemma dirs_kept_insert s q n :
  fsys s !! q <> Some Dir -> dirs_kept s (set_fsys <[q := n]> s).
Proof.
  intros Hq q' Hq'. simpl. rewrite lookup_insert_ne; [done|]. by intros ->.
Qed.

Lemma os_mkdir_kept s p : dirs_kept s (snd (os_mkdir p s)).
Proof.
  unfold os_mkdir. destruct (names_dir p); [destruct (resolve s p); reflexivity|].
  destruct (resolve_entry s p) as [[d x]|]; [|reflexivity].
  destruct (fsys s !! (d ++ [x])) eqn:E; [reflexivity|].
  apply dirs_kept_insert. by rewrite E.
Qed.

Lemma os_create_kept s p : dirs_kept s (snd (os_create p s)).
Proof.
  unfold os_create. destruct (names_dir p); [destruct (resolve s p); reflexivity|].
  destruct (resolve_entry s p) as [[d x]|]; [|reflexivity].
  destruct (fsys s !! (d ++ [x])) as [[|c|t]|] eqn:E; simpl.
  - reflexivity.
  - apply dirs_kept_insert. by rewrite E.
  - destruct (resolve s p) as [q|]; [|reflexivity].
    destruct (fsys s !! q) as [[|c|]|] eqn:Eq; try reflexivity.
    apply dirs_kept_insert. by rewrite Eq.
  - apply dirs_kept_insert. by rewrite E.
Qed.

Lemma os_write_kept s h data : dirs_kept s (snd (os_write h data s)).
Proof.
  unfold os_write. destruct (fsys s !! h_path h) as [[|c|]|] eqn:E; try reflexivity.
  apply dirs_kept_insert. by rewrite E.
Qed.

Lemma os_chdir_kept s p : dirs_kept s (snd (os_chdir p s)).
Proof.
  unfold os_chdir. destruct (resolve s p); [|reflexivity].
  destruct (fsys s !! _) as [[]|]; by intros q Hq.
Qed.

#[export] Hint Resolve os_mkdir_kept os_create_kept os_write_kept os_chdir_kept : redbag.

(** ** Resolution equations *)

Lemma resolve_from_nil hops m d : resolve_from hops m d [] = Ok d.
Proof. by destruct hops. Qed.

Lemma resolve_from_cons hops m d c cs :
  resolve_from hops m d (c :: cs) =
  if is_dot c then resolve_from hops m d cs
  else if String.eqb c ".." then resolve_from hops m (parent d) cs
  else match m !! (d ++ [c]) with
       | None => Err ErrNotExist
       | Some Dir => resolve_from hops m (d ++ [c]) cs
       | Some (File _) => match cs with [] => Ok (d ++ [c]) | _ => Err ErrNotDir end
       | Some (Symlink t) =>
           match hops with
           | O => Err ErrLoop
           | S h => resolve_from h m (if is_rooted t then [] else d) (split_slash t ++ cs)
           end
       end.
Proof. by destruct hops. Qed.

Lemma normal_name_not_dot c : normal_name c -> is_dot c = false /\ String.eqb c ".." = false.
Proof.
  intros (H1&H2&H3&_). unfold is_dot.
  rewrite (proj2 (String.eqb_neq _ _) H1), (proj2 (String.eqb_neq _ _) H2).
  by rewrite (proj2 (String.eqb_neq _ _) H3).
Qed.

Lemma dir_prefix s p1 p2 :
  wf s -> fsys s !! (p1 ++ p2) = Some Dir -> fsys s !! p1 = Some Dir.
Proof.
  intros Hwf. induction p2 as [|x p2 IH] using rev_ind; [by rewrite app_nil_r|].
  rewrite app_assoc. intros H. apply IH. by eapply wf_parent.
Qed.

(** Resolving normal names along existing directories follows them. *)
Lemma resolve_from_dirs s hops d cs :
  wf s -> Forall normal_name cs -> fsys s !! (d ++ cs) = Some Dir ->
  resolve_from hops (fsys s) d cs = Ok (d ++ cs).
Proof.
  intros Hwf Hcs. revert d. induction Hcs as [|c cs Hc Hcs IH]; intros d Hd.
  { by rewrite resolve_from_nil, app_nil_r. }
  rewrite resolve_from_cons. destruct (normal_name_not_dot c Hc) as [-> ->].
  rewrite (dir_prefix s (d ++ [c]) cs) by (done || by rewrite <- app_assoc).
  rewrite IH; by rewrite <- app_assoc.
Qed.

(** [os.Chdir] back to the name [os.Getwd] printed returns to the same
    directory, as long as it is still a directory. *)
Lemma os_chdir_render s p :
  wf s -> fsys s !! p = Some Dir -> os_chdir (render p) s = (Ok tt, mkOS (fsys s) p).
Proof.
  intros Hwf Hp. pose proof (wf_names s Hwf p Dir Hp) as Hn.
  unfold os_chdir, resolve, start, render.
  rewrite is_rooted_slash, split_slash_rooted, resolve_from_cons. cbn [is_dot String.eqb orb].
  destruct p as [|x p].
  - cbn [join_slash split_slash]. rewrite resolve_from_cons. cbn [is_dot String.eqb orb].
    by rewrite resolve_from_nil, (wf_root s Hwf).
  - rewrite split_join by (done || by apply normal_name_slash_free).
    rewrite (resolve_from_dirs s _ [] (x :: p)) by done. cbn [app]. by rewrite Hp.
Qed.

(** ** Sound computations

    A computation is sound when, from a well-formed state, it reaches a
    well-formed state and keeps every directory.  Soundness composes
    along [st_bind], so each model of Go code inherits it from the
    system calls it makes. *)
Definition sound {A} (m : St os A) : Prop :=
  forall s, wf s -> wf (snd (m s)) /\ dirs_kept s (snd (m s)).

Lemma sound_ret {A} (a : A) : sound (st_ret a).
Proof. intros s Hs. split; [done|reflexivity]. Qed.

Lemma sound_bind {A B} (m : St os A) (k : A -> St os B) :
  sound m -> (forall a, sound (k a)) -> sound (st_bind m k).
Proof.
  intros Hm Hk s Hs. unfold st_bind.
  destruct (m s) as [[a|e] s1] eqn:E; pose proof (Hm s Hs) as [Hw1 Hk1]; rewrite E in Hw1, Hk1;
    simpl in *; [|done].
  destruct (Hk a s1 Hw1) as [Hw2 Hk2]. split; [done|by etrans].
Qed.

Lemma sound_defer {A B} (m : St os A) (d : St os B) :
  sound m -> sound d -> sound (st_defer m d).
Proof.
  intros Hm Hd s Hs. unfold st_defer. destruct (m s) as [r s1] eqn:E.
  pose proof (Hm s Hs) as [Hw1 Hk1]. rewrite E in Hw1, Hk1. simpl in *.
  destruct (Hd s1 Hw1) as [Hw2 Hk2]. split; [done|by etrans].
Qed.

Lemma os_mkdir_sound p : sound (os_mkdir p).
Proof. intros s Hs. split; [by apply os_mkdir_wf|apply os_mkdir_kept]. Qed.

Lemma os_create_sound p : sound (os_create p).
Proof. intros s Hs. split; [by apply os_create_wf|apply os_create_kept]. Qed.

Lemma os_write_sound h data : sound (os_write h data).
Proof. intros s Hs. split; [by apply os_write_wf|apply os_write_kept]. Qed.

Lemma os_chdir_sound p : sound (os_chdir p).
Proof. intros s Hs. split; [by apply os_chdir_wf|apply os_chdir_kept]. Qed.

Lemma os_getwd_sound : sound os_getwd.
Proof. intros s Hs. split; [done|reflexivity]. Qed.

Lemma os_open_sound p : sound (os_open p).
Proof. intros s Hs. unfold os_open. destruct (resolve s p); (split; [done|reflexivity]). Qed.

#[export] Hint Resolve sound_ret sound_bind sound_defer os_mkdir_sound os_create_sound
  os_write_sound os_chdir_sound os_getwd_sound os_open_sound : redbag.

(** ** Frame: adding a fresh entry keeps a successful resolution

    A resolution that succeeded never looked up a missing entry, so
    creating one does not change it. *)
Lemma resolve_from_insert_fresh hops m d cs q k n :
  m !! k = None -> resolve_from hops m d cs = Ok q ->
  resolve_from hops (<[k := n]> m) d cs = Ok q.
Proof.
  intros Hk. revert d cs. induction hops as [|h IH]; intros d cs; revert d;
    induction cs as [|c cs IHcs]; intros d Hres;
    rewrite resolve_from_cons in Hres |- * || (rewrite resolve_from_nil in Hres |- *; done).
  all: destruct (is_dot c); [by apply IHcs|].
  all: destruct (String.eqb c ".."); [by apply IHcs|].
  all: destruct (m !! (d ++ [c])) as [nd|] eqn:E; [|done].
  all: rewrite lookup_insert_ne by (intros ->; congruence); rewrite E.
  all: destruct nd; try done; try by apply IHcs.
  by apply IH.
Qed.

(** ** Checking well-formedness

    [wf_check] is the executable form of [wf]: the root and the working
    directory are directories, and every entry has normal names and a
    directory as parent.  It decides [wf] on concrete states. *)
Definition wf_check (s : os) : Prop :=
  fsys s !! [] = Some Dir /\ fsys s !! cwd s = Some Dir /\
  map_Forall (fun p _ => Forall normal_name p /\ (p = [] \/ fsys s !! removelast p = Some Dir))
             (fsys s).

#[export] Instance wf_check_dec s : Decision (wf_check s).
Proof. unfold wf_check. apply _. Defined.

Lemma wf_check_wf s : wf_check s -> wf s.
Proof.
  intros (Hr & Hc & Hall). constructor; [done| | |done].
  - intros p x n Hp. destruct (Hall _ _ Hp) as [_ [Hnil|Hpar]].
    + by destruct p.
    + by rewrite removelast_app_single in Hpar.
  - intros p n Hp. apply (Hall _ _ Hp).
Qed.

Lemma wf_by_check s : bool_decide (wf_check s) = true -> wf s.
Proof. intros H. apply wf_check_wf. by apply bool_decide_eq_true in H. Qed.

Lemma sound_wf_eq {A} (m : St os A) s r s' :
  sound m -> wf s -> m s = (r, s') -> wf s'.
Proof. intros Hm Hs E. pose proof (Hm s Hs) as [H _]. by rewrite E in H. Qed.

(** ** Outcomes of os.Mkdir *)

Lemma resolve_from_not_exist hops m d cs : resolve_from hops m d cs <> Err ErrExist.
Proof.
  revert d cs. induction hops as [|h IH]; intros d cs; revert d;
    induction cs as [|c cs IHcs]; intros d;
    rewrite ?resolve_from_nil; try done; rewrite resolve_from_cons.
  all: destruct (is_dot c); [apply IHcs|].
  all: destruct (String.eqb c ".."); [apply IHcs|].
  all: destruct (m !! (d ++ [c])) as [[| |t]|]; try done; try apply IHcs.
  all: try (destruct cs; done).
  all: apply IH.
Qed.

Lemma resolve_entry_not_exist s p : resolve_entry s p <> Err ErrExist.
Proof.
  unfold resolve_entry. destruct (resolve_from _ _ _ _) eqn:E.
  - by destruct (fsys s !! _) as [[]|].
  - intros [= ->]. by apply (resolve_from_not_exist _ _ _ _ E).
Qed.

Lemma resolve_entry_insert_fresh s p d x k n :
  resolve_entry s p = Ok (d, x) -> fsys s !! k = None -> k <> d ->
  resolve_entry (set_fsys <[k := n]> s) p = Ok (d, x).
Proof.
  unfold resolve_entry, start, set_fsys. cbn [fsys cwd]. intros He Hk Hkd.
  destruct (resolve_from _ (fsys s) _ _) as [d'|] eqn:E; [|done].
  rewrite (resolve_from_insert_fresh _ _ _ _ _ _ _ Hk E).
  rewrite lookup_insert_ne by (intros ->; destruct (fsys s !! d') as [[]|]; congruence).
  done.
Qed.

(** [os.Mkdir] either reports that the entry exists, fails with another
    error, or creates the directory; in the first two cases the state is
    unchanged. *)
Lemma os_mkdir_cases p s :
  os_mkdir p s = (Err ErrExist, s) \/
  (exists e, e <> ErrExist /\ os_mkdir p s = (Err e, s)) \/
  (exists d x, resolve_entry s p = Ok (d, x) /\ fsys s !! (d ++ [x]) = None /\
               names_dir p = false /\ os_mkdir p s = (Ok tt, set_fsys <[d ++ [x] := Dir]> s)).
Proof.
  unfold os_mkdir. destruct (names_dir p) eqn:Hnd.
  - destruct (resolve s p) eqn:E; [by left|]. right; left. eexists; split; [|done].
    intros ->. by apply (resolve_from_not_exist _ _ _ _ E).
  - destruct (resolve_entry s p) as [[d x]|e] eqn:E.
    + destruct (fsys s !! (d ++ [x])) eqn:Ex; [by left|]. right; right. by exists d, x.
    + right; left. exists e. split; [|done]. intros ->. by apply (resolve_entry_not_exist s p).
Qed.
