(* ===== verification/Confinement.v ===== *)
(** * Confinement: which entries a sequence of calls can change

    A subtree [R] of the file system confines a computation when the
    computation changes no entry outside [R].  The system calls made on a
    single normal name [x] from a working directory [d] only touch the
    entry [d ++ [x]]; when that entry lies in [R] and no symbolic link
    lies in [R], the call is confined to [R].  The handlers' containment
    theorems are built from these step lemmas. *)

From stdpp Require Import base list gmap strings.
From Stdlib Require Import Ascii String.
From S2P Require Import Prelude GoPath OsFs.

Local Open Scope string_scope.
Local Open Scope list_scope.

(** No entry of [R] (nor [R] itself) is a symbolic link. *)
Definition no_links_under (m : gmap (list string) node) (R : list string) : Prop :=
  forall q t, R `prefix_of` q -> m !! q <> Some (Symlink t).

(** Every entry outside [R] is as in [m0]. *)
Definition frame (R : list string) (m0 m : gmap (list string) node) : Prop :=
  forall q, ~ R `prefix_of` q -> m !! q = m0 !! q.

Definition confined (R : list string) (s0 s : os) : Prop :=
  no_links_under (fsys s) R /\ frame R (fsys s0) (fsys s).

Lemma confined_refl R s : no_links_under (fsys s) R -> confined R s s.
Proof. by split. Qed.

Lemma confined_trans R s0 s1 s2 :
  confined R s0 s1 -> confined R s1 s2 -> confined R s0 s2.
Proof.
  intros [_ F1] [N2 F2]. split; [done|]. intros q Hq. by rewrite F2, F1.
Qed.

(** Writing a directory or a file into [R] keeps the computation
    confined to [R]. *)
Lemma confined_insert R s0 s k n :
  R `prefix_of` k -> (forall t, n <> Symlink t) -> confined R s0 s ->
  confined R s0 (set_fsys <[k := n]> s).
Proof.
  intros Hk Hn [N F]. split; simpl.
  - intros q t Hq. rewrite lookup_insert. case_decide; [congruence|by apply N].
  - intros q Hq. rewrite lookup_insert_ne; [by apply F|]. by intros ->.
Qed.

Lemma confined_cwd R s0 s d : confined R s0 s -> confined R s0 (mkOS (fsys s) d).
Proof. done. Qed.

#[export] Hint Resolve confined_trans confined_insert confined_cwd : redbag.

(** ** A single normal name from the working directory *)

Section OneName.
Context (s : os) (Hwf : wf s) (x : string) (Hx : normal_name x).

Lemma split_name : split_slash x = [x].
  Proof. apply split_slash_single. apply Hx. Qed.

Lemma names_dir_name : names_dir x = false.
  Proof.
    unfold names_dir, last_name. rewrite split_name. simpl.
    by destruct (normal_name_not_dot x Hx) as [-> ->].
  Qed.

Lemma resolve_entry_name : resolve_entry s x = Ok (cwd s, x).
  Proof.
    unfold resolve_entry, dir_part, last_name, start.
    rewrite split_name, normal_name_unrooted by done. simpl.
    rewrite ?resolve_from_nil. by rewrite (wf_cwd s Hwf).
  Qed.

Lemma resolve_name :
    resolve s x =
    match fsys s !! (cwd s ++ [x]) with
    | None => Err ErrNotExist
    | Some Dir | Some (File _) => Ok (cwd s ++ [x])
    | Some (Symlink t) =>
        resolve_from (max_symlinks - 1) (fsys s) (if is_rooted t then [] else cwd s)
          (split_slash t ++ [])
    end.
  Proof.
    unfold resolve, start. rewrite split_name, normal_name_unrooted by done.
    rewrite resolve_from_cons. destruct (normal_name_not_dot x Hx) as [-> ->].
    destruct (fsys s !! _) as [[]|]; try done; by rewrite resolve_from_nil.
  Qed.

Lemma os_mkdir_name :
    os_mkdir x s =
    match fsys s !! (cwd s ++ [x]) with
    | Some _ => (Err ErrExist, s)
    | None => (Ok tt, set_fsys <[cwd s ++ [x] := Dir]> s)
    end.
  Proof. unfold os_mkdir. by rewrite names_dir_name, resolve_entry_name. Qed.

  Section NoLink.
Context (Hnl : forall t, fsys s !! (cwd s ++ [x]) <> Some (Symlink t)).

Lemma os_chdir_name :
      os_chdir x s =
      match fsys s !! (cwd s ++ [x]) with
      | Some Dir => (Ok tt, mkOS (fsys s) (cwd s ++ [x]))
      | Some _ => (Err ErrNotDir, s)
      | None => (Err ErrNotExist, s)
      end.
    Proof.
      unfold os_chdir. rewrite resolve_name.
      destruct (fsys s !! _) as [[| |t]|] eqn:E; try done.
      - by rewrite E.
      - by rewrite E.
      - by destruct (Hnl t).
    Qed.

Lemma os_create_name :
      os_create x s =
      match fsys s !! (cwd s ++ [x]) with
      | Some Dir => (Err ErrIsDir, s)
      | _ => (Ok (mkHandle (cwd s ++ [x]) 0), set_fsys <[cwd s ++ [x] := File []]> s)
      end.
    Proof.
      unfold os_create. rewrite names_dir_name, resolve_entry_name.
      destruct (fsys s !! _) as [[| |t]|] eqn:E; try done. by destruct (Hnl t).
    Qed.
  End NoLink.
End OneName.

(** ** Each call on a name inside [R] stays confined to [R] *)

Section Steps.
Context (R : list string) (s0 s : os) (Hwf : wf s) (Hc : confined R s0 s)
          (x : string) (Hx : normal_name x) (HR : R `prefix_of` cwd s ++ [x]).

Lemma no_link_here t : fsys s !! (cwd s ++ [x]) <> Some (Symlink t).
  Proof. apply Hc, HR. Qed.

Lemma os_mkdir_confined : confined R s0 (snd (os_mkdir x s)).
  Proof.
    rewrite os_mkdir_name by done.
    destruct (fsys s !! _); simpl; [done|]. by apply confined_insert.
  Qed.

Lemma os_chdir_confined :
    confined R s0 (snd (os_chdir x s)) /\
    (fst (os_chdir x s) = Ok tt -> cwd (snd (os_chdir x s)) = cwd s ++ [x]).
  Proof.
    rewrite os_chdir_name by auto using no_link_here.
    by destruct (fsys s !! _) as [[]|].
  Qed.

Lemma os_create_confined :
    confined R s0 (snd (os_create x s)) /\
    (forall h, fst (os_create x s) = Ok h -> h = mkHandle (cwd s ++ [x]) 0).
  Proof.
    rewrite os_create_name by auto using no_link_here.
    destruct (fsys s !! _) as [[]|]; simpl; (split; [|by intros ? [= <-]]); try done;
      by apply confined_insert.
  Qed.
End Steps.

Lemma os_write_confined R s0 s h data :
  confined R s0 s -> R `prefix_of` h_path h -> confined R s0 (snd (os_write h data s)).
Proof.
  intros Hc Hh. unfold os_write. destruct (fsys s !! h_path h) as [[]|]; try done.
  by apply confined_insert.
Qed.

Lemma os_write_path h data s h' :
  fst (os_write h data s) = Ok h' -> h_path h' = h_path h.
Proof. unfold os_write. by destruct (fsys s !! h_path h) as [[]|]; intros [= <-]. Qed.

(** ** Paths of several normal names *)

Lemma no_links_under_mono m R R' :
  R `prefix_of` R' -> no_links_under m R -> no_links_under m R'.
Proof. intros HR H q t Hq. apply H. by etrans. Qed.

(** Without symbolic links, resolving normal names is lexical. *)
Lemma resolve_from_lexical hops m d cs q :
  Forall normal_name cs ->
  (forall c cs', cs = c :: cs' -> no_links_under m (d ++ [c])) ->
  resolve_from hops m d cs = Ok q -> q = d ++ cs.
Proof.
  intros Hcs. revert d. induction Hcs as [|c cs Hc Hcs IH]; intros d Hnl.
  { rewrite resolve_from_nil, app_nil_r. by intros [= ->]. }
  specialize (Hnl c cs eq_refl).
  rewrite resolve_from_cons. destruct (normal_name_not_dot c Hc) as [-> ->].
  destruct (m !! (d ++ [c])) as [[| |t]|] eqn:E; try done.
  - intros Hres. rewrite (IH (d ++ [c])); [by rewrite <- app_assoc| |done].
    intros c' cs' _. eapply no_links_under_mono; [|exact Hnl]. by apply prefix_app_r.
  - destruct cs; [by intros [= <-]|done].
  - exfalso. by apply (Hnl (d ++ [c]) t).
Qed.

Lemma os_create_names_dir p s : names_dir p = true -> snd (os_create p s) = s.
Proof. unfold os_create. intros ->. by destruct (resolve s p). Qed.

Section Path.
Context (R : list string) (s0 s : os) (Hc : confined R s0 s)
          (p : string) (Hp : is_rooted p = false) (Hn : Forall normal_name (split_slash p))
          (HR : R `prefix_of` cwd s ++ take 1 (split_slash p)).

Lemma cs_split : (split_slash p) = removelast (split_slash p) ++ [List.last (split_slash p) ""].
  Proof. apply app_removelast_last, split_slash_nonempty. Qed.

Lemma last_normal : normal_name (List.last (split_slash p) "").
  Proof. apply Forall_last; [exact Hn|apply split_slash_nonempty]. Qed.

Lemma path_resolve_entry d x : resolve_entry s p = Ok (d, x) -> d ++ [x] = cwd s ++ (split_slash p).
  Proof.
    intros He. pose proof He as [_ ->]%resolve_entry_dir.
    unfold resolve_entry, start, dir_part in He. rewrite Hp in He.
    destruct (resolve_from _ _ _ _) as [d'|] eqn:E; [|done].
    apply resolve_from_lexical in E.
    - destruct (fsys s !! d') as [[]|]; try done. injection He as <-. rewrite E.
      unfold last_name, dir_part.  by rewrite <- app_assoc, <- cs_split.
    - by apply Forall_removelast.
    - intros c cs' Hrl. eapply no_links_under_mono; [|apply Hc]. etrans; [exact HR|].
      rewrite (head_removelast_take _ c); [done|]. by rewrite Hrl.
  Qed.

Lemma os_create_path_confined :
    confined R s0 (snd (os_create p s)) /\
    (forall h, fst (os_create p s) = Ok h -> h = mkHandle (cwd s ++ (split_slash p)) 0).
  Proof.
    assert (HRc : R `prefix_of` cwd s ++ (split_slash p))
      by (etrans; [exact HR|apply prefix_app, prefix_take]).
    assert (Hnd : names_dir p = false).
    { unfold names_dir, last_name. 
      by destruct (normal_name_not_dot _ last_normal) as [-> ->]. }
    unfold os_create. rewrite Hnd.
    destruct (resolve_entry s p) as [[d x]|] eqn:E; [|done].
    pose proof (path_resolve_entry d x E) as Hdx. rewrite Hdx.
    destruct (fsys s !! (cwd s ++ (split_slash p))) as [[| |t]|] eqn:Ef; simpl;
      try (split; [by apply confined_insert|by intros ? [= <-]]).
    - done.
    - exfalso. by apply (proj1 Hc (cwd s ++ (split_slash p)) t).
  Qed.
End Path.

(** The executable form of [no_links_under]. *)
Definition no_links_check (m : gmap (list string) node) (R : list string) : Prop :=
  map_Forall (fun q n => R `prefix_of` q -> forall t, n <> Symlink t) m.

Lemma no_links_check_spec m R : no_links_check m R -> no_links_under m R.
Proof. intros H q t Hq Hl. by apply (H q (Symlink t) Hl Hq t). Qed.

Definition is_link (n : node) : bool := match n with Symlink _ => true | _ => false end.

Lemma no_links_check_bool m R :
  map_Forall (fun q n => R `prefix_of` q -> is_link n = false) m -> no_links_check m R.
Proof. intros H q n Hq HR t ->. by specialize (H q _ Hq HR). Qed.

Lemma no_links_by_check m R :
  bool_decide (map_Forall (fun q n => R `prefix_of` q -> is_link n = false) m) = true ->
  no_links_under m R.
Proof.
  intros H. apply no_links_check_spec, no_links_check_bool. by apply bool_decide_eq_true in H.
Qed.
