(* ===== verification/Upload.v ===== *)
(** * Upload: the upload server of [src/main.go]

    [main.go] serves two POST endpoints.  [/chroot] ([chrootHandler])
    re-creates every uploaded file under the directory [chroot] of the
    working directory, creating the intermediate directories with
    [createFileRecursive]; [/upload] ([uploadHandler]) stores every file
    flat in [uploads], its slashes replaced by underscores.  Both write the
    parts of a form field to the file in the order the request lists them.

    A handler is a function from the request and the machine state to
    the response and the new state.  The multipart form is given already
    parsed: [None] when [ParseMultipartForm] fails, else the list of
    (field name, parts) pairs of [form.File].  Go iterates over that map
    in an unspecified order: the model takes the order of the list, and
    the theorems hold for every list. *)

From stdpp Require Import base list gmap strings.
From Stdlib Require Import Ascii String.
From S2P Require Import Prelude GoPath OsFs Confinement.

Local Open Scope string_scope.
Local Open Scope list_scope.
Local Open Scope go_scope.

(** ** Requests and responses *)

Inductive http_method := MethodGet | MethodPost | MethodOther (m : string).

(** The bytes of one uploaded part ([*multipart.FileHeader]). *)
Definition part := list Byte.byte.

Record request := mkRequest {
  req_method : http_method;
  req_form : option (list (string * list part))
}.

Record response := mkResponse {
  resp_status : nat;
  resp_body : string
}.

Definition StatusOK := 200.
Definition StatusBadRequest := 400.
Definition StatusMethodNotAllowed := 405.
Definition StatusInternalServerError := 500.

Definition status_only (code : nat) : response := mkResponse code "".

(** ** createFolderIfNotExists *)

Definition createFolderIfNotExists (folder : string) : St os unit := fun s =>
  match os_mkdir folder s with
  | (Err ErrExist, s') => (Ok tt, s')
  | r => r
  end.

(** ** createFileRecursive

    The loop over [dirs[:len(dirs)-1]]: create the directory if needed,
    then [os.Chdir] into it. *)
Fixpoint mkdir_chdir_all (dirs : list string) : St os unit :=
  match dirs with
  | [] => st_ret tt
  | dir :: rest =>
      createFolderIfNotExists dir ;;
      os_chdir dir ;;
      mkdir_chdir_all rest
  end.

(** The elements [createFileRecursive] walks through. *)
Definition path_dirs (filepath : string) : list string :=
  split_slash (trim_prefix_slash (clean filepath)).

(** The body after [defer os.Chdir(olddir)]; [None] is the nil file. *)
Definition createFileRecursive_body (filepath : string) : St os (option handle) :=
  let dirs := path_dirs filepath in
  mkdir_chdir_all (removelast dirs) ;;
  let filename := List.last dirs "" in
  if String.eqb filename "" then st_ret None
  else h <- os_create filename ;; st_ret (Some h).

Definition createFileRecursive (filepath : string) : St os (option handle) :=
  olddir <- os_getwd ;;
  st_defer (createFileRecursive_body filepath) (os_chdir olddir).

(** ** Writing the parts

    [for _, header := range fileheaders { filepart, _ := header.Open();
    io.Copy(newFile, filepart) }]: errors are ignored; a write through a
    nil file does nothing ([os.ErrInvalid]); a failed write leaves the
    offset where it was. *)
Fixpoint copy_parts (f : option handle) (parts : list part) : St os unit :=
  match parts with
  | [] => st_ret tt
  | p :: ps =>
      match f with
      | None => copy_parts None ps
      | Some h => fun s =>
          match os_write h p s with
          | (Ok h', s') => copy_parts (Some h') ps s'
          | (Err _, s') => copy_parts (Some h) ps s'
          end
      end
  end.

(** ** chrootHandler *)

(** The path handed to [createFileRecursive]:
    [path.Join("chroot", path.Clean(filename))]. *)
Definition chroot_target (filename : string) : string :=
  path_join ["chroot"; clean filename].

Fixpoint chroot_files (files : list (string * list part)) : os -> response * os :=
  match files with
  | [] => fun s => (mkResponse StatusOK "Received file(s) successfully.", s)
  | (filename, parts) :: rest => fun s =>
      match createFileRecursive (chroot_target filename) s with
      | (Err _, s1) => (status_only StatusInternalServerError, s1)
      | (Ok f, s1) => chroot_files rest (snd (copy_parts f parts s1))
      end
  end.

Definition chrootHandler (req : request) (s : os) : response * os :=
  match req_method req with
  | MethodPost =>
      match req_form req with
      | None => (status_only StatusBadRequest, s)
      | Some files =>
          match createFolderIfNotExists "chroot" s with
          | (Err _, s1) => (status_only StatusInternalServerError, s1)
          | (Ok _, s1) => chroot_files files s1
          end
      end
  | _ => (status_only StatusMethodNotAllowed, s)
  end.

(** ** uploadHandler *)

(** [path.Join("uploads", strings.ReplaceAll(path.Clean(filename), "/", "_"))]. *)
Definition upload_target (filename : string) : string :=
  path_join ["uploads"; replace_slash (clean filename)].

Fixpoint upload_files (files : list (string * list part)) : os -> response * os :=
  match files with
  | [] => fun s => (mkResponse StatusOK "Received file successfully.", s)
  | (filename, parts) :: rest => fun s =>
      match os_create (upload_target filename) s with
      | (Err _, s1) => (status_only StatusInternalServerError, s1)
      | (Ok h, s1) => upload_files rest (snd (copy_parts (Some h) parts s1))
      end
  end.

Definition uploadHandler (req : request) (s : os) : response * os :=
  match req_method req with
  | MethodPost =>
      match req_form req with
      | None => (status_only StatusBadRequest, s)
      | Some files =>
          match createFolderIfNotExists "uploads" s with
          | (Err _, s1) => (status_only StatusInternalServerError, s1)
          | (Ok _, s1) => upload_files files s1
          end
      end
  | _ => (status_only StatusMethodNotAllowed, s)
  end.

(** * Properties *)

(** ** Every operation is sound *)

Lemma createFolderIfNotExists_sound folder : sound (createFolderIfNotExists folder).
Proof.
  intros s Hs. unfold createFolderIfNotExists.
  pose proof (os_mkdir_sound folder s Hs) as H.
  by destruct (os_mkdir folder s) as [[|[]] s'].
Qed.

Lemma mkdir_chdir_all_sound dirs : sound (mkdir_chdir_all dirs).
Proof.
  induction dirs as [|d dirs IH]; simpl; auto using createFolderIfNotExists_sound with redbag.
Qed.

Lemma createFileRecursive_body_sound p : sound (createFileRecursive_body p).
Proof.
  unfold createFileRecursive_body. destruct (String.eqb _ _);
    repeat (apply sound_bind; [auto using mkdir_chdir_all_sound with redbag|intros ?]);
    auto with redbag.
Qed.

Lemma createFileRecursive_sound p : sound (createFileRecursive p).
Proof.
  unfold createFileRecursive. auto using createFileRecursive_body_sound with redbag.
Qed.

Lemma copy_parts_sound f parts : sound (copy_parts f parts).
Proof.
  revert f. induction parts as [|p ps IH]; intros [h|]; simpl; auto with redbag.
  intros s Hs. pose proof (os_write_sound h p s Hs) as [Hw Hk].
  destruct (os_write h p s) as [[h'|e] s'] eqn:E; simpl in *;
    match goal with |- context [copy_parts ?g ps s'] => destruct (IH g s' Hw) as [Hw' Hk'] end;
    (split; [done|by etrans]).
Qed.

#[export] Hint Resolve createFolderIfNotExists_sound mkdir_chdir_all_sound
  createFileRecursive_sound copy_parts_sound : redbag.

(** ** The working directory *)

(** The calls other than [os.Chdir] leave the working directory alone. *)
Definition keeps_cwd {A} (m : St os A) : Prop := forall s, cwd (snd (m s)) = cwd s.

Lemma os_mkdir_keeps_cwd p : keeps_cwd (os_mkdir p).
Proof.
  intros s. unfold os_mkdir. destruct (names_dir p); [by destruct (resolve s p)|].
  destruct (resolve_entry s p) as [[d x]|]; [|done]. by destruct (fsys s !! _).
Qed.

Lemma os_write_keeps_cwd h data : keeps_cwd (os_write h data).
Proof. intros s. unfold os_write. by destruct (fsys s !! h_path h) as [[]|]. Qed.

Lemma os_create_keeps_cwd p : keeps_cwd (os_create p).
Proof.
  intros s. unfold os_create. destruct (names_dir p); [by destruct (resolve s p)|].
  destruct (resolve_entry s p) as [[d x]|]; [|done].
  destruct (fsys s !! _) as [[| |]|]; try done.
  destruct (resolve s p); [|done]. by destruct (fsys s !! _) as [[]|].
Qed.

Lemma createFolderIfNotExists_keeps_cwd folder : keeps_cwd (createFolderIfNotExists folder).
Proof.
  intros s. unfold createFolderIfNotExists. rewrite <- (os_mkdir_keeps_cwd folder s).
  by destruct (os_mkdir folder s) as [[|[]] s'].
Qed.

Lemma copy_parts_keeps_cwd f parts : keeps_cwd (copy_parts f parts).
Proof.
  revert f. induction parts as [|p ps IH]; intros [h|] s; simpl; try done; [|apply IH].
  rewrite <- (os_write_keeps_cwd h p s).
  destruct (os_write h p s) as [[]] eqn:E; apply IH.
Qed.

(** [defer os.Chdir(olddir)] puts the process back in the directory it
    was in when [createFileRecursive] was called, on every path out of
    the function, the error returns included. *)
Lemma createFileRecursive_keeps_cwd p s :
  wf s -> cwd (snd (createFileRecursive p s)) = cwd s.
Proof.
  intros Hs. unfold createFileRecursive, st_bind, os_getwd, st_defer.
  destruct (createFileRecursive_body p s) as [r s1] eqn:E.
  pose proof (createFileRecursive_body_sound p s Hs) as [Hw Hk]. rewrite E in Hw, Hk.
  simpl in *. rewrite os_chdir_render; [done|done|]. apply Hk, Hs.
Qed.

(** ** The elements createFileRecursive walks for a /chroot field *)

(** With [k] leading [".."]s in the cleaned field name, the first one
    cancels the element [chroot]. *)
Lemma path_dirs_chroot_target f k names :
  clean_segments (is_rooted f) (split_slash f) = replicate k ".." ++ names ->
  Forall normal_name names ->
  path_dirs (chroot_target f)
  = or_dot (match k with 0 => "chroot" :: names | S k' => replicate k' ".." ++ names end).
Proof.
  intros Hout Hn. unfold path_dirs, chroot_target.
  assert (Hc : normal_name "chroot") by (vm_compute; repeat split; discriminate).
  destruct (path_join_clean_fixed "chroot" f Hc) as [-> Hr].
  rewrite trim_prefix_unrooted by done. by apply path_join_clean.
Qed.

(** ** Confinement of createFileRecursive *)

Lemma chroot_normal : normal_name "chroot".
Proof. vm_compute. repeat split; discriminate. Qed.

Lemma uploads_normal : normal_name "uploads".
Proof. vm_compute. repeat split; discriminate. Qed.

Lemma os_chdir_fsys p s : fsys (snd (os_chdir p s)) = fsys s.
Proof. unfold os_chdir. destruct (resolve s p); [|done]. by destruct (fsys s !! _) as [[]|]. Qed.

Section Confined.
Context (R : list string) (s0 : os).

Lemma createFolderIfNotExists_confined s x :
    wf s -> confined R s0 s -> normal_name x -> R `prefix_of` cwd s ++ [x] ->
    confined R s0 (snd (createFolderIfNotExists x s)).
  Proof.
    intros Hwf Hc Hx HR. pose proof (os_mkdir_confined R s0 s Hwf Hc x Hx HR) as H.
    unfold createFolderIfNotExists. by destruct (os_mkdir x s) as [[|[]] s'].
  Qed.

Lemma mkdir_chdir_all_confined segs s :
    wf s -> confined R s0 s -> Forall normal_name segs ->
    (forall x, head segs = Some x -> R `prefix_of` cwd s ++ [x]) ->
    confined R s0 (snd (mkdir_chdir_all segs s)) /\
    (fst (mkdir_chdir_all segs s) = Ok tt -> cwd (snd (mkdir_chdir_all segs s)) = cwd s ++ segs).
  Proof.
    revert s. induction segs as [|x segs IH]; intros s Hwf Hc Hn Hhd.
    { simpl. by rewrite app_nil_r. }
    inversion Hn as [|? ? Hx Hsegs]; subst. specialize (Hhd x eq_refl).
    simpl. unfold st_bind.
    pose proof (createFolderIfNotExists_confined s x Hwf Hc Hx Hhd) as Hc1.
    pose proof (createFolderIfNotExists_keeps_cwd x s) as Hcwd1.
    pose proof (createFolderIfNotExists_sound x s Hwf) as [Hw1 _].
    destruct (createFolderIfNotExists x s) as [[[]|e] s1]; simpl in *;
      [|split; [done|intros [=]]].
    rewrite <- Hcwd1 in Hhd.
    destruct (os_chdir_confined R s0 s1 Hc1 x Hx Hhd) as [Hc2 Hcwd2].
    pose proof (os_chdir_sound x s1 Hw1) as [Hw2 _].
    destruct (os_chdir x s1) as [[[]|e] s2]; simpl in *;
      [|split; [done|intros [=]]].
    specialize (Hcwd2 eq_refl).
    destruct (IH s2 Hw2 Hc2 Hsegs) as [Hc3 Hcwd3].
    { intros y _. rewrite Hcwd2. by apply prefix_app_r. }
    split; [done|]. intros Hok. rewrite (Hcwd3 Hok), Hcwd2, Hcwd1. by rewrite <- app_assoc.
  Qed.
End Confined.

Section ConfinedFile.
Context (R : list string) (s0 : os).

Lemma createFileRecursive_body_confined p s :
    wf s -> confined R s0 s -> Forall normal_name (path_dirs p) ->
    R `prefix_of` cwd s ++ take 1 (path_dirs p) ->
    confined R s0 (snd (createFileRecursive_body p s)) /\
    (forall f, fst (createFileRecursive_body p s) = Ok f ->
               f = Some (mkHandle (cwd s ++ path_dirs p) 0)).
  Proof.
    intros Hwf Hc Hn HR. unfold createFileRecursive_body.
    set (dirs := path_dirs p) in *.
    assert (Hne : dirs <> []) by apply split_slash_nonempty.
    pose proof (@app_removelast_last string dirs "" Hne) as Hsplit.
    assert (Hnl : Forall normal_name (removelast dirs) /\ normal_name (List.last dirs ""))
      by (rewrite Hsplit in Hn; apply Forall_app in Hn as [? ?%Forall_inv]; done).
    destruct Hnl as [Hinit Hlast].
    assert (HRd : R `prefix_of` cwd s ++ dirs)
      by (etrans; [exact HR|apply prefix_app, prefix_take]).
    destruct (mkdir_chdir_all_confined R s0 (removelast dirs) s Hwf Hc Hinit) as [Hc1 Hcwd1].
    { intros x Hx. by rewrite <- (head_removelast_take _ _ Hx). }
    pose proof (mkdir_chdir_all_sound (removelast dirs) s Hwf) as [Hw1 _].
    unfold st_bind. destruct (mkdir_chdir_all _ s) as [[[]|e] s1]; simpl in *;
      [|split; [done|intros ? [=]]].
    specialize (Hcwd1 eq_refl).
    rewrite (proj2 (String.eqb_neq _ _) (proj1 Hlast)).
    assert (HR1 : R `prefix_of` cwd s1 ++ [List.last dirs ""])
      by (by rewrite Hcwd1, <- app_assoc, <- Hsplit).
    destruct (os_create_confined R s0 s1 Hw1 Hc1 _ Hlast HR1) as [Hc2 Hh].
    destruct (os_create _ s1) as [[h|e] s2]; simpl in *; [|split; [done|intros ? [=]]].
    split; [done|]. intros f [= <-]. rewrite (Hh h eq_refl), Hcwd1, <- app_assoc, <- Hsplit.
    done.
  Qed.

Lemma createFileRecursive_confined p s :
    wf s -> confined R s0 s -> Forall normal_name (path_dirs p) ->
    R `prefix_of` cwd s ++ take 1 (path_dirs p) ->
    confined R s0 (snd (createFileRecursive p s)) /\
    (forall f, fst (createFileRecursive p s) = Ok f ->
               f = Some (mkHandle (cwd s ++ path_dirs p) 0)).
  Proof.
    intros Hwf Hc Hn HR. unfold createFileRecursive, st_bind, os_getwd, st_defer.
    destruct (createFileRecursive_body_confined p s Hwf Hc Hn HR) as [[Hl Hf] Hh].
    destruct (createFileRecursive_body p s) as [r s1]. simpl in *.
    split; [|done]. split; [by rewrite os_chdir_fsys|]. intros q Hq. by rewrite os_chdir_fsys, Hf.
  Qed.

Lemma copy_parts_confined f parts s :
    confined R s0 s -> (forall h, f = Some h -> R `prefix_of` h_path h) ->
    confined R s0 (snd (copy_parts f parts s)).
  Proof.
    revert f s. induction parts as [|pt ps IH]; intros [h|] s Hc Hf; simpl; try done;
      [|by apply IH].
    specialize (Hf h eq_refl). pose proof (os_write_confined R s0 s h pt Hc Hf) as Hc1.
    pose proof (os_write_path h pt s) as Hp.
    destruct (os_write h pt s) as [[h'|e] s1]; simpl in *; apply IH; try done.
    all: intros g [= <-]; rewrite ?(Hp _ eq_refl); done.
  Qed.
End ConfinedFile.

(** ** The /chroot handler changes nothing outside [chroot] ... *)

Lemma chroot_dirs_contained f :
  leads_up (clean f) = false ->
  exists names, Forall normal_name names /\ path_dirs (chroot_target f) = "chroot" :: names.
Proof.
  intros Hup.
  destruct (clean_segments_form (is_rooted f) (split_slash f) (split_slash_no_slash f))
    as (k & names & Hout & Hn & _).
  rewrite (leads_up_clean f k names Hout Hn) in Hup.
  destruct k as [|k]; [|done].
  exists names. split; [done|]. by rewrite (path_dirs_chroot_target f 0 names Hout Hn).
Qed.


Lemma chroot_files_confined W s0 files s :
  wf s -> cwd s = W -> confined (W ++ ["chroot"]) s0 s ->
  Forall (fun fp => leads_up (clean fp.1) = false) files ->
  confined (W ++ ["chroot"]) s0 (snd (chroot_files files s)).
Proof.
  intros Hwf Hcwd Hc Hfiles. revert s Hwf Hcwd Hc.
  induction Hfiles as [|[f parts] files Hf Hfiles IH]; intros s Hwf Hcwd Hc; [done|].
  simpl in Hf |- *. destruct (chroot_dirs_contained f Hf) as (names & Hn & Hdirs).
  destruct (createFileRecursive_confined (W ++ ["chroot"]) s0 (chroot_target f) s Hwf Hc)
    as [Hc1 Hh].
  { rewrite Hdirs. constructor; [apply chroot_normal|done]. }
  { by rewrite Hdirs, Hcwd. }
  pose proof (createFileRecursive_sound (chroot_target f) s Hwf) as [Hw1 _].
  pose proof (createFileRecursive_keeps_cwd (chroot_target f) s Hwf) as Hcwd1.
  destruct (createFileRecursive _ s) as [[fh|e] s1]; simpl in *; [|done].
  specialize (Hh fh eq_refl).
  pose proof (copy_parts_sound fh parts s1 Hw1) as [Hw2 _].
  apply IH; [done| |].
  - by rewrite copy_parts_keeps_cwd, Hcwd1.
  - apply copy_parts_confined; [done|]. intros h ->. injection Hh as ->. simpl.
    rewrite Hdirs, Hcwd. change ("chroot" :: names) with (["chroot"] ++ names).
    rewrite app_assoc. by apply prefix_app_r.
Qed.

(** ** ... and the /upload handler changes nothing outside [uploads] *)

(** [path.Join("uploads", strings.ReplaceAll(path.Clean(f), "/", "_"))]
    is [uploads] itself, the working directory, or one normal name in
    [uploads]. *)
Lemma upload_target_cases f :
  (clean f = "." /\ upload_target f = "uploads") \/
  (clean f = ".." /\ upload_target f = ".") \/
  (exists n, normal_name n /\ upload_target f = "uploads" +:+ String "/" n).
Proof.
  unfold upload_target.
  destruct (decide (clean f = ".")) as [E|Hdot]; [left; by rewrite E|].
  destruct (decide (clean f = "..")) as [E|Hdd]; [right; left; by rewrite E|].
  right; right. exists (replace_slash (clean f)).
  assert (Hn : normal_name (replace_slash (clean f))).
  { repeat split.
    - intros ?%replace_slash_empty. by apply (clean_nonempty f).
    - by intros ?%replace_slash_dot.
    - by intros ?%replace_slash_dotdot.
    - apply replace_slash_no_slash. }
  split; [done|].
  rewrite path_join_two by (done || apply Hn).
  apply (clean_normal_join ["uploads"; replace_slash (clean f)]); [done|].
  constructor; [apply uploads_normal|by constructor].
Qed.

Lemma os_create_names_dir_err p s : names_dir p = true -> exists e, os_create p s = (Err e, s).
Proof. unfold os_create. intros ->. destruct (resolve s p); eauto. Qed.

Section UploadConfined.
Context (s0 : os).

Lemma upload_create_confined f s :
    wf s -> confined (cwd s ++ ["uploads"]) s0 s ->
    confined (cwd s ++ ["uploads"]) s0 (snd (os_create (upload_target f) s)) /\
    (forall h, fst (os_create (upload_target f) s) = Ok h ->
               cwd s ++ ["uploads"] `prefix_of` h_path h).
  Proof.
    intros Hwf Hc.
    destruct (upload_target_cases f) as [[_ ->]|[[_ ->]|(n & Hn & ->)]].
    - destruct (os_create_path_confined (cwd s ++ ["uploads"]) s0 s Hc "uploads")
        as [Hc1 Hh]; [done|by repeat constructor; apply uploads_normal|done|].
      split; [done|]. intros h Heq. by rewrite (Hh h Heq).
    - destruct (os_create_names_dir_err "." s) as [e ->]; [done|]. by split.
    - assert (Hsp : split_slash ("uploads" +:+ String "/" n) = ["uploads"; n])
        by (rewrite split_slash_app, (split_slash_single n); [done|apply Hn]).
      destruct (os_create_path_confined (cwd s ++ ["uploads"]) s0 s Hc
                  ("uploads" +:+ String "/" n)) as [Hc1 Hh].
      + apply normal_join_unrooted, uploads_normal.
      + rewrite Hsp. constructor; [apply uploads_normal|by constructor].
      + by rewrite Hsp.
      + split; [done|]. intros h Heq. rewrite (Hh h Heq), Hsp. simpl.
        change ["uploads"; n] with (["uploads"] ++ [n]). rewrite app_assoc.
        by apply prefix_app_r.
  Qed.

Lemma upload_files_confined W files s :
    wf s -> cwd s = W -> confined (W ++ ["uploads"]) s0 s ->
    confined (W ++ ["uploads"]) s0 (snd (upload_files files s)).
  Proof.
    revert s. induction files as [|[f parts] files IH]; intros s Hwf Hcwd Hc; [done|].
    simpl. subst W. destruct (upload_create_confined f s Hwf Hc) as [Hc1 Hh].
    pose proof (os_create_sound (upload_target f) s Hwf) as [Hw1 _].
    pose proof (os_create_keeps_cwd (upload_target f) s) as Hcwd1.
    destruct (os_create _ s) as [[h|e] s1]; simpl in *; [|done].
    pose proof (copy_parts_sound (Some h) parts s1 Hw1) as [Hw2 _].
    apply IH; [done|by rewrite copy_parts_keeps_cwd|].
    apply copy_parts_confined; [done|]. intros ? [= <-]. by apply Hh.
  Qed.
End UploadConfined.

(** The loops over the fields keep the machine well formed and never
    remove a directory. *)
Lemma chroot_files_sound files s :
  wf s -> wf (snd (chroot_files files s)) /\ dirs_kept s (snd (chroot_files files s)).
Proof.
  revert s. induction files as [|[f parts] files IH]; intros s1 Hs1; simpl; [split; [done|reflexivity]|].
  pose proof (createFileRecursive_sound (chroot_target f) s1 Hs1) as [Hw2 Hk2].
  destruct (createFileRecursive _ s1) as [[fh|e] s2]; simpl in *; [|done].
  pose proof (copy_parts_sound fh parts s2 Hw2) as [Hw3 Hk3].
  destruct (IH _ Hw3) as [Hw4 Hk4].
  split; [done|etrans; [exact Hk2|etrans; [exact Hk3|exact Hk4]]].
Qed.

Lemma upload_files_sound files s :
  wf s -> wf (snd (upload_files files s)) /\ dirs_kept s (snd (upload_files files s)).
Proof.
  revert s. induction files as [|[f parts] files IH]; intros s1 Hs1; simpl; [split; [done|reflexivity]|].
  pose proof (os_create_sound (upload_target f) s1 Hs1) as [Hw2 Hk2].
  destruct (os_create _ s1) as [[h|e] s2]; simpl in *; [|done].
  pose proof (copy_parts_sound (Some h) parts s2 Hw2) as [Hw3 Hk3].
  destruct (IH _ Hw3) as [Hw4 Hk4].
  split; [done|etrans; [exact Hk2|etrans; [exact Hk3|exact Hk4]]].
Qed.

(** ** Handler theorems *)

(** C5: after [createFileRecursive] returns, by success or by error, the
    process is back in the working directory it was called in: the
    [defer os.Chdir(olddir)] restores what the loop of [os.Chdir] calls
    changed. *)
Theorem createFileRecursive_restores_cwd p s :
  wf s -> cwd (snd (createFileRecursive p s)) = cwd s.
Proof. apply createFileRecursive_keeps_cwd. Qed.

(** C1: if no field name of the form leads up once cleaned, and no
    symbolic link lies under [chroot], a /chroot request changes no entry
    of the file system outside [chroot]. *)
Theorem chrootHandler_confined req s files :
  wf s -> req_form req = Some files ->
  no_links_under (fsys s) (cwd s ++ ["chroot"]) ->
  Forall (fun fp => leads_up (clean fp.1) = false) files ->
  frame (cwd s ++ ["chroot"]) (fsys s) (fsys (snd (chrootHandler req s))).
Proof.
  intros Hwf Hform Hnl Hup. unfold chrootHandler. rewrite Hform.
  destruct (req_method req); try done.
  pose proof (createFolderIfNotExists_confined (cwd s ++ ["chroot"]) s s "chroot" Hwf
                (confined_refl _ _ Hnl) chroot_normal ltac:(done)) as Hc1.
  pose proof (createFolderIfNotExists_sound "chroot" s Hwf) as [Hw1 _].
  pose proof (createFolderIfNotExists_keeps_cwd "chroot" s) as Hcwd1.
  destruct (createFolderIfNotExists "chroot" s) as [[] s1] eqn:E; simpl in *; [|apply Hc1].
  by apply (chroot_files_confined (cwd s) s files s1).
Qed.

(** C3: if no symbolic link lies under [uploads], an /upload request
    changes no entry of the file system outside [uploads], whatever the
    field names. *)
Theorem uploadHandler_confined req s :
  wf s -> no_links_under (fsys s) (cwd s ++ ["uploads"]) ->
  frame (cwd s ++ ["uploads"]) (fsys s) (fsys (snd (uploadHandler req s))).
Proof.
  intros Hwf Hnl. unfold uploadHandler.
  destruct (req_method req); try done. destruct (req_form req) as [files|]; [|done].
  pose proof (createFolderIfNotExists_confined (cwd s ++ ["uploads"]) s s "uploads" Hwf
                (confined_refl _ _ Hnl) uploads_normal ltac:(done)) as Hc1.
  pose proof (createFolderIfNotExists_sound "uploads" s Hwf) as [Hw1 _].
  pose proof (createFolderIfNotExists_keeps_cwd "uploads" s) as Hcwd1.
  destruct (createFolderIfNotExists "uploads" s) as [[] s1] eqn:E; simpl in *; [|apply Hc1].
  by apply (upload_files_confined s (cwd s) files s1).
Qed.

(** C6: [createFolderIfNotExists] is idempotent: once a call has
    succeeded, calling it again with the same name succeeds and changes
    nothing. *)
Theorem createFolderIfNotExists_idempotent x s :
  fst (createFolderIfNotExists x s) = Ok tt ->
  createFolderIfNotExists x (snd (createFolderIfNotExists x s))
  = (Ok tt, snd (createFolderIfNotExists x s)).
Proof.
  destruct (os_mkdir_cases x s) as [E|[(e & He & E)|(d & y & Hent & Hnone & Hnd & E)]].
  - assert (C : createFolderIfNotExists x s = (Ok tt, s))
      by (unfold createFolderIfNotExists; by rewrite E).
    rewrite C. by intros _.
  - unfold createFolderIfNotExists. rewrite E. destruct e; simpl; [done|intros [=]..].
  - assert (C : createFolderIfNotExists x s = (Ok tt, set_fsys <[d ++ [y] := Dir]> s))
      by (unfold createFolderIfNotExists; by rewrite E).
    rewrite C. intros _. simpl. unfold createFolderIfNotExists, os_mkdir. rewrite Hnd.
    rewrite (resolve_entry_insert_fresh s x d y (d ++ [y]) Dir Hent Hnone).
    + simpl. by rewrite lookup_insert_eq.
    + intros Hc. apply (f_equal List.length) in Hc. rewrite length_app in Hc. simpl in Hc. lia.
Qed.

(** C7: the directory-only branch of [createFileRecursive] ([return nil,
    nil] when the path ends in a separator) is never taken by /chroot:
    [path.Clean] drops a trailing separator before [createFileRecursive]
    splits the path, so every field, [foo/] included, names a file. *)
Theorem chroot_never_directory_only f :
  List.last (path_dirs (chroot_target f)) "" <> "".
Proof.
  destruct (clean_segments_form (is_rooted f) (split_slash f) (split_slash_no_slash f))
    as (k & names & Hout & Hn & _).
  rewrite (path_dirs_chroot_target f k names Hout Hn).
  assert (Hne : forall l, Forall (fun x => x <> "") l -> Forall (fun x => x <> "") (or_dot l))
    by (intros [|? ?] ?; [by repeat constructor|done]).
  assert (Hnames : Forall (fun x => x <> "") names)
    by (eapply Forall_impl; [exact Hn|by intros ? [? _]]).
  apply (Forall_last (fun x => x <> "")); [apply Hne|apply or_dot_nonempty].
  destruct k as [|k]; [by constructor|].
  apply Forall_app. split; [by apply Forall_replicate|done].
Qed.

(** ** Witnesses

    A server started in [/srv] with an empty tree, and requests on it. *)
Definition example_server : os := mkOS {[ [] := Dir; ["srv"] := Dir ]} ["srv"].

Definition example_parts : list part := [list_byte_of_string "ab"; list_byte_of_string "cd"].

Definition example_chroot_request : request :=
  mkRequest MethodPost (Some [("a/b.txt", example_parts); ("/etc/passwd", example_parts)]).

Definition example_upload_request : request :=
  mkRequest MethodPost (Some [("../a/b", example_parts); ("..", example_parts)]).

Lemma chrootHandler_confined_witness :
  frame (cwd example_server ++ ["chroot"]) (fsys example_server)
        (fsys (snd (chrootHandler example_chroot_request example_server))).
Proof.
  apply (chrootHandler_confined example_chroot_request example_server
           [("a/b.txt", example_parts); ("/etc/passwd", example_parts)]).
  - apply wf_by_check. vm_compute. reflexivity.
  - reflexivity.
  - apply no_links_by_check. vm_compute. reflexivity.
  - repeat constructor.
Defined.

Lemma uploadHandler_confined_witness :
  frame (cwd example_server ++ ["uploads"]) (fsys example_server)
        (fsys (snd (uploadHandler example_upload_request example_server))).
Proof.
  apply (uploadHandler_confined example_upload_request example_server).
  - apply wf_by_check. vm_compute. reflexivity.
  - apply no_links_by_check. vm_compute. reflexivity.
Defined.

Lemma createFileRecursive_restores_cwd_witness :
  cwd (snd (createFileRecursive "chroot/a/b.txt" example_server)) = ["srv"].
Proof.
  apply (createFileRecursive_restores_cwd "chroot/a/b.txt" example_server).
  apply wf_by_check. vm_compute. reflexivity.
Defined.

Lemma createFolderIfNotExists_idempotent_witness :
  createFolderIfNotExists "chroot" (snd (createFolderIfNotExists "chroot" example_server))
  = (Ok tt, snd (createFolderIfNotExists "chroot" example_server)).
Proof.
  apply (createFolderIfNotExists_idempotent "chroot" example_server).
  vm_compute. reflexivity.
Defined.
