(* ===== verification/UploadSpec.v ===== *)
(** * UploadSpec: what the handlers of [src/main.go] write

    Functional behaviour of [createFileRecursive] and of the part loop,
    and from them the two facts about /chroot that matter most: the parts
    of a field end up concatenated in order in one file, and a field name
    that leads up once cleaned puts that file outside [chroot]. *)

From stdpp Require Import base list gmap strings.
From Stdlib Require Import Ascii String.
From S2P Require Import Prelude GoPath OsFs Confinement Upload.

Local Open Scope string_scope.
Local Open Scope list_scope.

(** ** The part loop appends the parts in order *)

Lemma splice_end c data : splice (List.length c) data c = c ++ data.
Proof.
  unfold splice. rewrite take_ge, Nat.sub_diag, drop_ge by (rewrite ?length_app; lia).
  by rewrite app_nil_r.
Qed.

Lemma set_fsys_id s : set_fsys id s = s.
Proof. by destruct s. Qed.

Lemma set_fsys_insert_insert s q n n' :
  set_fsys <[q := n']> (set_fsys <[q := n]> s) = set_fsys <[q := n']> s.
Proof. unfold set_fsys. simpl. by rewrite insert_insert_eq. Qed.

(** Writing the parts through a handle at the end of file [q] appends
    their concatenation, in the order of the list. *)
Lemma copy_parts_concat q parts c s :
  fsys s !! q = Some (File c) ->
  copy_parts (Some (mkHandle q (List.length c))) parts s
  = (Ok tt, set_fsys <[q := File (c ++ List.concat parts)]> s).
Proof.
  revert c s. induction parts as [|pt ps IH]; intros c s Hq; simpl.
  - unfold set_fsys. rewrite app_nil_r, insert_id by done. by destruct s.
  - unfold os_write at 1. simpl. rewrite Hq, splice_end.
    rewrite <- length_app, IH by (simpl; by rewrite lookup_insert_eq).
    by rewrite set_fsys_insert_insert, <- app_assoc.
Qed.

(** ** Walking the directories *)

(** The elements [createFileRecursive] may meet: [..] and normal names. *)
Definition seg_ok (x : string) : Prop := x = ".." \/ normal_name x.

(** The tree and working directory after [mkdir_chdir_all segs]. *)
Fixpoint walk_dirs (m : gmap (list string) node) (d : list string) (segs : list string)
    : gmap (list string) node * list string :=
  match segs with
  | [] => (m, d)
  | x :: r =>
      if String.eqb x ".." then walk_dirs m (parent d) r
      else walk_dirs (<[d ++ [x] := Dir]> m) (d ++ [x]) r
  end.

(** The walk meets no regular file and no symbolic link, and the file
    [x] at its end is absent or a regular file. *)
Fixpoint clear_path (m : gmap (list string) node) (d : list string) (segs : list string)
    (x : string) : bool :=
  match segs with
  | [] => match m !! (d ++ [x]) with None | Some (File _) => true | _ => false end
  | y :: r =>
      if String.eqb y ".." then clear_path m (parent d) r x
      else match m !! (d ++ [y]) with
           | None | Some Dir => clear_path (<[d ++ [y] := Dir]> m) (d ++ [y]) r x
           | _ => false
           end
  end.

Lemma names_dir_dotdot : names_dir ".." = true.
Proof. reflexivity. Qed.

Lemma resolve_dotdot s : resolve s ".." = Ok (parent (cwd s)).
Proof.
  unfold resolve, start. change (split_slash "..") with [".."].
  change (is_rooted "..") with false. cbn iota.
  rewrite resolve_from_cons. cbn [is_dot String.eqb orb]. by rewrite resolve_from_nil.
Qed.

Lemma createFolderIfNotExists_dotdot s :
  wf s -> createFolderIfNotExists ".." s = (Ok tt, s).
Proof.
  intros Hwf. unfold createFolderIfNotExists, os_mkdir. rewrite names_dir_dotdot.
  by rewrite resolve_dotdot.
Qed.

Lemma os_chdir_dotdot s :
  wf s -> os_chdir ".." s = (Ok tt, mkOS (fsys s) (parent (cwd s))).
Proof.
  intros Hwf. unfold os_chdir. rewrite resolve_dotdot.
  by rewrite (parent_dir s Hwf _ (wf_cwd s Hwf)).
Qed.

Lemma createFolderIfNotExists_name s x :
  wf s -> normal_name x ->
  fsys s !! (cwd s ++ [x]) = None \/ fsys s !! (cwd s ++ [x]) = Some Dir ->
  createFolderIfNotExists x s = (Ok tt, set_fsys <[cwd s ++ [x] := Dir]> s).
Proof.
  intros Hwf Hx Hk. unfold createFolderIfNotExists. rewrite os_mkdir_name by done.
  destruct Hk as [-> | E]; [done|]. unfold set_fsys. rewrite E, insert_id by done. by destruct s.
Qed.

Lemma mkdir_chdir_all_spec segs x s :
  wf s -> Forall seg_ok segs -> clear_path (fsys s) (cwd s) segs x = true ->
  mkdir_chdir_all segs s
  = (Ok tt, mkOS (walk_dirs (fsys s) (cwd s) segs).1 (walk_dirs (fsys s) (cwd s) segs).2).
Proof.
  revert s. induction segs as [|y r IH]; intros s Hwf Hok Hclear.
  { by destruct s. }
  inversion Hok as [|? ? Hy Hr]; subst. simpl in Hclear |- *. unfold st_bind.
  destruct (String.eqb_spec y "..") as [->|Hne].
  - rewrite createFolderIfNotExists_dotdot, os_chdir_dotdot by done.
    apply IH; [|done|done].
    eapply sound_wf_eq; [apply os_chdir_sound|exact Hwf|by apply os_chdir_dotdot].
  - destruct Hy as [?|Hy]; [done|].
    assert (Hk : fsys s !! (cwd s ++ [y]) = None \/ fsys s !! (cwd s ++ [y]) = Some Dir)
      by (destruct (fsys s !! (cwd s ++ [y])) as [[| |]|]; auto; discriminate).
    assert (Hclear' : clear_path (<[cwd s ++ [y] := Dir]> (fsys s)) (cwd s ++ [y]) r x = true)
      by (destruct Hk as [E|E]; by rewrite E in Hclear).
    rewrite createFolderIfNotExists_name by done.
    set (s1 := set_fsys <[cwd s ++ [y] := Dir]> s).
    assert (Hw1 : wf s1)
      by (eapply sound_wf_eq; [apply createFolderIfNotExists_sound|exact Hwf|
                               by apply createFolderIfNotExists_name]).
    rewrite (os_chdir_name s1 y Hy) by (intros t; simpl; by rewrite lookup_insert_eq).
    simpl. rewrite lookup_insert_eq. apply IH; [|done|done].
    eapply sound_wf_eq; [apply os_chdir_sound|exact Hw1|].
    rewrite (os_chdir_name s1 y Hy) by (intros t; simpl; by rewrite lookup_insert_eq).
    simpl. by rewrite lookup_insert_eq.
Qed.

Lemma clear_path_end m d segs x :
  clear_path m d segs x = true ->
  match (walk_dirs m d segs).1 !! ((walk_dirs m d segs).2 ++ [x]) with
  | None | Some (File _) => True
  | _ => False
  end.
Proof.
  revert m d. induction segs as [|y r IH]; intros m d; simpl.
  - by destruct (m !! (d ++ [x])) as [[]|].
  - destruct (String.eqb y ".."); [apply IH|].
    destruct (m !! (d ++ [y])) as [[]|]; try done; apply IH.
Qed.

Lemma sound_kept_eq {A} (m : St os A) s r s' :
  sound m -> wf s -> m s = (r, s') -> dirs_kept s s'.
Proof. intros Hm Hs E. pose proof (Hm s Hs) as [_ H]. by rewrite E in H. Qed.

Section CreateFile.
Context (p : string) (s : os) (Hwf : wf s).
Let dirs := path_dirs p.
Let w := walk_dirs (fsys s) (cwd s) (removelast dirs).
Let target := w.2 ++ [List.last dirs ""].
Context (Hok : Forall seg_ok (removelast dirs)) (Hlast : normal_name (List.last dirs ""))
          (Hclear : clear_path (fsys s) (cwd s) (removelast dirs) (List.last dirs "") = true).

Lemma createFileRecursive_body_spec :
    createFileRecursive_body p s
    = (Ok (Some (mkHandle target 0)), mkOS (<[target := File []]> w.1) w.2).
  Proof.
    unfold createFileRecursive_body, st_bind. fold dirs.
    rewrite (mkdir_chdir_all_spec _ (List.last dirs "")) by done. fold w.
    rewrite (proj2 (String.eqb_neq _ _) (proj1 Hlast)).
    set (s1 := mkOS w.1 w.2).
    assert (Hw1 : wf s1)
      by (eapply sound_wf_eq; [apply mkdir_chdir_all_sound|exact Hwf|
                               by apply (mkdir_chdir_all_spec _ (List.last dirs ""))]).
    pose proof (clear_path_end _ _ _ _ Hclear) as Hend. fold w in Hend.
    rewrite (os_create_name s1 Hw1 _ Hlast) by (intros t; simpl; intros E; by rewrite E in Hend).
    simpl. destruct (w.1 !! (w.2 ++ [List.last dirs ""])) as [[]|]; done.
  Qed.

Lemma createFileRecursive_spec :
    createFileRecursive p s
    = (Ok (Some (mkHandle target 0)), mkOS (<[target := File []]> w.1) (cwd s)).
  Proof.
    unfold createFileRecursive, st_bind, os_getwd, st_defer.
    rewrite createFileRecursive_body_spec. simpl.
    pose proof (sound_wf_eq _ _ _ _ (createFileRecursive_body_sound p) Hwf
                  createFileRecursive_body_spec) as Hw2.
    pose proof (sound_kept_eq _ _ _ _ (createFileRecursive_body_sound p) Hwf
                  createFileRecursive_body_spec) as Hk2.
    rewrite os_chdir_render by (done || apply Hk2, (wf_cwd s Hwf)). done.
  Qed.
End CreateFile.

Lemma walk_dirs_names m d names :
  Forall normal_name names -> (walk_dirs m d names).2 = d ++ names.
Proof.
  intros Hn. revert m d. induction Hn as [|y r Hy Hr IH]; intros m d; simpl.
  - by rewrite app_nil_r.
  - destruct (normal_name_not_dot y Hy) as [_ ->]. rewrite IH. by rewrite <- app_assoc.
Qed.

Lemma normal_seg_ok l : Forall normal_name l -> Forall seg_ok l.
Proof. intros H. eapply Forall_impl; [exact H|]. by right. Qed.

#[export] Hint Resolve normal_seg_ok Forall_removelast : redbag.

(** One /chroot field whose path is clear: the file is created, the parts
    are written into it in order, and the working directory is back. *)
Lemma chroot_files_single s f parts dirs :
  path_dirs (chroot_target f) = dirs -> wf s ->
  Forall seg_ok (removelast dirs) -> normal_name (List.last dirs "") ->
  clear_path (fsys s) (cwd s) (removelast dirs) (List.last dirs "") = true ->
  chroot_files [(f, parts)] s
  = (mkResponse StatusOK "Received file(s) successfully.",
     mkOS (<[(walk_dirs (fsys s) (cwd s) (removelast dirs)).2 ++ [List.last dirs ""]
             := File (List.concat parts)]> (walk_dirs (fsys s) (cwd s) (removelast dirs)).1)
          (cwd s)).
Proof.
  intros <- Hwf Hok Hlast Hclear. simpl.
  rewrite createFileRecursive_spec by done. simpl.
  rewrite (copy_parts_concat _ parts []) by (simpl; by rewrite lookup_insert_eq).
  unfold set_fsys. simpl. by rewrite insert_insert_eq.
Qed.

Lemma clear_path_chroot_again m d names x :
  clear_path m d ("chroot" :: names) x = true ->
  clear_path (<[d ++ ["chroot"] := Dir]> m) d ("chroot" :: names) x = true.
Proof.
  simpl. rewrite lookup_insert_eq, insert_insert_eq.
  by destruct (m !! (d ++ ["chroot"])) as [[]|].
Qed.

(** ** Theorems *)

(** C4: a /chroot field whose cleaned name is the normal names [names]
    (no leading [..]), on a path with no regular file or link in the way,
    produces the file [chroot/names] holding the concatenation of the
    field's parts in the order the request lists them, and the response
    reports success. *)
Theorem chrootHandler_concat s f parts names :
  wf s ->
  clean_segments (is_rooted f) (split_slash f) = names -> names <> [] ->
  Forall normal_name names ->
  clear_path (fsys s) (cwd s) ("chroot" :: removelast names) (List.last names "") = true ->
  let '(r, s') := chrootHandler (mkRequest MethodPost (Some [(f, parts)])) s in
  r = mkResponse StatusOK "Received file(s) successfully." /\
  fsys s' !! (cwd s ++ "chroot" :: names) = Some (File (List.concat parts)).
Proof.
  intros Hwf Hout Hne Hn Hclear.
  assert (Hdirs : path_dirs (chroot_target f) = "chroot" :: names).
  { rewrite (path_dirs_chroot_target f 0 names) by (done || by rewrite Hout).
    by destruct names. }
  destruct names as [|n ns]; [done|]. clear Hne.
  assert (Hk : fsys s !! (cwd s ++ ["chroot"]) = None \/
               fsys s !! (cwd s ++ ["chroot"]) = Some Dir)
    by (simpl in Hclear; destruct (fsys s !! _) as [[]|]; auto; discriminate).
  unfold chrootHandler. cbn [req_method req_form].
  rewrite createFolderIfNotExists_name by (done || apply chroot_normal).
  set (s1 := set_fsys <[cwd s ++ ["chroot"] := Dir]> s).
  assert (Hw1 : wf s1)
    by (eapply sound_wf_eq; [apply createFolderIfNotExists_sound|exact Hwf|
                             apply createFolderIfNotExists_name; auto using chroot_normal]).
  assert (Hclear1 : clear_path (fsys s1) (cwd s1) ("chroot" :: removelast (n :: ns))
                      (List.last (n :: ns) "") = true) by (by apply clear_path_chroot_again).
  assert (Hrl : Forall normal_name (removelast (n :: ns))) by auto with redbag.
  rewrite (chroot_files_single s1 f parts ("chroot" :: n :: ns) Hdirs Hw1);
    [|constructor; [right; apply chroot_normal|auto with redbag]
     |apply (Forall_last _ _ _ Hn); done|exact Hclear1].
  split; [done|].
  change (removelast ("chroot" :: n :: ns)) with ("chroot" :: removelast (n :: ns)).
  rewrite walk_dirs_names by (constructor; [apply chroot_normal|exact Hrl]).
  change (List.last ("chroot" :: n :: ns) "") with (List.last (n :: ns) "").
  cbn [fsys cwd]. change (cwd s1) with (cwd s).
  replace ((cwd s ++ "chroot" :: removelast (n :: ns)) ++ [List.last (n :: ns) ""])
    with (cwd s ++ "chroot" :: n :: ns); [by rewrite lookup_insert_eq|].
  rewrite <- app_assoc. simpl. f_equal. f_equal.
  exact (@app_removelast_last string (n :: ns) "" ltac:(done)).
Qed.


Lemma set_fsys_insert_id s q n : fsys s !! q = Some n -> set_fsys <[q := n]> s = s.
Proof. intros Hq. unfold set_fsys. rewrite insert_id by done. by destruct s. Qed.

Lemma names_target m d names :
  names <> [] -> Forall normal_name names ->
  (walk_dirs m d (removelast names)).2 ++ [List.last names ""] = d ++ names.
Proof.
  intros Hne Hn. rewrite walk_dirs_names by auto with redbag.
  rewrite <- app_assoc. f_equal. symmetry. by apply app_removelast_last.
Qed.

(** C2: the /chroot handler does not keep files inside [chroot].  A
    field whose cleaned name is [../names] (for instance
    [a/../../x], or [../x]) makes the handler write the field's parts
    into [names] relative to the server's working directory, outside
    [chroot] unless [names] itself starts with [chroot]; the response
    still reports success. *)
Theorem chrootHandler_escapes s f parts names :
  wf s -> fsys s !! (cwd s ++ ["chroot"]) = Some Dir ->
  clean_segments (is_rooted f) (split_slash f) = ".." :: names ->
  names <> [] -> Forall normal_name names -> head names <> Some "chroot" ->
  clear_path (fsys s) (cwd s) (removelast names) (List.last names "") = true ->
  let '(r, s') := chrootHandler (mkRequest MethodPost (Some [(f, parts)])) s in
  r = mkResponse StatusOK "Received file(s) successfully." /\
  fsys s' !! (cwd s ++ names) = Some (File (List.concat parts)) /\
  ~ (cwd s ++ ["chroot"]) `prefix_of` (cwd s ++ names).
Proof.
  intros Hwf Hchroot Hout Hne Hn Hhead Hclear.
  assert (Hdirs : path_dirs (chroot_target f) = names).
  { rewrite (path_dirs_chroot_target f 1 names) by (done || by rewrite Hout).
    by destruct names. }
  unfold chrootHandler. cbn [req_method req_form].
  rewrite createFolderIfNotExists_name by (auto || apply chroot_normal).
  rewrite set_fsys_insert_id by done.
  rewrite (chroot_files_single s f parts names Hdirs Hwf);
    [|auto with redbag|by apply Forall_last|done].
  cbn [fsys]. rewrite names_target, lookup_insert_eq by done.
  split; [done|split; [done|]].
  intros Hp%prefix_app_inv. destruct Hp as [k Hk]. by rewrite Hk in Hhead.
Qed.



(** ** Witnesses *)

(** The server of [Upload.example_server] once [chroot] exists. *)
Definition example_server_with_chroot : os :=
  mkOS {[ [] := Dir; ["srv"] := Dir; ["srv"; "chroot"] := Dir ]} ["srv"].

Lemma chrootHandler_escapes_witness :
  let '(r, s') := chrootHandler (mkRequest MethodPost (Some [("../x", example_parts)]))
                    example_server_with_chroot in
  r = mkResponse StatusOK "Received file(s) successfully." /\
  fsys s' !! (["srv"] ++ ["x"]) = Some (File (List.concat example_parts)) /\
  ~ (["srv"] ++ ["chroot"]) `prefix_of` (["srv"] ++ ["x"]).
Proof.
  apply (chrootHandler_escapes example_server_with_chroot "../x" example_parts ["x"]).
  - apply wf_by_check. vm_compute. reflexivity.
  - reflexivity.
  - vm_compute. reflexivity.
  - discriminate.
  - apply normal_names_by_check. vm_compute. reflexivity.
  - discriminate.
  - vm_compute. reflexivity.
Defined.

Lemma chrootHandler_concat_witness :
  let '(r, s') := chrootHandler (mkRequest MethodPost (Some [("a/b.txt", example_parts)]))
                    example_server in
  r = mkResponse StatusOK "Received file(s) successfully." /\
  fsys s' !! (["srv"] ++ ["chroot"; "a"; "b.txt"]) = Some (File (List.concat example_parts)).
Proof.
  apply (chrootHandler_concat example_server "a/b.txt" example_parts ["a"; "b.txt"]).
  - apply wf_by_check. vm_compute. reflexivity.
  - vm_compute. reflexivity.
  - discriminate.
  - apply normal_names_by_check. vm_compute. reflexivity.
  - vm_compute. reflexivity.
Defined.
