(* ===== verification/OsRead.v ===== *)
(** * OsRead: the calls that read the file tree

    The kit exporter of [src/cmd/redkit/main.go] only reads the disk:
    [os.Open], [os.ReadDir] and [os.Stat] (through [os.DirFS] and
    [fs.WalkDir]), [os.Readlink], and the methods [Stat], [Chdir] and
    [Read] (through [io.Copy]) of an open [*os.File]; the [FileSystem] of
    [src/pkg/chroot] holds an [os.DirFS] whose methods call [os.Open],
    [os.ReadDir] and [os.ReadFile].  This file models these calls on the
    tree of [OsFs], [os.DirFS] with the [fs.ValidPath] check of its
    [join], and the bits of [fs.FileMode] the code tests, and proves that
    none of them but [File.Chdir] changes the state. *)

From stdpp Require Import base list gmap strings sorting.
From Stdlib Require Import Ascii String ZArith.
From S2P Require Import Prelude GoPath OsFs.

Local Open Scope string_scope.
Local Open Scope list_scope.
Local Open Scope go_scope.

(** ** File modes

    [fs.FileMode] is a [uint32]; the type bits sit at the top
    ([ModeDir = 1 << 31], ..., [ModeSymlink = 1 << 27]) and the
    permission bits at the bottom.  The model has no permissions, so a
    stat reports the usual [0755] for directories, [0644] for files and
    [0777] for links. *)
Definition ModeDir : Z := Z.shiftl 1 31.
Definition ModeSymlink : Z := Z.shiftl 1 27.

Record file_info := mkInfo {
  fi_size : Z;
  fi_mode : Z
}.

(** [FileMode.IsDir]: [m&ModeDir != 0]. *)
Definition fi_is_dir (fi : file_info) : bool :=
  negb (Z.eqb (Z.land (fi_mode fi) ModeDir) 0).

(** What [stat(2)] reports for a node.  The size of a directory is
    system-dependent; 4096 is what ext4 reports. *)
Definition node_info (n : node) : file_info :=
  match n with
  | Dir => mkInfo 4096 (Z.lor ModeDir 493)
  | File c => mkInfo (Z.of_nat (List.length c)) 420
  | Symlink t => mkInfo (Z.of_nat (String.length t)) (Z.lor ModeSymlink 511)
  end.

(** ** Open files

    A Go [*os.File] remembers the name it was opened with
    ([File.Name]) besides the open file description. *)
Record go_file := mkFile {
  f_name : string;
  f_handle : handle
}.

(** [os.Open(p)]. *)
Definition os_Open (p : string) : St os go_file :=
  h <- os_open p ;; st_ret (mkFile p h).

(** [f.Stat()]: [fstat(2)] on the open description. *)
Definition file_Stat (f : go_file) : St os file_info := fun s =>
  match fsys s !! h_path (f_handle f) with
  | Some n => (Ok (node_info n), s)
  | None => (Err ErrNotExist, s)
  end.

(** [f.Chdir()]: [fchdir(2)]. *)
Definition file_Chdir (f : go_file) : St os unit := fun s =>
  match fsys s !! h_path (f_handle f) with
  | Some Dir => (Ok tt, mkOS (fsys s) (h_path (f_handle f)))
  | Some _ => (Err ErrNotDir, s)
  | None => (Err ErrNotExist, s)
  end.

(** Reading an open file to its end, as [io.Copy(dst, f)] does: the
    bytes from the offset on; [read(2)] on a directory fails with
    [EISDIR]. *)
Definition file_read_all (f : go_file) : St os (list Byte.byte) := fun s =>
  match fsys s !! h_path (f_handle f) with
  | Some (File c) => (Ok (drop (h_off (f_handle f)) c), s)
  | Some Dir => (Err ErrIsDir, s)
  | _ => (Err ErrInvalid, s)
  end.

(** [os.Stat(p)]: follows every link. *)
Definition os_Stat (p : string) : St os file_info := fun s =>
  match resolve s p with
  | Err e => (Err e, s)
  | Ok q =>
      match fsys s !! q with
      | Some n => (Ok (node_info n), s)
      | None => (Err ErrNotExist, s)
      end
  end.

(** [os.Readlink(p)]: the last element is not followed; a name that is
    not a link gives [EINVAL]. *)
Definition os_readlink (p : string) : St os string := fun s =>
  if names_dir p then
    match resolve s p with
    | Ok _ => (Err ErrInvalid, s)
    | Err e => (Err e, s)
    end
  else match resolve_entry s p with
       | Err e => (Err e, s)
       | Ok (d, x) =>
           match fsys s !! (d ++ [x]) with
           | Some (Symlink t) => (Ok t, s)
           | Some _ => (Err ErrInvalid, s)
           | None => (Err ErrNotExist, s)
           end
       end.

(** [os.Lstat(p)]: like [os.Stat], but a link in the last position is
    described, not followed. *)
Definition os_Lstat (p : string) : St os file_info := fun s =>
  if names_dir p then os_Stat p s
  else match resolve_entry s p with
       | Err e => (Err e, s)
       | Ok (d, x) =>
           match fsys s !! (d ++ [x]) with
           | Some n => (Ok (node_info n), s)
           | None => (Err ErrNotExist, s)
           end
       end.

(** ** Directory listings

    [os.ReadDir] lists the entries of a directory sorted by name (Go sorts
    with [strings.Compare], byte order, which is the order of
    [String.le]); each [fs.DirEntry] knows the type of the entry itself,
    not of what a link points to. *)
Record dir_entry := mkEntry {
  de_name : string;
  de_is_dir : bool
}.

(** The name of [k] in directory [q] when [k] is an entry of [q]. *)
Definition child_of (q k : list string) : option string :=
  match drop (List.length q) k with
  | [x] => if decide (take (List.length q) k = q) then Some x else None
  | _ => None
  end.

Definition child_names (m : gmap (list string) node) (q : list string) : list string :=
  omap (fun kn => child_of q kn.1) (map_to_list m).

Definition entry_of (m : gmap (list string) node) (q : list string) (x : string) : dir_entry :=
  mkEntry x (bool_decide (m !! (q ++ [x]) = Some Dir)).

Definition read_dir_at (m : gmap (list string) node) (q : list string) : list dir_entry :=
  map (entry_of m q) (merge_sort String.le (child_names m q)).

(** [os.ReadDir(p)]. *)
Definition os_ReadDir (p : string) : St os (list dir_entry) := fun s =>
  match resolve s p with
  | Err e => (Err e, s)
  | Ok q =>
      match fsys s !! q with
      | Some Dir => (Ok (read_dir_at (fsys s) q), s)
      | _ => (Err ErrNotDir, s)
      end
  end.

(** [os.ReadFile(name)]: [Open], then read to the end. *)
Definition os_ReadFile (name : string) : St os (list Byte.byte) :=
  f <- os_Open name ;; file_read_all f.

(** ** [os.DirFS(dir)]

    [os.DirFS] returns the value [dirFS(dir)].  Its [join] refuses an empty
    root and a name that is not [fs.ValidPath] ([ErrInvalid]), then appends
    the name to the root with one separator. *)
Record dirFS := DirFS { dirfs_root : string }.

Definition os_DirFS (dir : string) : dirFS := DirFS dir.

Definition dirfs_join (dir name : string) : res string :=
  if String.eqb dir "" then Err ErrInvalid
  else if negb (valid_path name) then Err ErrInvalid
  else if has_suffix_slash dir then Ok (dir +:+ name)
  else Ok (dir +:+ String "/" name).

(** A method of [dirFS]: [op] on the joined name, or the join's error. *)
Definition dirfs_call {A} (op : string -> St os A) (dir name : string) : St os A :=
  match dirfs_join dir name with
  | Err e => st_fail e
  | Ok p => op p
  end.

(** ** Reading leaves the state alone *)

Definition read_only {A} (m : St os A) : Prop := forall s, snd (m s) = s.

Lemma read_only_ret {A} (a : A) : read_only (st_ret a).
Proof. done. Qed.

Lemma read_only_bind {A B} (m : St os A) (k : A -> St os B) :
  read_only m -> (forall a, read_only (k a)) -> read_only (st_bind m k).
Proof.
  intros Hm Hk s. unfold st_bind. specialize (Hm s).
  destruct (m s) as [[a|e] s'] eqn:E; simpl in Hm; subst; [apply Hk|done].
Qed.

Ltac read_only_case :=
  intros s; repeat match goal with
  | |- context [match ?x with _ => _ end] => destruct x as [] eqn:?
  end; done.

Lemma os_open_read_only p : read_only (os_open p).
Proof. unfold os_open. read_only_case. Qed.

Lemma os_Open_read_only p : read_only (os_Open p).
Proof. apply read_only_bind; [apply os_open_read_only|intros; apply read_only_ret]. Qed.

Lemma file_Stat_read_only f : read_only (file_Stat f).
Proof. unfold file_Stat. read_only_case. Qed.

Lemma file_read_all_read_only f : read_only (file_read_all f).
Proof. unfold file_read_all. read_only_case. Qed.

Lemma os_Stat_read_only p : read_only (os_Stat p).
Proof. unfold os_Stat. read_only_case. Qed.

Lemma os_readlink_read_only p : read_only (os_readlink p).
Proof. unfold os_readlink. read_only_case. Qed.

Lemma os_Lstat_read_only p : read_only (os_Lstat p).
Proof. unfold os_Lstat, os_Stat. read_only_case. Qed.

Lemma os_ReadDir_read_only p : read_only (os_ReadDir p).
Proof. unfold os_ReadDir. read_only_case. Qed.

Lemma os_getwd_read_only : read_only os_getwd.
Proof. done. Qed.

#[export] Hint Resolve read_only_ret read_only_bind os_open_read_only os_Open_read_only
  file_Stat_read_only file_read_all_read_only os_Stat_read_only os_readlink_read_only
  os_ReadDir_read_only os_getwd_read_only os_Lstat_read_only : redbag.

(** ** Resolving a path in two parts

    When the first part of a path resolves to a directory and the rest
    resolves from there without following links, the whole path
    resolves to where the rest leads: the link budget spent on the first
    part does not matter. *)
Lemma resolve_from_app hops m d cs1 cs2 d' r :
  resolve_from hops m d cs1 = Ok d' -> m !! d' = Some Dir ->
  (forall h, resolve_from h m d' cs2 = r) ->
  resolve_from hops m d (cs1 ++ cs2) = r.
Proof.
  revert d cs1. induction hops as [|h IH]; intros d cs1; revert d;
    induction cs1 as [|c cs1 IHcs]; intros d Hres Hd' Hr.
  all: try (rewrite resolve_from_nil in Hres; injection Hres as <-; apply Hr).
  all: cbn [app]; rewrite resolve_from_cons in Hres |- *.
  all: destruct (is_dot c); [by apply IHcs|].
  all: destruct (String.eqb c ".."); [by apply IHcs|].
  all: destruct (m !! (d ++ [c])) as [[|data|t]|] eqn:E; try done.
  all: try by apply IHcs.
  all: try (destruct cs1; [injection Hres as <-; congruence|done]).
  rewrite app_assoc. by eapply IH.
Qed.

(** A path whose part after [base] is [.] or normal names of directories
    resolves as [base] does, followed by those names. *)
Lemma resolve_or_dot s base q rel :
  wf s -> base <> "" -> resolve s base = Ok q -> Forall normal_name rel ->
  fsys s !! (q ++ rel) = Some Dir ->
  resolve s (base +:+ String "/" (rel_name rel)) = Ok (q ++ rel).
Proof.
  intros Hwf Hb Hq Hrel Hd. unfold resolve, start in *.
  rewrite is_rooted_app by done. rewrite split_slash_app, split_rel_name by done.
  eapply resolve_from_app; [exact Hq| |].
  { destruct rel as [|x rel] using rev_ind; [by rewrite app_nil_r in Hd|].
    eapply (dir_prefix s q (rel ++ [x])); [done|exact Hd]. }
  intros h. destruct rel as [|x rel].
  - rewrite app_nil_r. cbn [or_dot]. rewrite resolve_from_cons. by rewrite resolve_from_nil.
  - by apply resolve_from_dirs.
Qed.

(** ** Directory listings list each entry once *)

Lemma child_of_spec q k x : child_of q k = Some x <-> k = q ++ [x].
Proof.
  unfold child_of. split.
  - destruct (drop (List.length q) k) as [|y [|z l]] eqn:E; try done.
    case_decide as Ht; [|done]. intros [= ->].
    by rewrite <- (take_drop (List.length q) k), Ht, E.
  - intros ->. rewrite drop_app_length, take_app_length. by case_decide.
Qed.

Lemma elem_of_child_names m q x : x ∈ child_names m q <-> is_Some (m !! (q ++ [x])).
Proof.
  unfold child_names. rewrite list_elem_of_omap. split.
  - intros ([k n] & Hkn & Hc). apply elem_of_map_to_list in Hkn.
    apply child_of_spec in Hc. simpl in Hc. subst k. by exists n.
  - intros [n Hn]. exists (q ++ [x], n). split; [by apply elem_of_map_to_list|].
    by apply child_of_spec.
Qed.

Lemma NoDup_child_names m q : NoDup (child_names m q).
Proof.
  apply NoDup_omap; [apply NoDup_map_to_list|].
  intros [k1 n1] [k2 n2] y Hk1 Hk2 H1 H2. apply elem_of_map_to_list in Hk1, Hk2.
  apply child_of_spec in H1, H2. simpl in *. subst. congruence.
Qed.

Lemma os_ReadFile_read_only p : read_only (os_ReadFile p).
Proof. apply read_only_bind; [apply os_Open_read_only|intros; apply file_read_all_read_only]. Qed.

Lemma dirfs_join_ok dir name :
  dir <> "" -> has_suffix_slash dir = false -> valid_path name = true ->
  dirfs_join dir name = Ok (dir +:+ String "/" name).
Proof.
  intros Hd Hs Hv. unfold dirfs_join. by rewrite (proj2 (String.eqb_neq _ _) Hd), Hv, Hs.
Qed.

(** Resolving normal names along existing directories to a regular file
    reaches the file. *)
Lemma resolve_from_file s hops d cs c :
  wf s -> Forall normal_name cs -> cs <> [] -> fsys s !! (d ++ cs) = Some (File c) ->
  resolve_from hops (fsys s) d cs = Ok (d ++ cs).
Proof.
  intros Hwf Hcs Hne Hf. rewrite (app_removelast_last "" Hne) in Hf, Hcs |- *.
  set (rl := removelast cs) in *. set (x := List.last cs "") in *.
  apply Forall_app in Hcs as [Hrl Hx]. inversion Hx as [|? ? Hxn _]; subst.
  rewrite app_assoc in Hf |- *.
  pose proof (wf_parent s Hwf (d ++ rl) x (File c) Hf) as Hd.
  eapply resolve_from_app; [apply (resolve_from_dirs s); done|exact Hd|].
  intros h. rewrite resolve_from_cons. destruct (normal_name_not_dot x Hxn) as [-> ->].
  by rewrite Hf.
Qed.

Lemma resolve_file s cs c :
  wf s -> Forall normal_name cs -> cs <> [] -> fsys s !! (cwd s ++ cs) = Some (File c) ->
  resolve s (join_slash cs) = Ok (cwd s ++ cs).
Proof.
  intros Hwf Hcs Hne Hf. unfold resolve, start.
  destruct cs as [|c0 cs']; [done|]. inversion Hcs as [|? ? Hc0 _]; subst.
  rewrite is_rooted_join, normal_name_unrooted by apply Hc0.
  rewrite split_join by auto using normal_name_slash_free.
  by eapply resolve_from_file.
Qed.
