(* ===== verification/PathOrder.v ===== *)
(** * PathOrder: the lexical order of paths

    Paths are lists of names; they are compared name by name, each name
    in the byte order of [strings.Compare] (stdpp's [String.le]), and a
    path comes before its extensions.  This is the order in which
    [fs.WalkDir] visits a tree.  The file proves it a total order and
    gives the lemmas on sorted lists the walk proof uses. *)

From stdpp Require Import base list strings sorting.
From Stdlib Require Import String.
From S2P Require Import Prelude.

Local Open Scope list_scope.

Fixpoint path_leb (p q : list string) : bool :=
  match p, q with
  | [], _ => true
  | _ :: _, [] => false
  | x :: p', y :: q' => if String.eqb x y then path_leb p' q' else String.leb x y
  end.

Definition path_le (p q : list string) : Prop := path_leb p q = true.

(** The strict order: [fs.WalkDir] never visits a path twice. *)
Definition path_lt (p q : list string) : Prop := path_le p q /\ p <> q.

#[export] Instance path_le_dec : RelDecision path_le.
Proof. intros p q. unfold path_le. apply _. Defined.

(** ** Names *)

Lemma string_leb_refl x : String.leb x x = true.
Proof. apply Is_true_true. change (String.le x x). reflexivity. Qed.

Lemma string_leb_trans x y z :
  String.leb x y = true -> String.leb y z = true -> String.leb x z = true.
Proof.
  intros Hxy Hyz. apply Is_true_true. change (String.le x z).
  transitivity y; by apply Is_true_true.
Qed.

Lemma string_leb_neq x y : x <> y -> String.leb x y = true -> String.leb y x = false.
Proof.
  intros Hne Hxy. destruct (String.leb y x) eqn:E; [|done].
  by destruct Hne; apply String.leb_antisym.
Qed.

(** ** The order on paths *)

Lemma path_leb_refl p : path_leb p p = true.
Proof. induction p as [|x p IH]; [done|]. simpl. by rewrite String.eqb_refl. Qed.

Lemma path_leb_trans p q r : path_leb p q = true -> path_leb q r = true -> path_leb p r = true.
Proof.
  revert q r. induction p as [|x p IH]; intros [|y q] [|z r]; simpl; try done.
  destruct (String.eqb_spec x y) as [<-|Hxy], (String.eqb_spec x z) as [<-|Hxz].
  - apply IH.
  - done.
  - destruct (String.eqb_spec y x) as [->|Hyx]; [done|].
    intros H1 H2. destruct Hxy. by apply String.leb_antisym.
  - destruct (String.eqb_spec y z) as [<-|Hyz]; [done|]. apply string_leb_trans.
Qed.

Lemma path_leb_antisym p q : path_leb p q = true -> path_leb q p = true -> p = q.
Proof.
  revert q. induction p as [|x p IH]; intros [|y q]; simpl; try done.
  destruct (String.eqb_spec x y) as [<-|Hxy].
  - rewrite String.eqb_refl. intros H1 H2. by rewrite (IH q H1 H2).
  - destruct (String.eqb_spec y x) as [->|]; [done|].
    intros H1 H2. destruct Hxy. by apply String.leb_antisym.
Qed.

Lemma path_leb_total p q : path_leb p q = true \/ path_leb q p = true.
Proof.
  revert q. induction p as [|x p IH]; intros [|y q]; simpl; auto.
  destruct (String.eqb_spec x y) as [<-|Hxy].
  - rewrite String.eqb_refl. apply IH.
  - destruct (String.eqb_spec y x) as [->|]; [done|]. apply String.leb_total.
Qed.

#[export] Instance path_le_trans : Transitive path_le.
Proof. intros p q r. apply path_leb_trans. Qed.

#[export] Instance path_le_antisym : AntiSymm (=) path_le.
Proof. intros p q. apply path_leb_antisym. Qed.

#[export] Instance path_le_total : Total path_le.
Proof. intros p q. apply path_leb_total. Qed.

(** The root comes first, and a common first name keeps the order. *)
Lemma path_lt_nil x p : path_lt [] (x :: p).
Proof. done. Qed.

Lemma path_lt_cons x p q : path_lt p q -> path_lt (x :: p) (x :: q).
Proof. intros [Hle Hne]. split; [unfold path_le; simpl; by rewrite String.eqb_refl|congruence]. Qed.

Lemma path_lt_heads x y p q :
  String.leb x y = true -> x <> y -> path_lt (x :: p) (y :: q).
Proof.
  intros Hle Hne. split; [|congruence]. unfold path_le; simpl.
  by destruct (String.eqb_spec x y).
Qed.

#[export] Hint Resolve path_lt_nil path_lt_cons : redbag.

(** ** Sorted lists *)

Lemma StronglySorted_map {A B} (R : relation A) (R' : relation B) (f : A -> B) l :
  (forall x y, R x y -> R' (f x) (f y)) -> StronglySorted R l -> StronglySorted R' (map f l).
Proof.
  intros Hf. induction 1 as [|x l Hl IH Hx]; simpl; constructor; [done|].
  apply Forall_map. eapply Forall_impl; [exact Hx|]. intros y. apply Hf.
Qed.

(** A concatenation of sorted blocks is sorted when the blocks come in
    order and every element of an earlier block precedes every element
    of a later one. *)
Lemma StronglySorted_concat_map {A B} (R : relation A) (R' : relation B) (f : A -> list B) l :
  StronglySorted R l ->
  (forall x, x ∈ l -> StronglySorted R' (f x)) ->
  (forall x y a b, R x y -> a ∈ f x -> b ∈ f y -> R' a b) ->
  StronglySorted R' (List.concat (map f l)).
Proof.
  intros Hl Hf Hxy. induction Hl as [|x l Hl IH Hx]; simpl; [constructor|].
  apply StronglySorted_app_2.
  - intros a b Ha Hb. apply list_elem_of_In, in_concat in Hb as (bs & Hbs & Hb).
    apply list_elem_of_In, list_elem_of_fmap in Hbs as (y & -> & Hy).
    rewrite Forall_forall in Hx. eapply Hxy; [by apply Hx|done|by apply list_elem_of_In].
  - apply Hf. by constructor.
  - apply IH. intros y Hy. apply Hf. by constructor.
Qed.

Lemma StronglySorted_lt_NoDup l : StronglySorted path_lt l -> NoDup l.
Proof.
  induction 1 as [|x l Hl IH Hx]; constructor; [|done].
  intros Hin. rewrite Forall_forall in Hx. by destruct (Hx x Hin) as [_ []].
Qed.

Lemma StronglySorted_lt_le l : StronglySorted path_lt l -> StronglySorted path_le l.
Proof.
  induction 1 as [|x l Hl IH Hx]; constructor; [done|].
  eapply Forall_impl; [exact Hx|]. by intros y [].
Qed.

(** Names sorted by [String.le] without repetition are strictly sorted. *)
Lemma StronglySorted_strict_names (l : list string) :
  StronglySorted String.le l -> NoDup l ->
  StronglySorted (fun x y => String.leb x y = true /\ x <> y) l.
Proof.
  induction 1 as [|x l Hl IH Hx]; intros Hnd; constructor; apply NoDup_cons in Hnd as [Hxl Hnd].
  - by apply IH.
  - rewrite Forall_forall in Hx |- *. intros y Hy. split; [apply Is_true_true, Hx, Hy|].
    intros ->. by apply Hxl.
Qed.

(** [merge_sort] of a list without repetition is the only strictly
    sorted arrangement of its elements. *)
Lemma merge_sort_unique (l k : list (list string)) :
  NoDup l -> StronglySorted path_lt k -> (forall x, x ∈ l <-> x ∈ k) ->
  merge_sort path_le l = k.
Proof.
  intros Hl Hk Hlk. apply (Sorted_unique path_le).
  - apply Sorted_merge_sort, _.
  - by apply StronglySorted_Sorted, StronglySorted_lt_le.
  - rewrite merge_sort_Permutation. apply NoDup_Permutation; [done|by apply StronglySorted_lt_NoDup|done].
Qed.

Lemma StronglySorted_filter {A} (R : relation A) (f : A -> bool) l :
  StronglySorted R l -> StronglySorted R (List.filter f l).
Proof.
  induction 1 as [|x l Hl IH Hx]; simpl; [constructor|].
  destruct (f x); [|done]. constructor; [done|].
  apply List.Forall_forall. intros y Hy%filter_In. by apply (proj1 (List.Forall_forall _ _) Hx), Hy.
Qed.
