(* ===== verification/Archive.v ===== *)
(** * Archive: the kit archiver of redkit

    Models [followIfSymlink] and [zipDirFull] of
    [src/cmd/redkit/main.go], together with the library code they run:
    [fs.WalkDir] (with its helper [walkDir]) over an [os.DirFS] (of
    [OsRead]) and the entry level of [archive/zip.Writer].  A Go panic ([Unwrap], [Check]) is an
    [Err]: the request that raised it is abandoned, and net/http recovers.

    The archive is modelled as the list of its entries (name and bytes)
    in the order they are created, and a closed flag: the byte encoding of
    [archive/zip] (headers, Deflate) is library code the program only
    calls. *)

From stdpp Require Import base list gmap strings sorting list_numbers.
From Stdlib Require Import Ascii String ZArith.
From S2P Require Import Prelude GoPath OsFs OsRead PathOrder.

Local Open Scope string_scope.
Local Open Scope list_scope.
Local Open Scope go_scope.

(** ** [followIfSymlink] (main.go, lines 126-137)

    The Go function recurses without bound; [fuel] counts the calls the
    model allows.  [followIfSymlink_is_stat] shows that one call always
    suffices. *)
Fixpoint followIfSymlink (fuel : nat) (maybeSym : go_file) : St os go_file :=
  match fuel with
  | O => st_fail ErrLoop
  | S n =>
      fi <- file_Stat maybeSym ;;
      if negb (Z.eqb (Z.land (fi_mode fi) ModeSymlink) 1) then st_ret maybeSym
      else
        wd <- os_getwd ;;
        st_defer (file_Chdir maybeSym ;;
                  realFileName <- os_readlink (f_name maybeSym) ;;
                  f <- os_Open realFileName ;;
                  followIfSymlink n f)
                 (os_chdir wd)
  end.

(** ** The archive writer *)
Record zip_writer := mkZip {
  zw_entries : list (string * list Byte.byte);
  zw_closed : bool
}.

(** [zip.NewWriter(buf)]. *)
Definition zip_new : zip_writer := mkZip [] false.

(** The archiver's world: the machine and the archive it fills. *)
Definition arch : Type := os * zip_writer.

Definition lift_os {W A} (m : St os A) : St (os * W) A := fun st =>
  let '(r, o) := m st.1 in (r, (o, st.2)).

(** [archive.Create(name)]: a new entry, which the writer it returns
    fills. *)
Definition zip_Create (name : string) : St arch unit := fun st =>
  (Ok tt, (st.1, mkZip (zw_entries st.2 ++ [(name, [])]) (zw_closed st.2))).

Definition append_last (data : list Byte.byte) (es : list (string * list Byte.byte)) :
    list (string * list Byte.byte) :=
  match rev es with
  | [] => es
  | (n, c) :: r => rev r ++ [(n, c ++ data)]
  end.

(** [io.Copy(zipf, fil)] on the writer of the last entry. *)
Definition zip_Write (data : list Byte.byte) : St arch unit := fun st =>
  (Ok tt, (st.1, mkZip (append_last data (zw_entries st.2)) (zw_closed st.2))).

(** [archive.Close()]: fails on a writer closed twice. *)
Definition zip_Close : St arch unit := fun st =>
  if zw_closed st.2 then (Err ErrInvalid, st)
  else (Ok tt, (st.1, mkZip (zw_entries st.2) true)).

(** ** [fs.WalkDir]

    The walk function receives the name, the entry ([None] for [nil]) and
    the error argument; an error it returns ends the walk.  [walkDir] is
    the library's recursive helper, with fuel for the depth of the tree:
    [walk_fuel] (one more than the longest path of the tree) is enough. *)
Section Walk.
Context {W : Type}.

Definition walk_fn : Type := string -> option dir_entry -> option go_error -> St (os * W) unit.

Fixpoint walkDir (fuel : nat) (dir name : string) (d : dir_entry) (fn : walk_fn) :
    St (os * W) unit :=
  match fuel with
  | O => st_ret tt
  | S n =>
      fn name (Some d) None ;;
      if negb (de_is_dir d) then st_ret tt
      else fun st =>
        match lift_os (dirfs_call os_ReadDir dir name) st with
        | (Err e, st1) => fn name (Some d) (Some e) st1
        | (Ok dirs, st1) =>
            (fix loop (ds : list dir_entry) : St (os * W) unit :=
               match ds with
               | [] => st_ret tt
               | d1 :: ds' => walkDir n dir (path_join [name; de_name d1]) d1 fn ;; loop ds'
               end) dirs st1
        end
  end.

(** [fs.WalkDir(os.DirFS(dir), ".", fn)]: the root is stat-ed, following
    links, and [fn] sees a failure with a [nil] entry. *)
Definition WalkDir (fuel : nat) (dir : string) (fn : walk_fn) : St (os * W) unit := fun st =>
  match lift_os (dirfs_call os_Stat dir ".") st with
  | (Err e, st1) => fn "." None (Some e) st1
  | (Ok info, st1) => walkDir fuel dir "." (mkEntry "." (fi_is_dir info)) fn st1
  end.
End Walk.

Definition walk_fuel (m : gmap (list string) node) : nat :=
  S (max_list (map (fun kn => List.length kn.1) (map_to_list m))).

(** ** [zipDirFull] (main.go, lines 101-122) *)

(** The function literal given to [fs.WalkDir] (lines 105-119). *)
Definition zip_visit (basePath : string) : @walk_fn zip_writer := fun filePath d err =>
  match d with
  | None => match err with Some e => st_fail e | None => st_ret tt end
  | Some _ =>
      fil <- lift_os (f <- os_Open (path_join [basePath; filePath]) ;;
                      followIfSymlink (S max_symlinks) f) ;;
      filStat <- lift_os (file_Stat fil) ;;
      if (fi_size filStat <? 1)%Z || fi_is_dir filStat then st_ret tt
      else zip_Create filePath ;;
           st_ignore (data <- lift_os (file_read_all fil) ;; zip_Write data)
  end.

Definition zipDirFull (basePath : string) : St os zip_writer := fun s =>
  let '(r, (s', z)) :=
    (WalkDir (walk_fuel (fsys s)) basePath (zip_visit basePath) ;; zip_Close) (s, zip_new) in
  match r with
  | Ok _ => (Ok z, s')
  | Err e => (Err e, s')
  end.

(** ** The walk as a list

    What [fs.WalkDir] visits at and below an entry [q] of the tree [m]:
    relative paths in the order of the walk, the entry first and then,
    for each name of a directory in [os.ReadDir] order, what is visited
    below it.  [walk_ref] is the specification: every path of the tree at
    or below [q], once, in lexical order. *)
Definition is_dir_at (m : gmap (list string) node) (q : list string) : bool :=
  bool_decide (m !! q = Some Dir).

Definition sorted_children (m : gmap (list string) node) (q : list string) : list string :=
  merge_sort String.le (child_names m q).

Fixpoint tree_walk (fuel : nat) (m : gmap (list string) node) (q : list string) :
    list (list string) :=
  match fuel with
  | O => []
  | S n => [] :: (if is_dir_at m q
                  then List.concat (map (fun x => map (cons x) (tree_walk n m (q ++ [x])))
                                        (sorted_children m q))
                  else [])
  end.

Definition keys_under (m : gmap (list string) node) (q : list string) : list (list string) :=
  omap (fun kn => if decide (q `prefix_of` kn.1) then Some (drop (List.length q) kn.1) else None)
       (map_to_list m).

Definition walk_ref (m : gmap (list string) node) (q : list string) : list (list string) :=
  merge_sort path_le (keys_under m q).

(** The name and entry the walk function is called with for the path [r]
    relative to the root [q] of the walk. *)
Definition walk_entry (m : gmap (list string) node) (q r : list string) : string * dir_entry :=
  (rel_name r, mkEntry (List.last r ".") (is_dir_at m (q ++ r))).

Fixpoint visit_all {W} (fn : @walk_fn W) (vs : list (string * dir_entry)) : St (os * W) unit :=
  match vs with
  | [] => st_ret tt
  | (nm, d) :: vs' => fn nm (Some d) None ;; visit_all fn vs'
  end.

(** What visiting the path [r] below [base] adds to the archive: an
    error, nothing (a directory or an empty file), or the bytes of the
    file the path leads to. *)
Definition entry_content (s : os) (base : string) (r : list string) :
    res (option (list Byte.byte)) :=
  match resolve s (path_join [base; rel_name r]) with
  | Err e => Err e
  | Ok q =>
      match fsys s !! q with
      | Some (File c) => Ok (if decide (c = []) then None else Some c)
      | _ => Ok None
      end
  end.

Definition res_ok {A} (x : res A) : bool := match x with Ok _ => true | Err _ => false end.

(** The archive [zipDirFull] is to write: the non-empty files of the
    walk, under their walk names, in walk order. *)
Definition archive_entries (s : os) (base : string) (rs : list (list string)) :
    list (string * list Byte.byte) :=
  omap (fun r => match entry_content s base r with
                 | Ok (Some c) => Some (rel_name r, c)
                 | _ => None
                 end) rs.

(** ** The symlink test is never true

    [ModeSymlink] is bit 27, so [mode & ModeSymlink] is [0] or [1 << 27]
    and never [1]: the test [!= 1] of line 127 always holds. *)
Lemma symlink_test_false (mode : Z) : Z.eqb (Z.land mode ModeSymlink) 1 = false.
Proof.
  apply Z.eqb_neq. intros H.
  assert (Z.testbit (Z.land mode ModeSymlink) 0 = Z.testbit 1 0) as Hb by (by rewrite H).
  rewrite Z.land_spec in Hb. unfold ModeSymlink in Hb.
  rewrite Z.shiftl_spec_low in Hb by lia. by rewrite andb_false_r in Hb.
Qed.

(** C8: followIfSymlink never follows a link.  Whatever the file and the
    state, one call to [followIfSymlink] does what [f.Stat()] does and
    then returns its argument: the branch that was to read the link is
    dead, and the fuel is never used beyond the first call. *)
Theorem followIfSymlink_is_stat n f s :
  followIfSymlink (S n) f s =
  match file_Stat f s with
  | (Ok _, s') => (Ok f, s')
  | (Err e, s') => (Err e, s')
  end.
Proof.
  cbn [followIfSymlink]. unfold st_bind.
  destruct (file_Stat f s) as [[fi|e] s']; [|done].
  by rewrite symlink_test_false.
Qed.

(** A resolution never ends on a link, so the type bits of what
    [os.Open] returns carry no [ModeSymlink]: even the intended test
    ([!= 0]) would not fire on the files the archiver opens. *)
Lemma os_Open_not_link s p f s' :
  wf s -> os_Open p s = (Ok f, s') ->
  s' = s /\ exists fi, file_Stat f s' = (Ok fi, s') /\ Z.land (fi_mode fi) ModeSymlink = 0%Z.
Proof.
  intros Hwf. unfold os_Open, os_open, st_bind, st_ret.
  destruct (resolve s p) as [q|e] eqn:E; [|done]. intros [= <- <-]. split; [done|].
  unfold file_Stat. cbn [f_handle h_path].
  destruct (resolve_node s Hwf p q E) as [->|[c ->]]; eexists; (split; [done|]); by vm_compute.
Qed.

(** ** The walk visits [tree_walk] *)
Section WalkTree.
Context {W : Type} (fn : @walk_fn W).
Hypothesis Hfn : forall nm d e st, ((fn nm d e st).2).1 = st.1.

Lemma visit_all_keeps vs st : ((visit_all fn vs st).2).1 = st.1.
Proof.
  revert st. induction vs as [|[nm d] vs IH]; intros st; [done|]. cbn [visit_all].
  unfold st_bind. specialize (Hfn nm (Some d) None st).
  destruct (fn nm (Some d) None st) as [[[]|e] st']; simpl in *; [by rewrite IH|done].
Qed.

Lemma visit_all_app l1 l2 st :
  visit_all fn (l1 ++ l2) st = st_bind (visit_all fn l1) (fun _ => visit_all fn l2) st.
Proof.
  revert st. induction l1 as [|[nm d] l1 IH]; intros st; [done|]. cbn [visit_all app].
  rewrite st_bind_assoc. apply st_bind_ext. intros _ st'. apply IH.
Qed.

Lemma visit_all_bind_ext {B} vs (k1 k2 : unit -> St (os * W) B) st :
  (forall w', k1 tt (st.1, w') = k2 tt (st.1, w')) ->
  st_bind (visit_all fn vs) k1 st = st_bind (visit_all fn vs) k2 st.
Proof.
  intros Hk. unfold st_bind. pose proof (visit_all_keeps vs st) as Hkeep.
  destruct (visit_all fn vs st) as [[[]|e] [s' w']]; [|done]. simpl in Hkeep. subst s'. apply Hk.
Qed.

Context (s : os) (Hwf : wf s) (base : string) (q0 : list string).
Hypotheses (Hb : base <> "") (Hsl : has_suffix_slash base = false)
  (Hq0 : resolve s base = Ok q0) (Hd0 : fsys s !! q0 = Some Dir).

Lemma readdir_rel rel (w : W) :
  Forall normal_name rel -> fsys s !! (q0 ++ rel) = Some Dir ->
  lift_os (dirfs_call os_ReadDir base (rel_name rel)) (s, w) =
  (Ok (read_dir_at (fsys s) (q0 ++ rel)), (s, w)).
Proof.
  intros Hrel Hd. unfold lift_os, dirfs_call.
  rewrite dirfs_join_ok by auto using valid_path_rel_name. cbn [fst snd]. unfold os_ReadDir.
  by rewrite (resolve_or_dot s base q0 rel), Hd.
Qed.

Lemma sorted_children_spec m q x :
  x ∈ sorted_children m q <-> is_Some (m !! (q ++ [x])).
Proof. unfold sorted_children. by rewrite merge_sort_Permutation, elem_of_child_names. Qed.

Lemma walkDir_tree n rel w :
  Forall normal_name rel -> is_Some (fsys s !! (q0 ++ rel)) ->
  walkDir n base (rel_name rel) (walk_entry (fsys s) q0 rel).2 fn (s, w) =
  visit_all fn (map (fun r => walk_entry (fsys s) q0 (rel ++ r)) (tree_walk n (fsys s) (q0 ++ rel)))
    (s, w).
Proof.
  revert rel w. induction n as [|n IH]; intros rel w Hrel Hkey; [done|].
  cbn [walkDir tree_walk map visit_all]. rewrite app_nil_r. unfold st_bind at 1 3.
  pose proof (Hfn (rel_name rel) (Some (walk_entry (fsys s) q0 rel).2) None (s, w)) as Hf1.
  unfold walk_entry at 2 3 4. cbn [fst snd de_is_dir].
  destruct (fn _ _ _ (s, w)) as [[[]|e] [s1 w1]]; [|done]. cbn in Hf1. subst s1.
  destruct (is_dir_at (fsys s) (q0 ++ rel)) eqn:Hdir; [|done]. cbn [negb].
  rewrite readdir_rel by (done || by apply bool_decide_eq_true in Hdir).
  unfold read_dir_at. fold (sorted_children (fsys s) (q0 ++ rel)).
  assert (Hch : forall x, x ∈ sorted_children (fsys s) (q0 ++ rel) ->
                normal_name x /\ is_Some (fsys s !! (q0 ++ rel ++ [x]))).
  { intros x Hx%sorted_children_spec. rewrite app_assoc. split; [|done].
    destruct Hx as [nd Hx]. apply (wf_names s Hwf) in Hx. apply Forall_app in Hx as [_ Hx]. by inversion Hx. }
  revert w1 Hch. induction (sorted_children (fsys s) (q0 ++ rel)) as [|x xs IHxs]; intros w1 Hch; [done|].
  destruct (Hch x) as [Hx Hkx]; [by constructor|].
  cbn [map List.concat]. rewrite map_app, visit_all_app.
  change (de_name (entry_of (fsys s) (q0 ++ rel) x)) with x.
  rewrite path_join_rel_name by done.
  replace (entry_of (fsys s) (q0 ++ rel) x) with (walk_entry (fsys s) q0 (rel ++ [x])).2
    by (unfold walk_entry, entry_of, is_dir_at; by rewrite List.last_last, app_assoc).
  etrans; [apply st_bind_eq_l, IH; [apply Forall_app; split; [done|by constructor]|exact Hkx]|].
  rewrite map_map, <- app_assoc.
  assert (Hm : map (fun r => walk_entry (fsys s) q0 ((rel ++ [x]) ++ r))
                 (tree_walk n (fsys s) (q0 ++ rel ++ [x])) =
               map (fun r => walk_entry (fsys s) q0 (rel ++ x :: r))
                 (tree_walk n (fsys s) (q0 ++ rel ++ [x])))
    by (apply map_ext; intros r; by rewrite <- app_assoc).
  rewrite Hm. apply visit_all_bind_ext. intros w2. apply IHxs.
  intros y Hy. apply Hch. by constructor.
Qed.
End WalkTree.

(** ** [tree_walk] lists the tree in lexical order *)

Definition max_len (m : gmap (list string) node) : nat :=
  max_list (map (fun kn => List.length kn.1) (map_to_list m)).

Lemma key_length m k : is_Some (m !! k) -> List.length k <= max_len m.
Proof.
  intros [n Hk]. apply max_list_elem_of_le, list_elem_of_fmap.
  exists (k, n). split; [done|]. by apply elem_of_map_to_list.
Qed.

(** In a well-formed tree, a path below a name is below a directory. *)
Lemma key_prefix_dir s p x r :
  wf s -> is_Some (fsys s !! (p ++ x :: r)) -> fsys s !! p = Some Dir.
Proof.
  intros Hwf. revert x. induction r as [|y r IH] using rev_ind; intros x [n Hn].
  { by eapply wf_parent. }
  replace (p ++ x :: r ++ [y]) with ((p ++ x :: r) ++ [y]) in Hn
    by (by rewrite <- app_assoc).
  apply (wf_parent s Hwf) in Hn. apply (IH x). by eexists.
Qed.

Lemma key_prefix_key s p x r :
  wf s -> is_Some (fsys s !! (p ++ x :: r)) -> is_Some (fsys s !! (p ++ [x])).
Proof.
  intros Hwf Hk. destruct r as [|y r]; [done|].
  rewrite (key_prefix_dir s (p ++ [x]) y r Hwf); [by eexists|by rewrite <- app_assoc].
Qed.

Lemma tree_walk_elem s n q r :
  wf s -> is_Some (fsys s !! q) -> max_len (fsys s) < List.length q + n ->
  r ∈ tree_walk n (fsys s) q <-> is_Some (fsys s !! (q ++ r)).
Proof.
  intros Hwf. revert q r. induction n as [|n IH]; intros q r Hq Hn.
  { pose proof (key_length _ _ Hq). lia. }
  cbn [tree_walk]. rewrite elem_of_cons. split.
  - intros [->|Hr]; [by rewrite app_nil_r|].
    destruct (is_dir_at (fsys s) q); [|by apply elem_of_nil in Hr].
    apply list_elem_of_In, in_concat in Hr as (l & Hl & Hr).
    apply in_map_iff in Hl as (x & <- & Hx%list_elem_of_In).
    apply in_map_iff in Hr as (r' & <- & Hr'%list_elem_of_In).
    apply sorted_children_spec in Hx.
    apply IH in Hr'; [|done|rewrite length_app; simpl; lia]. by rewrite <- app_assoc in Hr'.
  - destruct r as [|x r]; intros Hk; [by left|right].
    unfold is_dir_at. rewrite bool_decide_true by (by eapply key_prefix_dir).
    apply list_elem_of_In, in_concat. eexists. split.
    + apply in_map_iff. exists x. split; [done|]. apply list_elem_of_In, sorted_children_spec.
      by eapply key_prefix_key.
    + apply in_map_iff. exists r. split; [done|]. apply list_elem_of_In, IH.
      * by eapply key_prefix_key.
      * rewrite length_app; simpl; lia.
      * by rewrite <- app_assoc.
Qed.

Lemma sorted_children_strict m q :
  StronglySorted (fun x y => String.leb x y = true /\ x <> y) (sorted_children m q).
Proof.
  apply StronglySorted_strict_names; [apply StronglySorted_merge_sort; apply _|].
  unfold sorted_children. rewrite merge_sort_Permutation. apply NoDup_child_names.
Qed.

Lemma tree_walk_sorted n m q : StronglySorted path_lt (tree_walk n m q).
Proof.
  revert q. induction n as [|n IH]; intros q; cbn [tree_walk]; [constructor|].
  assert (Hrest : StronglySorted path_lt
    (if is_dir_at m q then List.concat (map (fun x => map (cons x) (tree_walk n m (q ++ [x])))
                                          (sorted_children m q)) else [])).
  { destruct (is_dir_at m q); [|constructor].
    apply (StronglySorted_concat_map _ _ _ _ (sorted_children_strict m q)).
    - intros x _. apply (StronglySorted_map path_lt); [apply path_lt_cons|apply IH].
    - intros x y a b [Hle Hne] (a' & -> & _)%list_elem_of_fmap (b' & -> & _)%list_elem_of_fmap.
      by apply path_lt_heads. }
  constructor; [done|]. apply Forall_forall. intros r Hr.
  destruct (is_dir_at m q); [|by apply elem_of_nil in Hr].
  apply list_elem_of_In, in_concat in Hr as (l & Hl & Hr).
  apply in_map_iff in Hl as (x & <- & _). apply in_map_iff in Hr as (r' & <- & _).
  apply path_lt_nil.
Qed.

Lemma keys_under_elem m q r : r ∈ keys_under m q <-> is_Some (m !! (q ++ r)).
Proof.
  unfold keys_under. rewrite list_elem_of_omap. split.
  - intros ([k n] & Hk%elem_of_map_to_list & Hr). simpl in Hr.
    case_decide as Hp; [|done]. injection Hr as <-. destruct Hp as [r' ->].
    rewrite drop_app_length. by eexists.
  - intros [n Hn]. exists (q ++ r, n). split; [by apply elem_of_map_to_list|]. simpl.
    rewrite decide_True by by exists r. by rewrite drop_app_length.
Qed.

Lemma NoDup_keys_under m q : NoDup (keys_under m q).
Proof.
  apply NoDup_omap; [apply NoDup_map_to_list|].
  intros [k1 n1] [k2 n2] r Hk1%elem_of_map_to_list Hk2%elem_of_map_to_list H1 H2. simpl in *.
  case_decide as Hp1; [|done]. case_decide as Hp2; [|done].
  destruct Hp1 as [r1 ->], Hp2 as [r2 ->]. rewrite !drop_app_length in H1, H2.
  injection H1 as ->. injection H2 as ->. congruence.
Qed.

(** With fuel enough for the depth of the tree, [tree_walk] is the
    lexically sorted list of the paths at or below [q]. *)
Lemma tree_walk_ref s n q :
  wf s -> is_Some (fsys s !! q) -> max_len (fsys s) < List.length q + n ->
  tree_walk n (fsys s) q = walk_ref (fsys s) q.
Proof.
  intros Hwf Hq Hn. symmetry. apply merge_sort_unique.
  - apply NoDup_keys_under.
  - apply tree_walk_sorted.
  - intros r. by rewrite keys_under_elem, tree_walk_elem.
Qed.

(** [fs.WalkDir] visits the tree once, in lexical order: when the walked
    directory resolves to a directory and the walk function leaves the
    file tree alone, it calls the function on every path at or below that
    directory exactly once, in the lexical order of their elements
    ([walk_ref]), with the entry [os.ReadDir] gives for it, and stops at
    the first error the function returns.  The fuel [walk_fuel], one more
    than the longest path of the tree, is enough. *)
Lemma WalkDir_lexical {W} (fn : @walk_fn W) s base q0 w :
  (forall nm d e st, ((fn nm d e st).2).1 = st.1) ->
  wf s -> base <> "" -> has_suffix_slash base = false ->
  resolve s base = Ok q0 -> fsys s !! q0 = Some Dir ->
  WalkDir (walk_fuel (fsys s)) base fn (s, w) =
  visit_all fn (map (walk_entry (fsys s) q0) (walk_ref (fsys s) q0)) (s, w).
Proof.
  intros Hfn Hwf Hb Hsl Hq0 Hd0.
  pose proof (walkDir_tree fn Hfn s Hwf base q0 Hb Hsl Hq0 (walk_fuel (fsys s)) [] w) as H.
  unfold walk_entry at 1, is_dir_at at 1 in H. cbn [app List.last snd] in H.
  rewrite !app_nil_r, bool_decide_true in H by done.
  rewrite <- (tree_walk_ref s (walk_fuel (fsys s)) q0); [|done|by rewrite Hd0|unfold walk_fuel, max_len; lia].
  assert (Hk0 : is_Some (fsys s !! q0)) by (by rewrite Hd0).
  etrans; [|exact (H (List.Forall_nil _) Hk0)].
  unfold WalkDir, lift_os, dirfs_call.
  rewrite dirfs_join_ok by done. cbn [fst snd]. unfold os_Stat.
  pose proof (resolve_or_dot s base q0 [] Hwf Hb Hq0 (List.Forall_nil _)) as Hr.
  rewrite app_nil_r in Hr. specialize (Hr Hd0). change (rel_name []) with "." in Hr.
  by rewrite Hr, Hd0.
Qed.

(** ** The archiver's walk function *)

Definition keeps_os {W A} (m : St (os * W) A) : Prop := forall st, ((m st).2).1 = st.1.

Lemma keeps_os_bind {W A B} (m : St (os * W) A) (k : A -> St (os * W) B) :
  keeps_os m -> (forall a, keeps_os (k a)) -> keeps_os (st_bind m k).
Proof.
  intros Hm Hk st. unfold st_bind. specialize (Hm st).
  destruct (m st) as [[a|e] st']; simpl in *; [by rewrite Hk|done].
Qed.

Lemma keeps_os_lift {W A} (m : St os A) : read_only m -> @keeps_os W A (lift_os m).
Proof. intros Hm st. unfold lift_os. specialize (Hm st.1). by destruct (m st.1). Qed.

Lemma followIfSymlink_read_only n f : read_only (followIfSymlink (S n) f).
Proof.
  intros s. rewrite followIfSymlink_is_stat. pose proof (file_Stat_read_only f s) as H.
  by destruct (file_Stat f s) as [[] s'].
Qed.

Lemma zip_visit_keeps base nm d e : keeps_os (zip_visit base nm d e).
Proof.
  destruct d as [d|]; [|by destruct e; intros st].
  apply keeps_os_bind; [apply keeps_os_lift, read_only_bind;
                        [apply os_Open_read_only|intros; apply followIfSymlink_read_only]|].
  intros f. apply keeps_os_bind; [apply keeps_os_lift, file_Stat_read_only|].
  intros fi. destruct (_ || _); [by intros st|]. apply keeps_os_bind; [by intros st|].
  intros _ st. unfold st_ignore. cbn [snd].
  apply (keeps_os_bind _ _ (keeps_os_lift _ (file_read_all_read_only f))). by intros data st'.
Qed.

Lemma append_last_snoc data es n :
  append_last data (es ++ [(n, [])]) = es ++ [(n, data)].
Proof. unfold append_last. rewrite rev_app_distr. simpl. by rewrite rev_involutive. Qed.

Lemma size_lt_1 (c : list Byte.byte) : (Z.of_nat (List.length c) <? 1)%Z = bool_decide (c = []).
Proof.
  destruct c as [|b c]; [done|]. rewrite bool_decide_false by done.
  apply Z.ltb_ge. cbn [List.length]. lia.
Qed.

(** Opening a path and following it: the file the path resolves to. *)
Lemma open_follow s p n :
  wf s ->
  (f <- os_Open p ;; followIfSymlink (S n) f) s =
  match resolve s p with
  | Ok q => (Ok (mkFile p (mkHandle q 0)), s)
  | Err e => (Err e, s)
  end.
Proof.
  intros Hwf. unfold os_Open, os_open. rewrite st_bind_assoc. unfold st_bind at 1.
  destruct (resolve s p) as [q|e] eqn:Hq; [|done]. cbn -[followIfSymlink]. rewrite followIfSymlink_is_stat.
  unfold file_Stat. cbn [f_handle h_path].
  by destruct (resolve_node s Hwf p q Hq) as [->|[c ->]].
Qed.

(** One call of the walk function on a path that resolves: it adds the
    file's bytes under the walk name when the path leads to a non-empty
    file, and nothing otherwise. *)
Lemma zip_visit_step s base r d z :
  wf s ->
  zip_visit base (rel_name r) (Some d) None (s, z) =
  match entry_content s base r with
  | Err e => (Err e, (s, z))
  | Ok None => (Ok tt, (s, z))
  | Ok (Some c) => (Ok tt, (s, mkZip (zw_entries z ++ [(rel_name r, c)]) (zw_closed z)))
  end.
Proof.
  intros Hwf. unfold zip_visit, entry_content. unfold st_bind at 1. unfold lift_os at 1.
  cbn [fst snd]. rewrite open_follow by done.
  destruct (resolve s _) as [q|e] eqn:Hq; [|done]. cbn [fst snd].
  unfold st_bind at 1, lift_os at 1, file_Stat. cbn [fst snd f_handle h_path].
  destruct (resolve_node s Hwf _ q Hq) as [Hd|[c Hc]].
  - by rewrite Hd.
  - rewrite Hc. cbn [node_info fi_size]. rewrite size_lt_1.
    unfold fi_is_dir. cbn [fi_mode]. change (negb (Z.land 420 ModeDir =? 0)%Z) with false.
    rewrite orb_false_r. case_bool_decide as Hn; [by rewrite decide_True|].
    rewrite decide_False by done. unfold zip_Create, st_ignore, zip_Write, file_read_all, st_bind, lift_os.
    cbn [fst snd zw_entries zw_closed f_handle h_path h_off]. rewrite Hc, drop_0.
    cbn [fst snd zw_entries zw_closed]. by rewrite append_last_snoc.
Qed.

Lemma archive_entries_cons s base r rs :
  archive_entries s base (r :: rs) =
  match entry_content s base r with
  | Ok (Some c) => (rel_name r, c) :: archive_entries s base rs
  | _ => archive_entries s base rs
  end.
Proof. unfold archive_entries. simpl. by destruct (entry_content s base r) as [[]|]. Qed.

Lemma visit_all_zip s base q0 rs z :
  wf s -> Forall (fun r => res_ok (entry_content s base r) = true) rs ->
  visit_all (zip_visit base) (map (walk_entry (fsys s) q0) rs) (s, z) =
  (Ok tt, (s, mkZip (zw_entries z ++ archive_entries s base rs) (zw_closed z))).
Proof.
  intros Hwf Hrs. revert z. induction Hrs as [|r rs Hr Hrs IH]; intros z.
  { destruct z. cbn. by rewrite app_nil_r. }
  cbn [map visit_all walk_entry]. unfold st_bind at 1. rewrite zip_visit_step by done.
  rewrite archive_entries_cons.
  destruct (entry_content s base r) as [[c|]|e] eqn:Ec; [| |by simpl in Hr].
  - rewrite IH. cbn. by rewrite <- app_assoc.
  - by rewrite IH.
Qed.

Lemma visit_all_zip_err s base q0 pre r post e z :
  wf s -> Forall (fun r => res_ok (entry_content s base r) = true) pre ->
  entry_content s base r = Err e ->
  visit_all (zip_visit base) (map (walk_entry (fsys s) q0) (pre ++ r :: post)) (s, z) =
  (Err e, (s, mkZip (zw_entries z ++ archive_entries s base pre) (zw_closed z))).
Proof.
  intros Hwf Hpre Hr. rewrite map_app, visit_all_app by apply zip_visit_keeps.
  unfold st_bind. rewrite visit_all_zip by done.
  cbn [map visit_all walk_entry]. unfold st_bind. by rewrite zip_visit_step, Hr.
Qed.

(** ** The archive zipDirFull writes *)

Lemma zipDirFull_run s base q0 :
  wf s -> base <> "" -> has_suffix_slash base = false ->
  resolve s base = Ok q0 -> fsys s !! q0 = Some Dir ->
  zipDirFull base s =
  let '(r, (s', z)) := st_bind (visit_all (zip_visit base)
                                  (map (walk_entry (fsys s) q0) (walk_ref (fsys s) q0)))
                               (fun _ => zip_Close) (s, zip_new) in
  match r with Ok _ => (Ok z, s') | Err e => (Err e, s') end.
Proof.
  intros Hwf Hb Hsl Hq0 Hd0. unfold zipDirFull.
  by rewrite (st_bind_eq_l _ _ _ _ (WalkDir_lexical (zip_visit base) s base q0 zip_new
                                      (zip_visit_keeps base) Hwf Hb Hsl Hq0 Hd0)).
Qed.

(** C10: zipDirFull archives every non-empty file once, in walk order.
    When [basePath] resolves to a directory and every path below it
    resolves (no dangling link, no link cycle), [zipDirFull] leaves the
    file tree alone and writes a closed archive whose entries are the
    paths of the walk, in lexical order, that lead to a non-empty regular
    file, each under its walk name (the name of the link, not of its
    target) with the bytes of the file it leads to; directories, links to
    directories and empty files give no entry. *)
Theorem zipDirFull_archive s base q0 :
  wf s -> base <> "" -> has_suffix_slash base = false ->
  resolve s base = Ok q0 -> fsys s !! q0 = Some Dir ->
  Forall (fun r => res_ok (entry_content s base r) = true) (walk_ref (fsys s) q0) ->
  zipDirFull base s = (Ok (mkZip (archive_entries s base (walk_ref (fsys s) q0)) true), s).
Proof.
  intros Hwf Hb Hsl Hq0 Hd0 Hall. rewrite (zipDirFull_run s base q0) by done.
  unfold st_bind. by rewrite visit_all_zip.
Qed.





(** C11: a path that does not open aborts the whole archive.  When the
    walk reaches a path that fails to resolve (a dangling link, a cycle
    of links, which [os.Open] reports as [ELOOP] after 40 expansions),
    [zipDirFull] stops there with that error: no entry after it is
    visited, the archive is not closed, and the request fails. *)
Theorem zipDirFull_aborts s base q0 pre r post e :
  wf s -> base <> "" -> has_suffix_slash base = false ->
  resolve s base = Ok q0 -> fsys s !! q0 = Some Dir ->
  walk_ref (fsys s) q0 = pre ++ r :: post ->
  Forall (fun r => res_ok (entry_content s base r) = true) pre ->
  entry_content s base r = Err e ->
  zipDirFull base s = (Err e, s).
Proof.
  intros Hwf Hb Hsl Hq0 Hd0 Hw Hpre Hr. rewrite (zipDirFull_run s base q0) by done.
  rewrite Hw. unfold st_bind. by rewrite (visit_all_zip_err s base q0 pre r post e).
Qed.

(** ** The exports of the specification's examples *)

Definition example_kit : os :=
  mkOS {[ [] := Dir; ["srv"] := Dir; ["srv"; "bin"] := Dir;
          ["srv"; "bin"; "a.txt"] := File (list_byte_of_string "hello");
          ["srv"; "bin"; "link.txt"] := Symlink "a.txt";
          ["srv"; "bin"; "empty"] := File [];
          ["srv"; "bin"; "sub"] := Dir ]} ["srv"].

Definition example_loop : os :=
  mkOS {[ [] := Dir; ["srv"] := Dir; ["srv"; "bin"] := Dir;
          ["srv"; "bin"; "l1"] := Symlink "l2";
          ["srv"; "bin"; "l2"] := Symlink "l1" ]} ["srv"].

Lemma zipDirFull_archive_witness :
  archive_entries example_kit "bin" (walk_ref (fsys example_kit) ["srv"; "bin"]) =
    [("a.txt", list_byte_of_string "hello"); ("link.txt", list_byte_of_string "hello")] /\
  zipDirFull "bin" example_kit =
    (Ok (mkZip (archive_entries example_kit "bin" (walk_ref (fsys example_kit) ["srv"; "bin"])) true),
     example_kit).
Proof.
  split; [vm_compute; reflexivity|].
  apply zipDirFull_archive.
  - apply wf_by_check. vm_compute. reflexivity.
  - discriminate.
  - reflexivity.
  - vm_compute. reflexivity.
  - vm_compute. reflexivity.
  - apply Forall_by_forallb. vm_compute. reflexivity.
Defined.

Lemma zipDirFull_aborts_witness :
  walk_ref (fsys example_loop) ["srv"; "bin"] = [[]] ++ ["l1"] :: [["l2"]] /\
  zipDirFull "bin" example_loop = (Err ErrLoop, example_loop).
Proof.
  split; [vm_compute; reflexivity|].
  apply (zipDirFull_aborts example_loop "bin" ["srv"; "bin"] [[]] ["l1"] [["l2"]]).
  - apply wf_by_check. vm_compute. reflexivity.
  - discriminate.
  - reflexivity.
  - vm_compute. reflexivity.
  - vm_compute. reflexivity.
  - vm_compute. reflexivity.
  - apply Forall_by_forallb. vm_compute. reflexivity.
  - vm_compute. reflexivity.
Defined.

