(* ===== verification/Bufio.v ===== *)
(** * Bufio: Go's buffered writer

    [serveFiles] hands [zipDirFull] the writer [bufio.NewWriter(w)] and
    never calls its [Flush]; [archive/zip.Writer] itself writes through a
    second [bufio.Writer] of its own, which its [Close] flushes.  This
    file models [bufio.Writer] as Go's [bufio.go] writes it ([Write],
    [Flush], [Available], [Buffered]) over any writer, and proves:

    - no byte is lost, duplicated or reordered: what reached the
      underlying writer followed by the buffer is everything written
      ([bufio_Write_contents]);
    - the loop of [Write] ends and the buffer never holds more than its
      size ([bufio_Write_bound]);
    - a write of at most the buffer's size leaves its last byte in the
      buffer ([bufio_Write_keeps_tail]): until [Flush], the reader of
      the underlying writer does not see it.

    Writers are the class [Writer]: a state, a [Write] that never fails
    (an HTTP response body, or a buffered writer on one) and the bytes
    written so far, with the law that writing appends. *)

From stdpp Require Import base list.
From Stdlib Require Import Strings.Byte.
From S2P Require Import Prelude.

Local Open Scope list_scope.

Class Writer (U : Type) := {
  w_write : U -> list Byte.byte -> U;
  w_contents : U -> list Byte.byte;
  w_write_contents u p : w_contents (w_write u p) = w_contents u ++ p
}.

(** The body of an HTTP response: the bytes sent so far. *)
#[export] Instance body_writer : Writer (list Byte.byte) := {
  w_write u p := u ++ p;
  w_contents u := u;
  w_write_contents u p := eq_refl
}.

(** [defaultBufSize]. *)
Definition defaultBufSize : nat := 4096.

Section Bufio.
Context {U : Type} `{Writer U}.

(** [bufio.Writer]: the buffer ([buf[0:n]]), its size ([len(buf)]) and
    the writer below.  The writer below never fails, so [err] stays
    [nil]. *)
Record bufio := mkBufio {
  bw_size : nat;
  bw_buf : list Byte.byte;
  bw_wr : U
}.

(** [bufio.NewWriterSize(w, size)]: a size that is not positive means
    [defaultBufSize]. *)
Definition NewWriterSize (w : U) (size : nat) : bufio :=
  mkBufio (if Nat.eqb size 0 then defaultBufSize else size) [] w.

(** [bufio.NewWriter(w)]. *)
Definition NewWriter (w : U) : bufio := NewWriterSize w defaultBufSize.

Definition Available (b : bufio) : nat := bw_size b - List.length (bw_buf b).

Definition Buffered (b : bufio) : nat := List.length (bw_buf b).

(** [b.Flush()]: nothing to do when the buffer is empty. *)
Definition Flush (b : bufio) : bufio :=
  if Nat.eqb (Buffered b) 0 then b
  else mkBufio (bw_size b) [] (w_write (bw_wr b) (bw_buf b)).

(** The [for len(p) > b.Available()] loop of [b.Write(p)]: with an empty
    buffer, [p] goes straight to the writer below; otherwise the buffer is
    filled ([copy(b.buf[b.n:], p)] copies [Available] bytes, as [p] is
    longer) and flushed.  It returns the buffer, what is left of [p] and
    the count [nn]. *)
Fixpoint write_loop (fuel : nat) (b : bufio) (p : list Byte.byte) (nn : nat) :
    bufio * list Byte.byte * nat :=
  match fuel with
  | O => (b, p, nn)
  | S f =>
      if Nat.ltb (Available b) (List.length p) then
        if Nat.eqb (Buffered b) 0 then
          write_loop f (mkBufio (bw_size b) (bw_buf b) (w_write (bw_wr b) p)) [] (nn + List.length p)
        else
          let n := Available b in
          write_loop f (Flush (mkBufio (bw_size b) (bw_buf b ++ take n p) (bw_wr b)))
                     (drop n p) (nn + n)
      else (b, p, nn)
  end.

(** [b.Write(p)]: after the loop, the rest of [p] fits and is copied
    into the buffer.  The loop runs at most [2 * len(p) + 1] times
    ([write_loop_done]); the fuel is one more. *)
Definition bufio_Write (b : bufio) (p : list Byte.byte) : bufio * nat :=
  let '(b1, p1, nn) := write_loop (2 * List.length p + 2) b p 0 in
  (mkBufio (bw_size b1) (bw_buf b1 ++ p1) (bw_wr b1), nn + List.length p1).

(** The buffer's invariant: Go allocates [size] bytes and [n <= size]. *)
Definition bufio_ok (b : bufio) : Prop :=
  0 < bw_size b /\ List.length (bw_buf b) <= bw_size b.

End Bufio.

Arguments bufio U : clear implicits.

(** ** No byte lost or reordered *)
Section Contents.
Context {U : Type} `{Writer U}.

Definition bufio_contents (b : bufio U) : list Byte.byte := w_contents (bw_wr b) ++ bw_buf b.

Lemma Flush_contents b : bufio_contents (Flush b) = bufio_contents b.
Proof.
  unfold Flush, Buffered, bufio_contents. destruct (Nat.eqb_spec (List.length (bw_buf b)) 0) as [E|E].
  - done.
  - cbn [bw_wr bw_buf]. by rewrite w_write_contents, app_nil_r.
Qed.

Lemma write_loop_contents fuel b p nn :
  let '(b1, p1, _) := write_loop fuel b p nn in
  bufio_contents b1 ++ p1 = bufio_contents b ++ p /\ bw_size b1 = bw_size b.
Proof.
  revert b p nn. induction fuel as [|f IH]; intros b p nn; [done|]. cbn [write_loop].
  destruct (Nat.ltb _ _); [|done].
  destruct (Nat.eqb (Buffered b) 0) eqn:Hb.
  - specialize (IH (mkBufio (bw_size b) (bw_buf b) (w_write (bw_wr b) p)) [] (nn + List.length p)).
    destruct (write_loop _ _ _ _) as [[b1 p1] nn1]. destruct IH as [IH1 IH2]. rewrite IH1, IH2.
    unfold bufio_contents, Buffered in *. cbn [bw_wr bw_buf bw_size].
    apply Nat.eqb_eq, nil_length_inv in Hb. rewrite Hb, w_write_contents. by rewrite !app_nil_r.
  - match goal with |- context [write_loop f ?b' ?p' ?n'] => specialize (IH b' p' n') end.
    destruct (write_loop _ _ _ _) as [[b1 p1] nn1]. destruct IH as [IH1 IH2]. rewrite IH1, IH2.
    rewrite Flush_contents. unfold Flush, Buffered. unfold bufio_contents. cbn [bw_wr bw_buf bw_size].
    split; [by rewrite <- !app_assoc, take_drop|].
    by case_match.
Qed.

(** The contents law of a buffered writer: what reached the writer
    below, then the buffer, is what was there before followed by [p]. *)
Lemma bufio_Write_contents b p :
  bufio_contents (bufio_Write b p).1 = bufio_contents b ++ p.
Proof.
  unfold bufio_Write. pose proof (write_loop_contents (2 * List.length p + 2) b p 0) as Hl.
  destruct (write_loop _ _ _ _) as [[b1 p1] nn1]. destruct Hl as [Hl _].
  unfold bufio_contents in *. cbn. by rewrite app_assoc.
Qed.

End Contents.

(** A buffered writer is a writer: the bytes it holds count as written. *)
#[export] Instance bufio_writer {U} `{Writer U} : Writer (bufio U) := {
  w_write b p := (bufio_Write b p).1;
  w_contents := bufio_contents;
  w_write_contents := bufio_Write_contents
}.

(** ** The loop ends; the buffer keeps its size *)
Section Bound.
Context {U : Type} `{Writer U}.

(** Each round of the loop either empties [p] or copies a byte of it,
    except a round on a full buffer, which only flushes it; so
    [2 * len(p) + 1] rounds, one more when the buffer starts full, end
    the loop. *)
Lemma write_loop_done fuel (b : bufio U) p nn :
  bufio_ok b ->
  2 * List.length p + (if Nat.eqb (Available b) 0 then 1 else 0) < fuel ->
  let '(b1, p1, nn1) := write_loop fuel b p nn in
  bufio_ok b1 /\ List.length p1 <= Available b1 /\ nn1 + List.length p1 = nn + List.length p.
Proof.
  revert b p nn. induction fuel as [|f IH]; intros b p nn [Hs Hn] Hf; [lia|]. cbn [write_loop].
  unfold Available, Buffered in *.
  destruct (Nat.ltb_spec (bw_size b - List.length (bw_buf b)) (List.length p)) as [Hlt|Hge];
    [|unfold bufio_ok; lia].
  destruct (Nat.eqb_spec (List.length (bw_buf b)) 0) as [H0|H0].
  - pose proof (IH (mkBufio (bw_size b) (bw_buf b) (w_write (bw_wr b) p)) [] (nn + List.length p))
      as IH'.
    destruct (write_loop _ _ _ _) as [[b1 p1] nn1].
    destruct IH' as (Hok1 & Hp1 & Hnn1); [unfold bufio_ok; cbn [bw_size bw_buf]; lia|
      cbn [List.length bw_size bw_buf]; destruct (Nat.eqb_spec (bw_size b - List.length (bw_buf b)) 0); lia|].
    split_and!; [done|done|cbn [List.length] in Hnn1; lia].
  - set (n := bw_size b - List.length (bw_buf b)).
    assert (Hfl : Flush (mkBufio (bw_size b) (bw_buf b ++ take n p) (bw_wr b)) =
                  mkBufio (bw_size b) [] (w_write (bw_wr b) (bw_buf b ++ take n p))).
    { unfold Flush, Buffered. cbn [bw_buf]. rewrite length_app.
      destruct (Nat.eqb_spec (List.length (bw_buf b) + List.length (take n p)) 0); [lia|done]. }
    rewrite Hfl. pose proof (IH (mkBufio (bw_size b) [] (w_write (bw_wr b) (bw_buf b ++ take n p)))
                              (drop n p) (nn + n)) as IH'.
    destruct (write_loop _ _ _ _) as [[b1 p1] nn1].
    rewrite length_drop in IH'.
    destruct IH' as (Hok1 & Hp1 & Hnn1); [unfold bufio_ok; cbn [bw_size bw_buf List.length]; lia|
      cbn [bw_size bw_buf List.length];
      revert Hf; unfold n; destruct (Nat.eqb_spec (bw_size b - List.length (bw_buf b)) 0);
      destruct (Nat.eqb_spec (bw_size b - 0) 0); lia|].
    split_and!; [done|done|lia].
Qed.

(** [b.Write(p)] ends with a buffer no longer than its size and reports
    [len(p)] bytes written. *)
Lemma bufio_Write_bound (b : bufio U) p :
  bufio_ok b ->
  bufio_ok (bufio_Write b p).1 /\ (bufio_Write b p).2 = List.length p /\
  bw_size (bufio_Write b p).1 = bw_size b.
Proof.
  intros Hok. unfold bufio_Write.
  pose proof (write_loop_done (2 * List.length p + 2) b p 0 Hok) as Hd.
  pose proof (write_loop_contents (2 * List.length p + 2) b p 0) as Hc.
  destruct (write_loop _ _ _ _) as [[b1 p1] nn1]. destruct Hc as [_ Hsz].
  destruct Hd as ([Hs Hn] & Hp & Hnn); [destruct (Nat.eqb _ 0); lia|].
  unfold bufio_ok, Available in *. cbn. rewrite length_app. split_and!; lia.
Qed.

(** A write of at most the buffer's size that the buffer cannot take
    whole fills and flushes the buffer once and keeps the rest of [p]: a
    non-empty end of [p] stays in the buffer. *)
Lemma write_loop_tail fuel (b : bufio U) p nn :
  bufio_ok b -> p <> [] -> List.length p <= bw_size b ->
  let '(b1, p1, _) := write_loop fuel b p nn in p1 <> [] /\ p1 `suffix_of` p.
Proof.
  revert b p nn. induction fuel as [|f IH]; intros b p nn [Hs Hn] Hp Hle; [done|]. cbn [write_loop].
  unfold Available, Buffered.
  destruct (Nat.ltb_spec (bw_size b - List.length (bw_buf b)) (List.length p)) as [Hlt|Hge]; [|done].
  destruct (Nat.eqb_spec (List.length (bw_buf b)) 0) as [H0|H0]; [lia|].
  set (n := bw_size b - List.length (bw_buf b)).
  assert (Hd : drop n p <> []) by (intros Hd; apply (f_equal List.length) in Hd;
                                  rewrite length_drop in Hd; simpl in Hd; lia).
  specialize (IH (Flush (mkBufio (bw_size b) (bw_buf b ++ take n p) (bw_wr b))) (drop n p) (nn + n)).
  destruct (write_loop _ _ _ _) as [[b1 p1] nn1].
  assert (Hfs : bw_size (Flush (mkBufio (bw_size b) (bw_buf b ++ take n p) (bw_wr b))) = bw_size b)
    by (unfold Flush; by case_match).
  assert (Hfb : bw_buf (Flush (mkBufio (bw_size b) (bw_buf b ++ take n p) (bw_wr b))) = []).
  { unfold Flush, Buffered. cbn [bw_buf]. rewrite length_app.
    destruct (Nat.eqb_spec (List.length (bw_buf b) + List.length (take n p)) 0); [lia|done]. }
  destruct IH as [IH1 IH2]; [unfold bufio_ok; rewrite Hfs, Hfb; simpl; lia|done|
                            rewrite Hfs, length_drop; lia|].
  split; [done|]. etrans; [exact IH2|apply suffix_drop].
Qed.

Lemma last_suffix (l k : list Byte.byte) : l <> [] -> l `suffix_of` k -> last k = last l.
Proof. intros Hl [j ->]. destruct l as [|x l] using rev_ind; [done|]. by rewrite app_assoc, !last_snoc. Qed.

(** The last byte of a write of at most the buffer's size stays in the
    buffer: the writer below has not received it. *)
Lemma bufio_Write_keeps_tail (b : bufio U) p :
  bufio_ok b -> p <> [] -> List.length p <= bw_size b ->
  last (bw_buf (bufio_Write b p).1) = last p.
Proof.
  intros Hok Hp Hle. unfold bufio_Write.
  pose proof (write_loop_tail (2 * List.length p + 2) b p 0 Hok Hp Hle) as Ht.
  destruct (write_loop _ _ _ _) as [[b1 p1] nn1]. destruct Ht as [Hp1 Hsuf]. cbn [fst bw_buf].
  rewrite (last_suffix p1 p) by done.
  destruct p1 as [|x p1] using rev_ind; [done|]. by rewrite app_assoc, !last_snoc.
Qed.

End Bound.

(** ** Invariants of the writer below *)
Section Below.
Context {U : Type} `{Writer U} (P : U -> Prop).
Hypothesis HP : forall u p, P u -> P (w_write u p).

Lemma Flush_below (b : bufio U) : P (bw_wr b) -> P (bw_wr (Flush b)).
Proof. intros Hb. unfold Flush. case_match; [done|]. by apply HP. Qed.

Lemma write_loop_below fuel (b : bufio U) p nn :
  P (bw_wr b) -> P (bw_wr (write_loop fuel b p nn).1.1).
Proof.
  revert b p nn. induction fuel as [|f IH]; intros b p nn Hb; [done|]. cbn [write_loop].
  repeat case_match; try done; apply IH; [by apply HP|by apply Flush_below].
Qed.

Lemma bufio_Write_below (b : bufio U) p : P (bw_wr b) -> P (bw_wr (bufio_Write b p).1).
Proof.
  intros Hb. unfold bufio_Write. pose proof (write_loop_below (2 * List.length p + 2) b p 0 Hb).
  by destruct (write_loop _ _ _ _) as [[b1 p1] nn1].
Qed.
End Below.

(** A sequence of writes on a buffered writer keeps its invariant, its
    size and the writer below's invariant, and appends their bytes. *)
Lemma fold_write {U} `{Writer U} (P : U -> Prop) (ws : list (list Byte.byte)) (b : bufio U) :
  (forall u p, P u -> P (w_write u p)) -> bufio_ok b -> P (bw_wr b) ->
  let b' := fold_left (fun b c => (bufio_Write b c).1) ws b in
  bufio_ok b' /\ P (bw_wr b') /\ bw_size b' = bw_size b /\
  bufio_contents b' = bufio_contents b ++ List.concat ws.
Proof.
  intros HP. revert b. induction ws as [|c ws IH]; intros b Hok Hb; cbn [fold_left List.concat].
  { by rewrite app_nil_r. }
  destruct (bufio_Write_bound b c Hok) as (Hok' & _ & Hsz).
  destruct (IH _ Hok' (bufio_Write_below P HP b c Hb)) as (? & ? & Hs & Hc).
  split_and!; [done|done|by rewrite Hs, Hsz|]. by rewrite Hc, bufio_Write_contents, app_assoc.
Qed.
