(* ===== verification/Redkit.v ===== *)
(** * Redkit: the kit server of [src/cmd/redkit/main.go]

    [serveFiles] answers [GET /kit/<name>]: it lists the kits directory
    (the flag [--kits], default [kits]), finds the entry called [<name>],
    checks that [<kits>/<name>/bin] exists and streams the archive of that
    directory ([zipDirFull]) into [bufio.NewWriter(w)].

    The byte encoding of [archive/zip] is a parameter of the section: the
    list of writes [zip.Writer] makes on its own buffered writer for the
    entries of an archive, its [Close] included.  The only fact used about
    it is the one [archive/zip]'s [Close] guarantees: its last write is
    the end-of-central-directory record, non-empty and shorter than a
    buffer (22 bytes without comment).

    A panic of the handler ([Unwrap], [Check], an index out of range) is
    the outcome [KitPanic]: net/http recovers it and drops the response.
    [log.Fatal] ends the process: [KitFatal].  The [results] package that
    provides [Try], [Catch] and [Unwrap] is not in the repository; the
    model takes [Unwrap] to panic on an error no [Catch] handled, and the
    [ErrNotExist] handler ends the process with [log.Fatal]. *)

From stdpp Require Import base list gmap strings.
From Stdlib Require Import Ascii String.
From S2P Require Import Prelude GoPath OsFs OsRead Archive Bufio.

Local Open Scope string_scope.
Local Open Scope list_scope.

Inductive kit_response :=
| KitStatus (code : nat)
| KitError (e : go_error)
| KitBody (body : list Byte.byte)
| KitPanic
| KitFatal.

(** The bytes that reach [w] when [zip.Writer] makes the writes [ws] on
    its buffered writer, which writes into [bufio.NewWriter(w)]: the
    writer of [zip.Writer] is flushed by its [Close]; the one of
    [serveFiles] never is. *)
Definition deliver (ws : list (list Byte.byte)) : list Byte.byte :=
  let outer := NewWriter ([] : list Byte.byte) in
  let inner := fold_left (fun b c => (bufio_Write b c).1) ws (NewWriter outer) in
  bw_wr (bw_wr (Flush inner)).

Section Serve.
Variable zip_encode : list (string * list Byte.byte) -> list (list Byte.byte).
Variable kitsDir : string.

(** [serveFiles] (main.go, lines 35-98) on a request with method
    [r_method] and URL path [r_path]. *)
Definition serveFiles (r_method r_path : string) (s : os) : kit_response * os :=
  if negb (String.eqb r_method "GET") then (KitStatus 405, s) else
  let requestPath := split_slash r_path in
  match nth_error requestPath 1 with
  | None => (KitPanic, s)
  | Some seg =>
      if negb (String.eqb seg "kit") then (KitStatus 404, s) else
      match os_ReadDir kitsDir s with
      | (Err ErrNotExist, s1) => (KitFatal, s1)
      | (Err _, s1) => (KitPanic, s1)
      | (Ok subDirs, s1) =>
          match nth_error requestPath 2 with
          | None => (KitStatus 404, s1)
          | Some requestedKit =>
              match List.find (fun d => String.eqb (de_name d) requestedKit) subDirs with
              | None => (KitStatus 404, s1)
              | Some kitDir =>
                  let binPath := path_join [kitsDir; de_name kitDir; "bin"] in
                  match os_Stat binPath s1 with
                  | (Err e, s2) => (KitError e, s2)
                  | (Ok _, s2) =>
                      match zipDirFull binPath s2 with
                      | (Err _, s3) => (KitPanic, s3)
                      | (Ok z, s3) => (KitBody (deliver (zip_encode (zw_entries z))), s3)
                      end
                  end
              end
          end
      end
  end.
End Serve.

(** ** The body of an archive response misses its end *)

Lemma bufio_ok_w_write (u : bufio (list Byte.byte)) p : bufio_ok u -> bufio_ok (w_write u p).
Proof. intros Hu. by apply bufio_Write_bound. Qed.

Lemma bw_size_w_write (u : bufio (list Byte.byte)) p : bufio_ok u -> bw_size (w_write u p) = bw_size u.
Proof. intros Hu. by apply bufio_Write_bound. Qed.

(** When the last write of [zip.Writer] is non-empty and fits a buffer,
    some non-empty end of the archive never reaches [w]. *)
Lemma deliver_truncated ws c :
  c <> [] -> List.length c <= defaultBufSize ->
  exists tail, tail <> [] /\ deliver (ws ++ [c]) ++ tail = List.concat (ws ++ [c]).
Proof.
  intros Hc Hlen. unfold deliver. rewrite fold_left_app. cbn [fold_left].
  set (outer := NewWriter ([] : list Byte.byte)).
  assert (Hout : bufio_ok outer /\ bw_size outer = defaultBufSize) by (by split; [split; vm_compute; lia|]).
  destruct (fold_write (fun u => bufio_ok u /\ bw_size u = defaultBufSize) ws (NewWriter outer))
    as (Hok1 & [Hw1 Hsz1] & Hs1 & Hc1).
  { intros u p [Hu Hs]. split; [by apply bufio_ok_w_write|by rewrite bw_size_w_write]. }
  { split; vm_compute; lia. }
  { done. }
  set (b1 := fold_left _ ws (NewWriter outer)) in *.
  set (b2 := (bufio_Write b1 c).1).
  assert (Hb2 : last (bw_buf b2) = last c) by (apply bufio_Write_keeps_tail; [done|done|rewrite Hs1; done]).
  assert (Hne : bw_buf b2 <> []) by (intros E; rewrite E in Hb2; destruct c using rev_ind; [done|];
                                     by rewrite last_snoc in Hb2).
  destruct (bufio_Write_bound b1 c Hok1) as (Hok2 & _ & Hs2).
  pose proof (bufio_Write_below (fun u => bufio_ok u /\ bw_size u = defaultBufSize)
                (fun u p '(conj Hu Hs) => conj (bufio_ok_w_write u p Hu) (eq_trans (bw_size_w_write u p Hu) Hs))
                b1 c (conj Hw1 Hsz1)) as [Hw2 Hsz2].
  fold b2 in Hw2, Hsz2.
  assert (Hfl : Flush b2 = mkBufio (bw_size b2) [] (w_write (bw_wr b2) (bw_buf b2))).
  { unfold Flush, Buffered. destruct (Nat.eqb_spec (List.length (bw_buf b2)) 0) as [E|]; [|done].
    by apply nil_length_inv in E. }
  rewrite Hfl. cbn [bw_wr]. set (o3 := w_write (bw_wr b2) (bw_buf b2)).
  assert (Hlast : last (bw_buf o3) = last (bw_buf b2)).
  { apply bufio_Write_keeps_tail; [done|done|]. rewrite Hsz2.
    destruct Hok2 as [_ Hle]. by rewrite Hs2, Hs1 in Hle. }
  exists (bw_buf o3). split.
  - intros E. rewrite E in Hlast. destruct (bw_buf b2) using rev_ind; [done|]. by rewrite last_snoc in Hlast.
  - change (bufio_contents o3 = List.concat (ws ++ [c])).
    unfold o3. change (w_contents (w_write (bw_wr b2) (bw_buf b2)) = List.concat (ws ++ [c])).
    rewrite w_write_contents. change (bufio_contents b2 = List.concat (ws ++ [c])).
    unfold b2. rewrite bufio_Write_contents, Hc1. rewrite List.concat_app. cbn [List.concat].
    by rewrite app_nil_r.
Qed.

(** ** What serveFiles answers *)

Lemma find_entry m q kit d :
  List.find (fun d => String.eqb (de_name d) kit) (read_dir_at m q) = Some d ->
  de_name d = kit /\ is_Some (m !! (q ++ [kit])).
Proof.
  intros (Hin & Heq)%List.find_some. apply String.eqb_eq in Heq. subst kit. split; [done|].
  unfold read_dir_at in Hin. apply in_map_iff in Hin as (x & <- & Hx).
  apply sorted_children_spec, list_elem_of_In, Hx.
Qed.

(** An archive answer comes from a GET whose third path element names an
    entry of the kits directory, and is what the two buffered writers let
    through of the archive of [<kits>/<name>/bin]. *)
Lemma serveFiles_body zip_encode kitsDir m p s body s' :
  serveFiles zip_encode kitsDir m p s = (KitBody body, s') ->
  m = "GET" /\
  exists q kit z, resolve s kitsDir = Ok q /\ nth_error (split_slash p) 2 = Some kit /\
    is_Some (fsys s !! (q ++ [kit])) /\
    zipDirFull (path_join [kitsDir; kit; "bin"]) s = (Ok z, s') /\
    body = deliver (zip_encode (zw_entries z)).
Proof.
  unfold serveFiles. destruct (String.eqb_spec m "GET") as [->|]; [|done]. cbn [negb].
  destruct (nth_error (split_slash p) 1) as [seg|]; [|done].
  destruct (String.eqb seg "kit"); [|done]. cbn [negb].
  unfold os_ReadDir. destruct (resolve s kitsDir) as [q|e] eqn:Hq; [|by destruct e].
  destruct (fsys s !! q) as [[]|]; try done.
  destruct (nth_error (split_slash p) 2) as [kit|]; [|done].
  destruct (List.find _ _) as [d|] eqn:Hd; [|done].
  destruct (find_entry _ _ _ _ Hd) as [Hn Hk]. rewrite Hn.
  unfold os_Stat. destruct (resolve s (path_join [kitsDir; kit; "bin"])) as [q'|e]; [|done].
  destruct (fsys s !! q'); [|done].
  destruct (zipDirFull _ s) as [[z|e] s3] eqn:Hz; [|done]. intros [= <- <-].
  split; [done|]. by exists q, kit, z.
Qed.

(** C12: serveFiles exports only the bin directory of a listed kit.  An
    archive answer comes from a GET request whose third path element is
    the name of an entry of the kits directory (in a well-formed tree, a
    normal name: never [..], never a path), and carries what the writers
    let through of the archive [zipDirFull] builds from
    [path.Join(kitsDir, name, "bin")]. *)
Theorem serveFiles_exports_listed_kit zip_encode kitsDir m p s body s' :
  wf s -> serveFiles zip_encode kitsDir m p s = (KitBody body, s') ->
  m = "GET" /\
  exists q kit z, resolve s kitsDir = Ok q /\ nth_error (split_slash p) 2 = Some kit /\
    normal_name kit /\ is_Some (fsys s !! (q ++ [kit])) /\
    zipDirFull (path_join [kitsDir; kit; "bin"]) s = (Ok z, s') /\
    body = deliver (zip_encode (zw_entries z)).
Proof.
  intros Hwf Hs. destruct (serveFiles_body _ _ _ _ _ _ _ Hs) as (-> & q & kit & z & Hq & Hk & Hkey & Hz & Hb).
  split; [done|]. exists q, kit, z. split_and!; try done.
  destruct Hkey as [n Hn]. apply (wf_names s Hwf) in Hn. apply Forall_app in Hn as [_ Hn].
  by inversion Hn.
Qed.

(** C13: the archive a client receives is cut short.  [serveFiles] gives
    [zipDirFull] the writer [bufio.NewWriter(w)] and never flushes it.
    Since the last write of [zip.Writer] (its end-of-central-directory
    record, flushed by its [Close]) is non-empty and fits a buffer, a
    non-empty end of every archive stays in that buffer: the body the
    client receives is a strict prefix of the archive. *)
Theorem serveFiles_body_truncated zip_encode kitsDir m p s body s' :
  (forall es, exists ws c, zip_encode es = ws ++ [c] /\ c <> [] /\ List.length c <= defaultBufSize) ->
  serveFiles zip_encode kitsDir m p s = (KitBody body, s') ->
  exists kit z tail, zipDirFull (path_join [kitsDir; kit; "bin"]) s = (Ok z, s') /\
    tail <> [] /\ body ++ tail = List.concat (zip_encode (zw_entries z)).
Proof.
  intros Henc Hs. destruct (serveFiles_body _ _ _ _ _ _ _ Hs) as (_ & q & kit & z & _ & _ & _ & Hz & ->).
  destruct (Henc (zw_entries z)) as (ws & c & Hws & Hc & Hlen).
  destruct (deliver_truncated ws c Hc Hlen) as (tail & Ht & Hd).
  exists kit, z, tail. split_and!; [done|done|]. by rewrite Hws.
Qed.

(** C14: a missing kits directory ends the whole server.  A GET request
    under [/kit/] when the kits directory does not exist reaches the
    [Catch(os.ErrNotExist, ...)] handler, which calls [log.Fatal]: the
    process exits, whatever the request. *)
Theorem serveFiles_missing_kits_fatal zip_encode kitsDir p s :
  nth_error (split_slash p) 1 = Some "kit" -> resolve s kitsDir = Err ErrNotExist ->
  serveFiles zip_encode kitsDir "GET" p s = (KitFatal, s).
Proof.
  intros Hp Hk. unfold serveFiles. cbn [String.eqb negb Ascii.eqb Bool.eqb]. rewrite Hp.
  cbn [String.eqb negb Ascii.eqb Bool.eqb]. unfold os_ReadDir. by rewrite Hk.
Qed.

(** ** A server with one kit *)

(** An archive encoding with the property [archive/zip] guarantees: one
    write per entry and a final 22-byte record. *)
Definition example_zip (es : list (string * list Byte.byte)) : list (list Byte.byte) :=
  map (fun e => list_byte_of_string e.1 ++ e.2) es ++ [replicate 22 Byte.x50].

Lemma example_zip_end es :
  exists ws c, example_zip es = ws ++ [c] /\ c <> [] /\ List.length c <= defaultBufSize.
Proof. eexists _, _. split_and!; [reflexivity|done|rewrite length_replicate; unfold defaultBufSize; lia]. Qed.

Definition example_kits : os :=
  mkOS {[ [] := Dir; ["srv"] := Dir; ["srv"; "kits"] := Dir; ["srv"; "kits"; "linux"] := Dir;
          ["srv"; "kits"; "linux"; "bin"] := Dir;
          ["srv"; "kits"; "linux"; "bin"; "a.txt"] := File (list_byte_of_string "hello") ]} ["srv"].

Lemma serveFiles_exports_listed_kit_witness :
  serveFiles example_zip "kits" "GET" "/kit/linux" example_kits = (KitBody [], example_kits) /\
  "GET" = "GET" /\
  exists q kit z, resolve example_kits "kits" = Ok q /\ nth_error (split_slash "/kit/linux") 2 = Some kit /\
    normal_name kit /\ is_Some (fsys example_kits !! (q ++ [kit])) /\
    zipDirFull (path_join ["kits"; kit; "bin"]) example_kits = (Ok z, example_kits) /\
    [] = deliver (example_zip (zw_entries z)).
Proof.
  assert (H : serveFiles example_zip "kits" "GET" "/kit/linux" example_kits = (KitBody [], example_kits))
    by (vm_compute; reflexivity).
  split; [exact H|].
  apply (serveFiles_exports_listed_kit example_zip "kits" "GET" "/kit/linux" example_kits [] example_kits).
  - apply wf_by_check. vm_compute. reflexivity.
  - exact H.
Defined.

Lemma serveFiles_body_truncated_witness :
  exists kit z tail, zipDirFull (path_join ["kits"; kit; "bin"]) example_kits = (Ok z, example_kits) /\
    tail <> [] /\ [] ++ tail = List.concat (example_zip (zw_entries z)).
Proof.
  apply (serveFiles_body_truncated example_zip "kits" "GET" "/kit/linux" example_kits [] example_kits).
  - apply example_zip_end.
  - vm_compute. reflexivity.
Defined.

Lemma serveFiles_missing_kits_fatal_witness :
  serveFiles example_zip "nokits" "GET" "/kit/linux" example_kits = (KitFatal, example_kits).
Proof.
  apply serveFiles_missing_kits_fatal.
  - reflexivity.
  - vm_compute. reflexivity.
Defined.
