(* ===== verification/Chroot.v ===== *)
(** * Chroot: the package [src/pkg/chroot]

    [chroot.New(dirpath)] creates the root directory (an existing one is
    fine) and returns a [FileSystem] holding the root's name, its
    [os.DirFS] ([Root]), a logger and a verbosity; [CreateFile] creates (or
    truncates) [path.Join(root, filepath)]; [CreateDirectory] calls
    [os.MkdirAll] on [path.Join(root, dirpath)].  A panic ([Unwrap],
    [panic(err)]) is an [Err].  The interface [FS] of [fs.go] is the class
    [FS], which [os.DirFS] implements ([dirFS_FS]); the logger only records
    what [log.New] was given, since nothing in the package writes to it.
    [os.MkdirAll] is modelled as Go's [os/path.go] writes it: the [Stat]
    fast path, the backward scans that find the parent, the recursion on
    the parent, [Mkdir] and the [Lstat] check of a failed [Mkdir].
    Theorems: [MkdirAll] terminates ([mkdir_all_fuel]); C15, C16, C17
    and C18 on the package's operations; C21 reads a created file back
    through [Root];
    C26 says when the package's test [TestNew] ([chroot_test.go]) passes. *)

From stdpp Require Import base list gmap strings.
From Stdlib Require Import Ascii String ZArith.
From S2P Require Import Prelude GoPath OsFs OsRead Confinement Upload.

Local Open Scope string_scope.
Local Open Scope list_scope.
Local Open Scope go_scope.

(** ** os.MkdirAll *)

Definition is_sep (c : ascii) : bool := Ascii.eqb c "/".

Fixpoint drop_while (f : ascii -> bool) (l : list ascii) : list ascii :=
  match l with
  | [] => []
  | c :: l' => if f c then drop_while f l' else l
  end.

(** [path[:k]] where [k] is where a backward scan over characters
    satisfying [f] stops. *)
Definition scan_back (f : ascii -> bool) (l : list ascii) : list ascii :=
  rev (drop_while f (rev l)).

(** [i] skips the trailing separators, [j] the last element; the parent
    [path[:j-1]] is made first when [j > 1] (a rooted path has no parent
    to make below [/]). *)
Definition mkdirall_parent (path : string) : option string :=
  let cs := list_ascii_of_string path in
  let i := scan_back is_sep cs in
  let j := scan_back (fun c => negb (is_sep c)) i in
  if Nat.ltb 1 (List.length j) then Some (string_of_list_ascii (take (List.length j - 1) cs))
  else None.

(** The body of [MkdirAll], with fuel for the recursion on the parent:
    the parent is shorter, so the length of the path is enough. *)
Fixpoint mkdir_all (fuel : nat) (path : string) : St os unit :=
  match fuel with
  | O => st_fail ErrInvalid
  | S f => fun s =>
      match os_Stat path s with
      | (Ok dir, s1) => if fi_is_dir dir then (Ok tt, s1) else (Err ErrNotDir, s1)
      | (Err _, s1) =>
          (match mkdirall_parent path with
           | Some parent => mkdir_all f parent
           | None => st_ret tt
           end ;;
           fun s2 =>
             match os_mkdir path s2 with
             | (Ok _, s3) => (Ok tt, s3)
             | (Err e, s3) =>
                 match os_Lstat path s3 with
                 | (Ok dir, s4) => if fi_is_dir dir then (Ok tt, s4) else (Err e, s4)
                 | (Err _, s4) => (Err e, s4)
                 end
             end) s1
      end
  end.

Definition MkdirAll (path : string) : St os unit := mkdir_all (S (String.length path)) path.

(** ** The package *)

(** [chroot.LogVerbosity] and its constants (chroot.go, lines 26-32). *)
Inductive LogVerbosity := DEFAULT | INFO | DEBUG.

(** [log.New(out, prefix, flag)]: a logger is its output, its prefix and
    its flags; [log.LstdFlags] is [Ldate | Ltime]. *)
Definition Ldate : Z := 1.
Definition Ltime : Z := 2.
Definition LstdFlags : Z := Z.lor Ldate Ltime.

Record logger := mkLogger { log_out : string; log_prefix : string; log_flag : Z }.

Definition log_New (out prefix : string) (flag : Z) : logger := mkLogger out prefix flag.

(** [chroot.FileSystem] (chroot.go, lines 14-24).  The methods use
    [rootName]; [Root] is the [os.DirFS] of the root. *)
Record FileSystem := mkFileSystem {
  Root : dirFS;
  Logger : logger;
  Verbosity : LogVerbosity;
  rootName : string
}.

(** The value [New] returns (lines 40-47). *)
Definition new_FileSystem (dirpath : string) : FileSystem :=
  mkFileSystem (os_DirFS dirpath) (log_New "stdout" "CHROOT" LstdFlags) DEFAULT dirpath.

(** [chroot.FS] (fs.go): [fs.ReadDirFS] and [fs.ReadFileFS], both of which
    embed [fs.FS] and its [Open]. *)
Class FS (F : Type) := {
  Open : F -> string -> St os go_file;
  ReadDir : F -> string -> St os (list dir_entry);
  ReadFile : F -> string -> St os (list Byte.byte)
}.

(** [os.DirFS] implements it: each method joins the name to the root
    ([dirFS.join]) and calls [os.Open], [os.ReadDir] or [os.ReadFile]. *)
#[export] Instance dirFS_FS : FS dirFS := {
  Open d name := dirfs_call os_Open (dirfs_root d) name;
  ReadDir d name := dirfs_call os_ReadDir (dirfs_root d) name;
  ReadFile d name := dirfs_call os_ReadFile (dirfs_root d) name
}.

(** [chroot.New(dirpath)] (chroot.go, lines 35-48). *)
Definition New (dirpath : string) : St os FileSystem := fun s =>
  match os_mkdir dirpath s with
  | (Ok _, s') => (Ok (new_FileSystem dirpath), s')
  | (Err ErrExist, s') => (Ok (new_FileSystem dirpath), s')
  | (Err e, s') => (Err e, s')
  end.

(** [fsys.CreateFile(filepath, data)] (chroot.go, lines 56-58). *)
Definition CreateFile (c : FileSystem) (filepath : string) (data : list Byte.byte) : St os go_file :=
  let name := path_join [rootName c; filepath] in
  h <- os_create name ;; st_ret (mkFile name h).

(** [fsys.CreateDirectory(dirpath)] (chroot.go, lines 63-67). *)
Definition CreateDirectory (c : FileSystem) (dirpath : string) : St os unit :=
  MkdirAll (path_join [rootName c; dirpath]).

(** ** The package's test ([chroot_test.go])

    [testDirExists(testDir)] (lines 17-25): [os.Open], then [Stat] through
    [unwrap] (a panic on error), then [IsDir]. *)
Definition testDirExists (testDir : string) : St os bool := fun s =>
  match os_Open testDir s with
  | (Err _, s1) => (Ok false, s1)
  | (Ok testfile, s1) =>
      match file_Stat testfile s1 with
      | (Err e, s2) => (Err e, s2)
      | (Ok testfileStat, s2) => (Ok (fi_is_dir testfileStat), s2)
      end
  end.

(** [TestNew] (lines 10-15): [New("chroot")], whose panic fails the test,
    then [t.FailNow()] unless [chroot] is a directory.  The test passes
    when the result is [Ok true]. *)
Definition TestNew : St os bool :=
  _ <- New "chroot" ;; testDirExists "chroot".

(** ** MkdirAll terminates *)

Lemma drop_while_length f l : List.length (drop_while f l) <= List.length l.
Proof. induction l as [|c l IH]; simpl; [done|]. destruct (f c); simpl; lia. Qed.

Lemma scan_back_length f l : List.length (scan_back f l) <= List.length l.
Proof. unfold scan_back. rewrite length_rev, <- (length_rev l). apply drop_while_length. Qed.

Lemma string_of_list_ascii_length l : String.length (string_of_list_ascii l) = List.length l.
Proof. induction l as [|c l IH]; simpl; congruence. Qed.

Lemma list_ascii_of_string_length s : List.length (list_ascii_of_string s) = String.length s.
Proof. induction s as [|c s IH]; simpl; congruence. Qed.

(** The parent [MkdirAll] recurses on is shorter than the path. *)
Lemma mkdirall_parent_shorter path parent :
  mkdirall_parent path = Some parent -> String.length parent < String.length path.
Proof.
  unfold mkdirall_parent. set (cs := list_ascii_of_string path).
  pose proof (scan_back_length is_sep cs) as H1.
  pose proof (scan_back_length (fun c => negb (is_sep c)) (scan_back is_sep cs)) as H2.
  destruct (Nat.ltb_spec 1 (List.length (scan_back (fun c => negb (is_sep c)) (scan_back is_sep cs))));
    [|done].
  intros [= <-]. rewrite string_of_list_ascii_length, length_take.
  unfold cs in *. rewrite list_ascii_of_string_length in *. lia.
Qed.

(** Any fuel beyond the length of the path gives the same result: the
    recursion of [MkdirAll] ends, and [MkdirAll] supplies enough fuel. *)
Lemma mkdir_all_fuel f1 f2 path s :
  String.length path < f1 -> String.length path < f2 ->
  mkdir_all f1 path s = mkdir_all f2 path s.
Proof.
  revert f2 path s. induction f1 as [|f1 IH]; intros [|f2] path s H1 H2; try lia.
  cbn [mkdir_all]. destruct (os_Stat path s) as [[dir|e] s1]; [done|].
  destruct (mkdirall_parent path) as [parent|] eqn:Hp; [|done].
  pose proof (mkdirall_parent_shorter _ _ Hp).
  unfold st_bind. rewrite (IH f2) by lia. done.
Qed.

(** ** What a successful os.Mkdir or os.Lstat shows *)

Lemma split_dir_last p : split_slash p = dir_part p ++ [last_name p].
Proof. unfold dir_part, last_name. apply app_removelast_last, split_slash_nonempty. Qed.

Lemma names_dir_false p : names_dir p = false -> is_dot (last_name p) = false /\ String.eqb (last_name p) ".." = false.
Proof. unfold names_dir. by intros [-> ->]%orb_false_iff. Qed.

(** A path whose directory part resolves to [d] and whose last name is a
    directory in [d] resolves to that directory. *)
Lemma resolve_entry_resolves s p d x :
  resolve_entry s p = Ok (d, x) -> names_dir p = false -> fsys s !! (d ++ [x]) = Some Dir ->
  resolve s p = Ok (d ++ [x]).
Proof.
  unfold resolve_entry, resolve. intros He Hnd Hx.
  destruct (resolve_from _ _ _ (dir_part p)) as [d'|] eqn:Hd; [|done].
  destruct (fsys s !! d') as [[]|] eqn:Hdd; try done. injection He as <- <-.
  rewrite split_dir_last. eapply resolve_from_app; [exact Hd|exact Hdd|].
  intros h. destruct (names_dir_false p Hnd) as [H1 H2].
  rewrite resolve_from_cons, H1, H2, Hx. apply resolve_from_nil.
Qed.

Lemma os_mkdir_dir s p s' :
  os_mkdir p s = (Ok tt, s') -> exists q, resolve s' p = Ok q /\ fsys s' !! q = Some Dir.
Proof.
  destruct (os_mkdir_cases p s) as [E|[(e & _ & E)|(d & x & He & Hnone & Hnd & E)]];
    rewrite E; [done|done|]. intros [= <-]. exists (d ++ [x]).
  split; [|unfold set_fsys; cbn [fsys]; by rewrite lookup_insert_eq].
  apply resolve_entry_resolves; [|done|unfold set_fsys; cbn [fsys]; by rewrite lookup_insert_eq].
  apply resolve_entry_insert_fresh; [done|done|]. intros Hd.
  apply (f_equal List.length) in Hd. rewrite length_app in Hd. simpl in Hd. lia.
Qed.

Lemma node_info_dir n : fi_is_dir (node_info n) = true -> n = Dir.
Proof. by destruct n; vm_compute. Qed.

Lemma os_Stat_dir s p dir s' :
  os_Stat p s = (Ok dir, s') -> fi_is_dir dir = true ->
  s' = s /\ exists q, resolve s p = Ok q /\ fsys s !! q = Some Dir.
Proof.
  unfold os_Stat. destruct (resolve s p) as [q|]; [|done].
  destruct (fsys s !! q) as [n|] eqn:Hq; [|done]. intros [= <- <-] Hd.
  split; [done|]. exists q. split; [done|]. by rewrite Hq, (node_info_dir n Hd).
Qed.

Lemma os_Lstat_dir s p dir s' :
  os_Lstat p s = (Ok dir, s') -> fi_is_dir dir = true ->
  s' = s /\ exists q, resolve s p = Ok q /\ fsys s !! q = Some Dir.
Proof.
  unfold os_Lstat. destruct (names_dir p) eqn:Hnd; [apply os_Stat_dir|].
  destruct (resolve_entry s p) as [[d x]|] eqn:He; [|done].
  destruct (fsys s !! (d ++ [x])) as [n|] eqn:Hx; [|done]. intros [= <- <-] Hd.
  rewrite (node_info_dir n Hd) in Hx. split; [done|]. exists (d ++ [x]).
  split; [by apply resolve_entry_resolves|done].
Qed.

(** [MkdirAll] succeeds only when the path ends up naming a directory. *)
Lemma mkdir_all_dir f path s s' :
  mkdir_all f path s = (Ok tt, s') -> exists q, resolve s' path = Ok q /\ fsys s' !! q = Some Dir.
Proof.
  destruct f as [|f]; [done|]. cbn [mkdir_all].
  destruct (os_Stat path s) as [[dir|e] s1] eqn:Hs.
  { destruct (fi_is_dir dir) eqn:Hd; [|done]. intros [= <-]. by destruct (os_Stat_dir _ _ _ _ Hs Hd) as [-> ?]. }
  unfold st_bind. destruct (match mkdirall_parent path with _ => _ end s1) as [[[]|e'] s2]; [|done].
  destruct (os_mkdir path s2) as [[[]|e2] s3] eqn:Hm.
  - intros [= <-]. by apply (os_mkdir_dir s2).
  - destruct (os_Lstat path s3) as [[dir|e3] s4] eqn:Hl; [|done].
    destruct (fi_is_dir dir) eqn:Hd; [|done]. intros [= <-].
    by destruct (os_Lstat_dir _ _ _ _ Hl Hd) as [-> ?].
Qed.

(** On a path that names a directory, [MkdirAll] returns at once. *)
Lemma mkdir_all_exists f path s q :
  resolve s path = Ok q -> fsys s !! q = Some Dir -> mkdir_all (S f) path s = (Ok tt, s).
Proof. intros Hq Hd. cbn [mkdir_all]. unfold os_Stat. rewrite Hq, Hd. done. Qed.

Lemma os_create_empty p s h s' :
  os_create p s = (Ok h, s') -> fsys s' !! h_path h = Some (File []).
Proof.
  unfold os_create, truncate_at. repeat case_match; intros; simplify_eq; simpl; by rewrite lookup_insert_eq.
Qed.

(** [path.Join(root, "../"+name)] is [name]. *)
Lemma path_join_dotdot root name :
  normal_name root -> normal_name name -> path_join [root; "../" +:+ name] = name.
Proof.
  intros Hr Hn. rewrite path_join_two by (apply Hr || done).
  rewrite clean_unrooted by (apply normal_join_unrooted, Hr).
  change ("../" +:+ name) with (".." +:+ String "/" name).
  rewrite !split_slash_app, !split_slash_single by (apply Hr || apply Hn || done).
  unfold clean_segments. cbn [app fold_left].
  rewrite (clean_step_name false [] root Hr), (clean_step_cancel false root [] Hr).
  by rewrite (clean_step_name false [] name Hn).
Qed.

(** C15: CreateDirectory is idempotent.  Once [CreateDirectory] has
    succeeded, calling it again with the same path succeeds and changes
    nothing: [os.MkdirAll] finds the directory on its fast path. *)
Theorem CreateDirectory_idempotent c dirpath s s' :
  CreateDirectory c dirpath s = (Ok tt, s') -> CreateDirectory c dirpath s' = (Ok tt, s').
Proof.
  unfold CreateDirectory, MkdirAll. intros H.
  destruct (mkdir_all_dir _ _ _ _ H) as (q & Hq & Hd). by eapply mkdir_all_exists.
Qed.

(** C16: CreateFile ignores its data.  [CreateFile] documents that it
    fills the file with [data]; it only creates or truncates
    [path.Join(root, filepath)], which is empty afterwards whatever the
    data. *)
Theorem CreateFile_ignores_data c filepath data s f s' :
  CreateFile c filepath data s = (Ok f, s') ->
  f_name f = path_join [rootName c; filepath] /\ fsys s' !! h_path (f_handle f) = Some (File []).
Proof.
  unfold CreateFile, st_bind, st_ret. destruct (os_create _ s) as [[h|e] s1] eqn:E; [|done].
  intros [= <- <-]. split; [done|]. by apply (os_create_empty (path_join [rootName c; filepath]) s).
Qed.

(** C17: New accepts a regular file as root.  When [dirpath] names an
    existing regular file, [os.Mkdir] fails with [ErrExist], which [New]
    accepts: it returns a [FileSystem] whose root is not a directory,
    without an error. *)
Theorem New_accepts_file dirpath s d x data :
  names_dir dirpath = false -> resolve_entry s dirpath = Ok (d, x) ->
  fsys s !! (d ++ [x]) = Some (File data) ->
  New dirpath s = (Ok (new_FileSystem dirpath), s).
Proof. intros Hnd He Hx. unfold New, os_mkdir. by rewrite Hnd, He, Hx. Qed.

(** C18: CreateFile escapes its root.  [CreateFile] joins the caller's
    path to the root with [path.Join] and checks nothing: for a root
    [root] in the working directory, the path ["../name"] creates
    [name] beside the root, outside it. *)
Theorem CreateFile_escapes s root name data :
  wf s -> normal_name root -> normal_name name ->
  fsys s !! (cwd s ++ [root]) = Some Dir -> fsys s !! (cwd s ++ [name]) = None ->
  exists f s', CreateFile (new_FileSystem root) ("../" +:+ name) data s = (Ok f, s') /\
    h_path (f_handle f) = cwd s ++ [name] /\ fsys s' !! (cwd s ++ [name]) = Some (File []) /\
    ~ (cwd s ++ [root]) `prefix_of` (cwd s ++ [name]).
Proof.
  intros Hwf Hr Hn Hroot Hname. unfold CreateFile. cbn [rootName].
  rewrite path_join_dotdot by done. unfold st_bind.
  rewrite (os_create_name s Hwf name Hn) by (intros t; by rewrite Hname). rewrite Hname.
  eexists _, _. split; [reflexivity|]. cbn [f_handle h_path]. split_and!; [done| |].
  - unfold set_fsys. cbn [fsys]. by rewrite lookup_insert_eq.
  - intros Hp. apply prefix_length_eq in Hp; [|by rewrite !length_app].
    apply app_inv_head in Hp. injection Hp as ->. congruence.
Qed.

(** ** Reading back through [Root] *)

Lemma New_ok dirpath s c s1 :
  New dirpath s = (Ok c, s1) -> c = new_FileSystem dirpath /\ s1 = snd (os_mkdir dirpath s).
Proof.
  unfold New. destruct (os_mkdir dirpath s) as [[u|e] s'];
    [intros [= <- <-]; done|destruct e; intros; simplify_eq; done].
Qed.

Lemma os_mkdir_no_links p s R :
  no_links_under (fsys s) R -> no_links_under (fsys (snd (os_mkdir p s))) R.
Proof.
  intros H. unfold os_mkdir. destruct (names_dir p); [by destruct (resolve s p)|].
  destruct (resolve_entry s p) as [[d x]|]; [|done]. destruct (fsys s !! _); [done|].
  intros q t Hq. cbn [snd fsys set_fsys].
  destruct (decide (q = d ++ [x])) as [->|Hne]; [by rewrite lookup_insert_eq|].
  rewrite lookup_insert_ne by done. by apply H.
Qed.

Lemma join_slash_nonempty l : l <> [] -> Forall normal_name l -> join_slash l <> "".
Proof.
  intros Hne Hl. pose proof (rel_name_nonempty l Hl) as H. unfold rel_name in H.
  by destruct l.
Qed.

(** [path.Join] of two relative paths of normal names is their
    concatenation. *)
Lemma path_join_normal ds names :
  ds <> [] -> Forall normal_name ds -> names <> [] -> Forall normal_name names ->
  path_join [join_slash ds; join_slash names] = join_slash (ds ++ names).
Proof.
  intros Hds Hdn Hne Hnn.
  rewrite path_join_two by by apply join_slash_nonempty.
  rewrite join_slash_app by done. apply clean_normal_join; [by destruct ds|by apply Forall_app].
Qed.

(** C21: what [CreateFile] writes is not what [Root] reads.  For a root
    [New(dirpath)] whose [dirpath] and file name are relative paths of
    normal names only (no [.], [..], empty or absolute element), in a tree
    with no symbolic link below the working directory, reading the name back through the
    [FileSystem]'s own [Root] ([os.DirFS], an [FS]) after a successful
    [CreateFile(name, data)] gives the empty slice, whatever [data] was. *)
Theorem CreateFile_read_back s ds names c s1 data f s2 :
  wf s -> no_links_under (fsys s) (cwd s) ->
  ds <> [] -> Forall normal_name ds -> names <> [] -> Forall normal_name names ->
  New (join_slash ds) s = (Ok c, s1) ->
  CreateFile c (join_slash names) data s1 = (Ok f, s2) ->
  ReadFile (Root c) (join_slash names) s2 = (Ok [], s2).
Proof.
  intros Hwf Hnl Hds Hdn Hne Hnn HN HC.
  destruct (New_ok _ _ _ _ HN) as [-> ->].
  set (s1 := snd (os_mkdir (join_slash ds) s)).
  assert (Hw1 : wf s1) by by apply os_mkdir_wf.
  assert (Hl1 : no_links_under (fsys s1) (cwd s1))
    by (unfold s1; rewrite os_mkdir_keeps_cwd; by apply os_mkdir_no_links).
  assert (Hall : Forall normal_name (ds ++ names)) by by apply Forall_app.
  assert (Hsp : split_slash (join_slash (ds ++ names)) = ds ++ names)
    by (apply split_join; [by destruct ds|by apply normal_name_slash_free]).
  unfold CreateFile in HC. cbn [rootName new_FileSystem] in HC.
  rewrite path_join_normal in HC by done. unfold st_bind, st_ret in HC. fold s1 in HC.
  destruct (os_create (join_slash (ds ++ names)) s1) as [[h|e] s2'] eqn:E; [|discriminate].
  injection HC as <- <-.
  destruct (os_create_path_confined (cwd s1) s1 s1 (confined_refl _ _ Hl1)
              (join_slash (ds ++ names))) as [_ Hh].
  { destruct ds as [|d0 ds']; [done|]. inversion Hdn as [|? ? Hd0 _]; subst.
    cbn [app]. by rewrite is_rooted_join, normal_name_unrooted by apply Hd0. }
  { by rewrite Hsp. }
  { apply prefix_app_r. done. }
  rewrite E, Hsp in Hh. specialize (Hh h eq_refl).
  pose proof (os_create_empty _ s1 h s2' E) as Hf. rewrite Hh in Hf. cbn [h_path] in Hf.
  assert (Hc2 : cwd s2' = cwd s1) by (rewrite <- (os_create_keeps_cwd (join_slash (ds ++ names)) s1), E; done).
  assert (Hw2 : wf s2') by (pose proof (os_create_wf s1 Hw1 (join_slash (ds ++ names))) as H;
                            by rewrite E in H).
  cbn [ReadFile dirFS_FS Root new_FileSystem os_DirFS dirfs_root]. unfold dirfs_call.
  rewrite dirfs_join_ok by (by apply join_slash_nonempty || by apply join_slash_no_suffix
                           || by apply valid_path_join).
  rewrite join_slash_app by done. unfold os_ReadFile, os_Open, st_bind, os_open.
  rewrite (resolve_file s2' (ds ++ names) []); [|done|done|by destruct ds|by rewrite Hc2].
  cbn. unfold file_read_all. cbn. by rewrite Hc2, Hf.
Qed.

(** C26: when [chroot] is not a symbolic link, the package's test
    [TestNew] passes exactly when [chroot] is not an existing regular file.  [New] accepts such a file as its root
    (C17); the test then opens it, finds it is not a directory and fails.
    In every other case (no entry, or a directory) it passes. *)
Theorem TestNew_passes s :
  wf s -> (forall t, fsys s !! (cwd s ++ ["chroot"]) <> Some (Symlink t)) ->
  fst (TestNew s) = Ok true <-> (forall c, fsys s !! (cwd s ++ ["chroot"]) <> Some (File c)).
Proof.
  intros Hwf Hnl. unfold TestNew, st_bind, New, testDirExists, os_Open, st_bind, os_open.
  rewrite (os_mkdir_name s Hwf "chroot" chroot_normal).
  destruct (fsys s !! (cwd s ++ ["chroot"])) as [[|c|t]|] eqn:E.
  - rewrite (resolve_name s "chroot" chroot_normal), E. cbn. unfold file_Stat. cbn.
    rewrite E. split; [intros _ c'; discriminate|reflexivity].
  - rewrite (resolve_name s "chroot" chroot_normal), E. cbn. unfold file_Stat. cbn.
    rewrite E. split; [discriminate|intros H; by destruct (H c)].
  - by destruct (Hnl t).
  - rewrite (resolve_name (set_fsys <[cwd s ++ ["chroot"] := Dir]> s) "chroot" chroot_normal). cbn.
    rewrite lookup_insert_eq. cbn. unfold file_Stat. cbn. rewrite lookup_insert_eq.
    split; [intros _ c'; discriminate|reflexivity].
Qed.

(** ** A root in a server directory *)

Definition example_root : os :=
  mkOS {[ [] := Dir; ["srv"] := Dir; ["srv"; "root"] := Dir;
          ["srv"; "f"] := File [Byte.x41] ]} ["srv"].

Definition example_fs : FileSystem := new_FileSystem "root".

Lemma CreateDirectory_idempotent_witness :
  CreateDirectory example_fs "a/b" (snd (CreateDirectory example_fs "a/b" example_root)) =
  (Ok tt, snd (CreateDirectory example_fs "a/b" example_root)).
Proof. apply CreateDirectory_idempotent with (s := example_root). vm_compute. reflexivity. Defined.

Definition example_file : go_file := mkFile "root/x.txt" (mkHandle ["srv"; "root"; "x.txt"] 0).

Lemma CreateFile_ignores_data_witness :
  f_name example_file = path_join [rootName example_fs; "x.txt"] /\
  fsys (snd (CreateFile example_fs "x.txt" [Byte.x42] example_root)) !! h_path (f_handle example_file) =
    Some (File []).
Proof.
  apply (CreateFile_ignores_data example_fs "x.txt" [Byte.x42] example_root example_file).
  vm_compute. reflexivity.
Defined.

Lemma New_accepts_file_witness :
  New "f" example_root = (Ok (new_FileSystem "f"), example_root).
Proof.
  apply (New_accepts_file "f" example_root ["srv"] "f" [Byte.x41]);
    vm_compute; reflexivity.
Defined.

Lemma CreateFile_escapes_witness :
  exists f s', CreateFile example_fs ("../" +:+ "x") [Byte.x42] example_root = (Ok f, s') /\
    h_path (f_handle f) = cwd example_root ++ ["x"] /\ fsys s' !! (cwd example_root ++ ["x"]) = Some (File []) /\
    ~ (cwd example_root ++ ["root"]) `prefix_of` (cwd example_root ++ ["x"]).
Proof.
  apply CreateFile_escapes.
  - apply wf_by_check. vm_compute. reflexivity.
  - apply normal_name_by_check. vm_compute. reflexivity.
  - apply normal_name_by_check. vm_compute. reflexivity.
  - vm_compute. reflexivity.
  - vm_compute. reflexivity.
Defined.

Lemma CreateFile_read_back_witness :
  ReadFile (Root example_fs) (join_slash ["x.txt"])
    (snd (CreateFile example_fs "x.txt" [Byte.x42] example_root))
  = (Ok [], snd (CreateFile example_fs "x.txt" [Byte.x42] example_root)).
Proof.
  apply (CreateFile_read_back example_root ["root"] ["x.txt"] example_fs example_root
           [Byte.x42] example_file).
  - apply wf_by_check. vm_compute. reflexivity.
  - apply no_links_by_check. vm_compute. reflexivity.
  - discriminate.
  - apply normal_names_by_check. vm_compute. reflexivity.
  - discriminate.
  - apply normal_names_by_check. vm_compute. reflexivity.
  - vm_compute. reflexivity.
  - vm_compute. reflexivity.
Defined.

Lemma TestNew_passes_witness :
  fst (TestNew (mkOS {[ [] := Dir; ["srv"] := Dir ]} ["srv"])) = Ok true /\
  fst (TestNew (mkOS {[ [] := Dir; ["srv"] := Dir; ["srv"; "chroot"] := File [] ]} ["srv"]))
  <> Ok true.
Proof.
  split.
  - apply TestNew_passes.
    + apply wf_by_check. vm_compute. reflexivity.
    + intros t. vm_compute. discriminate.
    + intros c. vm_compute. discriminate.
  - rewrite (TestNew_passes (mkOS {[ [] := Dir; ["srv"] := Dir; ["srv"; "chroot"] := File [] ]} ["srv"])).
    + intros H. by apply (H []).
    + apply wf_by_check. vm_compute. reflexivity.
    + intros t. vm_compute. discriminate.
Defined.
