(* ===== verification/Race.v ===== *)
(** * Race: two requests sharing the working directory

    [createFileRecursive] ([src/main.go], lines 145-168) moves the
    process-wide working directory with [os.Chdir] and restores it with a
    deferred [os.Chdir(olddir)].  net/http runs each request in its own
    goroutine, so the calls of two requests interleave.  This file models
    a call of [createFileRecursive] as a thread that makes one operating
    system call per step ([cfr_pc], [cfr_step]); two calls share one
    machine [os]; a step of the server lets either thread make its next
    call ([par_step], generic in the two threads' step functions) and a
    schedule ([par_run]) picks the thread at each step.

    - [cfr_run_start]: a call running alone returns within [pc_fuel]
      steps with the result of the sequential model of [Upload]; the race
      theorems below use it to finish each thread.
    - [createFileRecursive_race_cwd] (C19): an interleaving in which the
      second call saves [chroot] as its [olddir] leaves the server's working
      directory at [chroot] after both calls return.
    - [createFileRecursive_race_misplaced] (C20): in the same interleaving
      the second file is created at [chroot/chroot/<name>].
    - [upload_race_escapes] (C27): [uploadHandler] as a thread ([up_pc],
      [up_step]; alone it is [uploadHandler], [up_run_start]) racing a
      /chroot request creates [chroot/uploads] and changes the tree outside
      the server's [uploads].

    Each operating system call is atomic: a step is one call, as the
    kernel serialises [mkdir], [chdir], [open] on the process's working
    directory. *)

From stdpp Require Import base list gmap strings relations.
From Stdlib Require Import Ascii String.
From S2P Require Import Prelude GoPath OsFs Confinement Upload UploadSpec.

Local Open Scope string_scope.
Local Open Scope list_scope.
Local Open Scope go_scope.

(** ** One call as a thread

    The program counter of a call of [createFileRecursive]: before
    [os.Getwd]; in the loop over [dirs[:len(dirs)-1]] before
    [createFolderIfNotExists] or before [os.Chdir]; before [os.Create];
    before the deferred [os.Chdir(olddir)]; returned. *)
Inductive cfr_pc :=
| CfrStart (filepath : string)
| CfrLoop (olddir : string) (dirs : list string) (filename : string)
| CfrChdir (olddir : string) (dir : string) (dirs : list string) (filename : string)
| CfrCreate (olddir : string) (filename : string)
| CfrDefer (olddir : string) (r : res (option handle))
| CfrDone (r : res (option handle)).

(** One step: at most one system call. *)
Definition cfr_step (t : cfr_pc) (s : os) : cfr_pc * os :=
  match t with
  | CfrStart filepath =>
      match os_getwd s with
      | (Ok olddir, s1) =>
          let dirs := path_dirs filepath in
          (CfrLoop olddir (removelast dirs) (List.last dirs ""), s1)
      | (Err e, s1) => (CfrDone (Err e), s1)
      end
  | CfrLoop olddir [] filename => (CfrCreate olddir filename, s)
  | CfrLoop olddir (dir :: dirs) filename =>
      match createFolderIfNotExists dir s with
      | (Ok _, s1) => (CfrChdir olddir dir dirs filename, s1)
      | (Err e, s1) => (CfrDefer olddir (Err e), s1)
      end
  | CfrChdir olddir dir dirs filename =>
      match os_chdir dir s with
      | (Ok _, s1) => (CfrLoop olddir dirs filename, s1)
      | (Err e, s1) => (CfrDefer olddir (Err e), s1)
      end
  | CfrCreate olddir filename =>
      if String.eqb filename "" then (CfrDefer olddir (Ok None), s)
      else match os_create filename s with
           | (Ok h, s1) => (CfrDefer olddir (Ok (Some h)), s1)
           | (Err e, s1) => (CfrDefer olddir (Err e), s1)
           end
  | CfrDefer olddir r => (CfrDone r, snd (os_chdir olddir s))
  | CfrDone r => (CfrDone r, s)
  end.

(** A thread running alone for at most [n] steps. *)
Fixpoint run {T} (step : T -> os -> T * os) (n : nat) (t : T) (s : os) : T * os :=
  match n with
  | O => (t, s)
  | S n' => let '(t', s') := step t s in run step n' t' s'
  end.

Abbreviation cfr_run := (run cfr_step).

(** ** Two requests

    The state of the server: two threads and the machine they share.  A
    step lets one of them make its next system call; a schedule
    ([true] for the first, [false] for the second) picks them in turn. *)
Section Par.
Context {T1 T2 : Type} (step1 : T1 -> os -> T1 * os) (step2 : T2 -> os -> T2 * os).

Inductive par_step : T1 * T2 * os -> T1 * T2 * os -> Prop :=
| step_left t1 t2 s t1' s' : step1 t1 s = (t1', s') -> par_step (t1, t2, s) (t1', t2, s')
| step_right t1 t2 s t2' s' : step2 t2 s = (t2', s') -> par_step (t1, t2, s) (t1, t2', s').

Fixpoint par_run (sched : list bool) (c : T1 * T2 * os) : T1 * T2 * os :=
  match sched with
  | [] => c
  | b :: sched' =>
      let '(t1, t2, s) := c in
      if b then let '(t1', s') := step1 t1 s in par_run sched' (t1', t2, s')
      else let '(t2', s') := step2 t2 s in par_run sched' (t1, t2', s')
  end.
End Par.

(** Two calls of [createFileRecursive]. *)
Definition sys : Type := cfr_pc * cfr_pc * os.
Abbreviation sys_step := (par_step cfr_step cfr_step).
Abbreviation sys_run := (par_run cfr_step cfr_step).

Definition sys_init (p1 p2 : string) (s : os) : sys := (CfrStart p1, CfrStart p2, s).

(** The last statements of [createFileRecursive]'s body: create the last
    element, unless it is empty. *)
Definition create_last (filename : string) : St os (option handle) :=
  if String.eqb filename "" then st_ret None
  else h <- os_create filename ;; st_ret (Some h).

(** Steps a call still needs before it returns. *)
Definition pc_fuel (t : cfr_pc) : nat :=
  match t with
  | CfrStart filepath => 2 * List.length (removelast (path_dirs filepath)) + 4
  | CfrLoop _ dirs _ => 2 * List.length dirs + 3
  | CfrChdir _ _ dirs _ => 2 * List.length dirs + 4
  | CfrCreate _ _ => 2
  | CfrDefer _ _ => 1
  | CfrDone _ => 0
  end.

(** ** [uploadHandler] as a thread

    A POST with a parsed form ([src/main.go], lines 111-136): create
    [uploads], then for each field [os.Create] its file and write its
    parts one by one ([io.Copy]), each step one system call. *)
Inductive up_pc :=
| UpStart (files : list (string * list part))
| UpCreate (files : list (string * list part))
| UpCopy (h : handle) (parts : list part) (files : list (string * list part))
| UpDone (r : response).

Definition up_step (t : up_pc) (s : os) : up_pc * os :=
  match t with
  | UpStart files =>
      match createFolderIfNotExists "uploads" s with
      | (Ok _, s1) => (UpCreate files, s1)
      | (Err _, s1) => (UpDone (status_only StatusInternalServerError), s1)
      end
  | UpCreate [] => (UpDone (mkResponse StatusOK "Received file successfully."), s)
  | UpCreate ((filename, parts) :: rest) =>
      match os_create (upload_target filename) s with
      | (Ok h, s1) => (UpCopy h parts rest, s1)
      | (Err _, s1) => (UpDone (status_only StatusInternalServerError), s1)
      end
  | UpCopy h [] rest => (UpCreate rest, s)
  | UpCopy h (p :: ps) rest =>
      match os_write h p s with
      | (Ok h', s1) => (UpCopy h' ps rest, s1)
      | (Err _, s1) => (UpCopy h ps rest, s1)
      end
  | UpDone r => (UpDone r, s)
  end.

(** Steps the fields of a form need: a creation, a write per part and
    the move to the next field each, and the final answer. *)
Definition files_fuel (files : list (string * list part)) : nat :=
  fold_right (fun f n => 2 + List.length f.2 + n) 1 files.

(** ** A call running alone *)

Lemma cfr_run_done n r s : cfr_run n (CfrDone r) s = (CfrDone r, s).
Proof. induction n; simpl; auto. Qed.

Lemma cfr_run_loop olddir dirs filename n s :
  2 * List.length dirs + 3 <= n ->
  cfr_run n (CfrLoop olddir dirs filename) s
  = let '(r, s1) := (mkdir_chdir_all dirs ;; create_last filename) s in
    (CfrDone r, snd (os_chdir olddir s1)).
Proof.
  revert n s. induction dirs as [|d dirs IH]; intros n s Hn.
  - destruct n as [|[|[|n]]]; try lia. cbn -[os_chdir os_create].
    unfold create_last. destruct (String.eqb filename ""); cbn -[os_chdir os_create].
    + apply cfr_run_done.
    + unfold st_bind. destruct (os_create filename s) as [[h|e] s1]; apply cfr_run_done.
  - destruct n as [|[|n]]; simpl in Hn; try lia.
    cbn -[os_chdir os_create createFolderIfNotExists mkdir_chdir_all].
    change (mkdir_chdir_all (d :: dirs))
      with (createFolderIfNotExists d ;; os_chdir d ;; mkdir_chdir_all dirs).
    rewrite st_bind_assoc. unfold st_bind at 1.
    destruct (createFolderIfNotExists d s) as [[u|e] s1];
      cbn -[os_chdir os_create createFolderIfNotExists mkdir_chdir_all].
    + rewrite st_bind_assoc. unfold st_bind at 1.
      destruct (os_chdir d s1) as [[u'|e] s2]; cbn -[os_chdir os_create mkdir_chdir_all].
      * rewrite IH by lia. reflexivity.
      * destruct n; [lia|apply cfr_run_done].
    + apply cfr_run_done.
Qed.

Lemma create_last_sound filename : sound (create_last filename).
Proof. unfold create_last. destruct (String.eqb _ _); auto with redbag. Qed.

(** A call inside its loop returns within [pc_fuel] steps; the machine stays
    well formed, keeps its directories, and the deferred [os.Chdir(olddir)]
    leaves the working directory at [olddir] when that is a directory. *)
Lemma cfr_loop_returns olddir dirs filename s :
  wf s ->
  let '(t, s') := cfr_run (pc_fuel (CfrLoop olddir dirs filename))
                    (CfrLoop olddir dirs filename) s in
  (exists r, t = CfrDone r) /\ wf s' /\ dirs_kept s s' /\
  (forall p, olddir = render p -> fsys s !! p = Some Dir -> cwd s' = p).
Proof.
  intros Hwf. rewrite cfr_run_loop by (simpl; lia).
  destruct (sound_bind _ _ (mkdir_chdir_all_sound dirs)
              (fun _ => create_last_sound filename) s Hwf) as [Hw Hk].
  destruct ((mkdir_chdir_all dirs ;; create_last filename) s) as [r s1]. simpl in Hw, Hk.
  destruct (os_chdir_sound olddir s1 Hw) as [Hw' Hk'].
  split; [by eexists|]. split; [done|]. split; [by etrans|].
  intros p -> Hp. rewrite os_chdir_render; auto.
Qed.

Lemma cfr_step_start filepath s :
  cfr_step (CfrStart filepath) s
  = (CfrLoop (render (cwd s)) (removelast (path_dirs filepath))
       (List.last (path_dirs filepath) ""), s).
Proof. reflexivity. Qed.

(** Entering a directory that exists: [createFolderIfNotExists] succeeds
    without a change, then [os.Chdir] moves into it. *)
Lemma cfr_step_enter olddir d dirs filename s :
  wf s -> normal_name d -> fsys s !! (cwd s ++ [d]) = Some Dir ->
  cfr_step (CfrLoop olddir (d :: dirs) filename) s = (CfrChdir olddir d dirs filename, s) /\
  cfr_step (CfrChdir olddir d dirs filename) s
  = (CfrLoop olddir dirs filename, mkOS (fsys s) (cwd s ++ [d])).
Proof.
  intros Hwf Hd Hs. simpl. unfold createFolderIfNotExists.
  rewrite os_mkdir_name, Hs by done. split; [done|].
  rewrite os_chdir_name, Hs by (done || (intros t; rewrite Hs; discriminate)). done.
Qed.

(** ** Schedules *)

Section ParRuns.
Context {T1 T2 : Type} (step1 : T1 -> os -> T1 * os) (step2 : T2 -> os -> T2 * os).

Lemma par_run_rtc sched c : rtc (par_step step1 step2) c (par_run step1 step2 sched c).
Proof.
  revert c. induction sched as [|b sched IH]; intros [[t1 t2] s]; simpl; [done|].
  destruct b; [destruct (step1 t1 s) as [t s'] eqn:E|destruct (step2 t2 s) as [t s'] eqn:E];
    (eapply rtc_l; [|apply IH]); by constructor.
Qed.

Lemma par_run_app l1 l2 c :
  par_run step1 step2 (l1 ++ l2) c = par_run step1 step2 l2 (par_run step1 step2 l1 c).
Proof.
  revert c. induction l1 as [|b l1 IH]; intros [[t1 t2] s]; simpl; [done|].
  destruct b; [destruct (step1 t1 s)|destruct (step2 t2 s)]; apply IH.
Qed.

Lemma par_run_left n t1 t2 s :
  par_run step1 step2 (repeat true n) (t1, t2, s)
  = let '(t1', s') := run step1 n t1 s in (t1', t2, s').
Proof. revert t1 s. induction n; intros; simpl; [done|]. destruct (step1 t1 s); apply IHn. Qed.

Lemma par_run_right n t1 t2 s :
  par_run step1 step2 (repeat false n) (t1, t2, s)
  = let '(t2', s') := run step2 n t2 s in (t1, t2', s').
Proof. revert t2 s. induction n; intros; simpl; [done|]. destruct (step2 t2 s); apply IHn. Qed.

(** Letting one thread run alone reaches what it reaches alone. *)
Lemma par_rtc_left n t1 t2 s t1' s' :
  run step1 n t1 s = (t1', s') -> rtc (par_step step1 step2) (t1, t2, s) (t1', t2, s').
Proof.
  intros E. pose proof (par_run_rtc (repeat true n) (t1, t2, s)) as H.
  by rewrite par_run_left, E in H.
Qed.

Lemma par_rtc_right n t1 t2 s t2' s' :
  run step2 n t2 s = (t2', s') -> rtc (par_step step1 step2) (t1, t2, s) (t1, t2', s').
Proof.
  intros E. pose proof (par_run_rtc (repeat false n) (t1, t2, s)) as H.
  by rewrite par_run_right, E in H.
Qed.
End ParRuns.

(** ** The upload thread running alone *)

Lemma up_run_done n r s : run up_step n (UpDone r) s = (UpDone r, s).
Proof. induction n; simpl; auto. Qed.

Lemma up_run_copy h parts rest n s :
  run up_step (List.length parts + 1 + n) (UpCopy h parts rest) s
  = run up_step n (UpCreate rest) (snd (copy_parts (Some h) parts s)).
Proof.
  revert h s. induction parts as [|p ps IH]; intros h s; [reflexivity|].
  cbn [List.length plus run up_step copy_parts].
  destruct (os_write h p s) as [[h'|e] s1]; apply IH.
Qed.

Lemma up_run_files files n s :
  run up_step (files_fuel files + n) (UpCreate files) s
  = let '(r, s') := upload_files files s in (UpDone r, s').
Proof.
  revert s. induction files as [|[filename parts] rest IH]; intros s.
  - cbn. apply up_run_done.
  - cbn [files_fuel fold_right snd].
    replace (2 + List.length parts + fold_right _ 1 rest + n)
      with (S (List.length parts + 1 + (files_fuel rest + n))) by (unfold files_fuel; lia).
    cbn [run up_step upload_files].
    destruct (os_create (upload_target filename) s) as [[h|e] s1].
    + rewrite up_run_copy. apply IH.
    + apply up_run_done.
Qed.

(** The upload thread running alone does what [uploadHandler] does with
    a POST of the same form. *)
Lemma up_run_start files s :
  run up_step (S (files_fuel files)) (UpStart files) s
  = let '(r, s') := uploadHandler (mkRequest MethodPost (Some files)) s in (UpDone r, s').
Proof.
  cbn [run up_step]. unfold uploadHandler. cbn [req_method req_form].
  destruct (createFolderIfNotExists "uploads" s) as [[u|e] s1].
  - rewrite <- (Nat.add_0_r (files_fuel files)). apply up_run_files.
  - apply up_run_done.
Qed.

(** ** The claims *)

(** A call running alone returns within [pc_fuel] steps, with the result and
    the machine of the sequential model [createFileRecursive]. *)
Lemma cfr_run_start filepath s :
  cfr_run (pc_fuel (CfrStart filepath)) (CfrStart filepath) s
  = let '(r, s') := createFileRecursive filepath s in (CfrDone r, s').
Proof.
  cbn [pc_fuel].
  replace (2 * _ + 4) with (S (2 * List.length (removelast (path_dirs filepath)) + 3)) by lia.
  cbn [run]. rewrite cfr_step_start, cfr_run_loop by lia.
  unfold createFileRecursive. rewrite (st_bind_ok _ _ s (render (cwd s)) s) by reflexivity.
  unfold st_defer.
  change (createFileRecursive_body filepath)
    with (mkdir_chdir_all (removelast (path_dirs filepath)) ;;
          create_last (List.last (path_dirs filepath) "")).
  unfold st_bind. destruct (mkdir_chdir_all _ s) as [[[]|e] s'];
    [destruct (create_last _ s')|]; reflexivity.
Qed.

(** The first request enters [chroot]: its call has saved the server's
    directory and stands in the loop below [chroot], and the working
    directory of the whole server is now [chroot]. *)
Lemma race_enter_chroot {T2} (step2 : T2 -> os -> T2 * os) s f1 names (t2 : T2) :
  wf s -> fsys s !! (cwd s ++ ["chroot"]) = Some Dir ->
  clean_segments (is_rooted f1) (split_slash f1) = names ->
  Forall normal_name names -> names <> [] ->
  rtc (par_step cfr_step step2) (CfrStart (chroot_target f1), t2, s)
    (CfrLoop (render (cwd s)) (removelast names) (List.last (path_dirs (chroot_target f1)) ""),
     t2, mkOS (fsys s) (cwd s ++ ["chroot"])) /\
  wf (mkOS (fsys s) (cwd s ++ ["chroot"])).
Proof.
  intros Hwf Hch Hcl Hn Hne.
  pose proof (path_dirs_chroot_target f1 0 names Hcl Hn) as Hd. simpl in Hd.
  assert (Hrl : removelast (path_dirs (chroot_target f1)) = "chroot" :: removelast names)
    by (rewrite Hd; destruct names; [done|reflexivity]).
  destruct (cfr_step_enter (render (cwd s)) "chroot" (removelast names)
              (List.last (path_dirs (chroot_target f1)) "") s Hwf chroot_normal Hch) as [E1 E2].
  split.
  - eapply rtc_l; [apply step_left; rewrite cfr_step_start, Hrl; reflexivity|].
    eapply rtc_l; [apply step_left, E1|]. eapply rtc_l; [apply step_left, E2|]. done.
  - pose proof (os_chdir_wf s Hwf "chroot") as H.
    by rewrite os_chdir_name, Hch in H by (done || (intros t; rewrite Hch; discriminate)).
Qed.

(** C19: two uploads through [chrootHandler] race on the working directory.
    If the second request calls [os.Getwd] while the first is inside
    [chroot], the second saves [chroot] as its [olddir]; both calls return,
    and the working directory of the server is left at [chroot] instead of
    where it was, whatever the second file's name. *)
Theorem createFileRecursive_race_cwd s f1 names f2 :
  wf s -> fsys s !! (cwd s ++ ["chroot"]) = Some Dir ->
  clean_segments (is_rooted f1) (split_slash f1) = names ->
  Forall normal_name names -> names <> [] ->
  exists r1 r2 s',
    rtc sys_step (sys_init (chroot_target f1) (chroot_target f2) s) (CfrDone r1, CfrDone r2, s') /\
    cwd s' = cwd s ++ ["chroot"].
Proof.
  intros Hwf Hch Hcl Hn Hne.
  destruct (race_enter_chroot cfr_step s f1 names (CfrStart (chroot_target f2)) Hwf Hch Hcl Hn Hne)
    as [Hmid Hw1].
  set (s1 := mkOS (fsys s) (cwd s ++ ["chroot"])) in *.
  set (t1 := CfrLoop (render (cwd s)) (removelast names) _) in Hmid.
  set (t2 := CfrLoop (render (cwd s1)) (removelast (path_dirs (chroot_target f2)))
                     (List.last (path_dirs (chroot_target f2)) "")).
  pose proof (cfr_loop_returns (render (cwd s)) (removelast names)
                (List.last (path_dirs (chroot_target f1)) "") s1 Hw1) as H1. fold t1 in H1.
  destruct (cfr_run _ t1 s1) as [t1' s2] eqn:R1. destruct H1 as [[r1 ->] [Hw2 [Hk2 _]]].
  pose proof (cfr_loop_returns (render (cwd s1)) (removelast (path_dirs (chroot_target f2)))
                (List.last (path_dirs (chroot_target f2)) "") s2 Hw2) as H2. fold t2 in H2.
  destruct (cfr_run _ t2 s2) as [t2' s3] eqn:R2. destruct H2 as [[r2 ->] [_ [_ Hc]]].
  exists r1, r2, s3. split; [|by apply Hc; [|apply Hk2]].
  etrans; [exact Hmid|]. eapply rtc_l; [apply step_right, cfr_step_start|].
  etrans; [exact (par_rtc_left _ cfr_step _ _ t2 _ _ _ R1)|exact (par_rtc_right cfr_step _ _ _ _ _ _ _ R2)].
Qed.

(** C20: a request that starts while another is inside [chroot] is carried
    out relative to [chroot]: the second call returns a file at
    [chroot/chroot/<name>] instead of [chroot/<name>], and creates it there. *)
Theorem createFileRecursive_race_misplaced s f1 names f2 names2 :
  wf s -> fsys s !! (cwd s ++ ["chroot"]) = Some Dir ->
  clean_segments (is_rooted f1) (split_slash f1) = names ->
  Forall normal_name names -> names <> [] ->
  clean_segments (is_rooted f2) (split_slash f2) = names2 ->
  Forall normal_name names2 -> names2 <> [] ->
  clear_path (fsys s) (cwd s ++ ["chroot"]) ("chroot" :: removelast names2)
    (List.last names2 "") = true ->
  exists t1 s',
    rtc sys_step (sys_init (chroot_target f1) (chroot_target f2) s)
      (t1, CfrDone (Ok (Some (mkHandle (cwd s ++ ["chroot"; "chroot"] ++ names2) 0))), s') /\
    fsys s' !! (cwd s ++ ["chroot"; "chroot"] ++ names2) = Some (File []).
Proof.
  intros Hwf Hch Hcl Hn Hne Hcl2 Hn2 Hne2 Hclear.
  destruct (race_enter_chroot cfr_step s f1 names (CfrStart (chroot_target f2)) Hwf Hch Hcl Hn Hne)
    as [Hmid Hw1].
  set (s1 := mkOS (fsys s) (cwd s ++ ["chroot"])) in *.
  set (t1 := CfrLoop (render (cwd s)) (removelast names) _) in Hmid.
  pose proof (path_dirs_chroot_target f2 0 names2 Hcl2 Hn2) as Hd. simpl in Hd.
  assert (Hrl : removelast (path_dirs (chroot_target f2)) = "chroot" :: removelast names2)
    by (rewrite Hd; destruct names2; [done|reflexivity]).
  assert (Hl : List.last (path_dirs (chroot_target f2)) "" = List.last names2 "")
    by (rewrite Hd; destruct names2; [done|reflexivity]).
  pose proof (cfr_run_start (chroot_target f2) s1) as R.
  rewrite (createFileRecursive_spec (chroot_target f2) s1 Hw1) in R; rewrite ?Hrl, ?Hl.
  2: apply normal_seg_ok; constructor; [apply chroot_normal|by apply Forall_removelast].
  2: by apply Forall_last.
  2: exact Hclear.
  rewrite Hrl, Hl in R.
  rewrite walk_dirs_names in R
    by (constructor; [apply chroot_normal|by apply Forall_removelast]).
  replace ((cwd s1 ++ "chroot" :: removelast names2) ++ [List.last names2 ""])
    with (cwd s ++ ["chroot"; "chroot"] ++ names2) in R
    by (simpl; rewrite <- !app_assoc; simpl; by rewrite <- (app_removelast_last "" Hne2)).
  eexists t1, _. split.
  - etrans; [exact Hmid|]. exact (par_rtc_right cfr_step _ _ _ _ _ _ _ R).
  - simpl. apply lookup_insert_eq.
Qed.

(** ** Witnesses

    A server in [srv] with an empty [srv/chroot]; the requests upload
    [a/x] and [b/y]. *)
Definition example_race_server : os :=
  mkOS {[ [] := Dir; ["srv"] := Dir; ["srv"; "chroot"] := Dir ]} ["srv"].

Lemma normal_names_ab : Forall normal_name ["a"; "x"] /\ Forall normal_name ["b"; "y"].
Proof. split; repeat constructor; apply normal_name_by_check; vm_compute; reflexivity. Qed.

Lemma createFileRecursive_race_cwd_witness :
  exists r1 r2 s',
    rtc sys_step (sys_init (chroot_target "a/x") (chroot_target "b/y") example_race_server)
      (CfrDone r1, CfrDone r2, s') /\
    cwd s' = ["srv"; "chroot"].
Proof.
  apply (createFileRecursive_race_cwd example_race_server "a/x" ["a"; "x"] "b/y").
  - apply wf_by_check. vm_compute. reflexivity.
  - reflexivity.
  - vm_compute. reflexivity.
  - apply normal_names_ab.
  - discriminate.
Defined.

Lemma createFileRecursive_race_misplaced_witness :
  exists t1 s',
    rtc sys_step (sys_init (chroot_target "a/x") (chroot_target "b/y") example_race_server)
      (t1, CfrDone (Ok (Some (mkHandle ["srv"; "chroot"; "chroot"; "b"; "y"] 0))), s') /\
    fsys s' !! ["srv"; "chroot"; "chroot"; "b"; "y"] = Some (File []).
Proof.
  apply (createFileRecursive_race_misplaced example_race_server "a/x" ["a"; "x"] "b/y" ["b"; "y"]).
  - apply wf_by_check. vm_compute. reflexivity.
  - reflexivity.
  - vm_compute. reflexivity.
  - apply normal_names_ab.
  - discriminate.
  - vm_compute. reflexivity.
  - apply normal_names_ab.
  - discriminate.
  - vm_compute. reflexivity.
Defined.

(** C27: a /upload request racing a /chroot request writes outside
    [uploads].  [uploadHandler] creates [uploads] and its files relative to
    the process's working directory; when it runs while a /chroot request
    is inside [chroot], it creates [chroot/uploads] instead, and after it
    has answered the tree has changed outside the server's [uploads]
    directory, which a request running alone never does
    ([uploadHandler_confined]). *)
Theorem upload_race_escapes s f1 names files :
  wf s -> fsys s !! (cwd s ++ ["chroot"]) = Some Dir ->
  clean_segments (is_rooted f1) (split_slash f1) = names ->
  Forall normal_name names -> names <> [] ->
  fsys s !! (cwd s ++ ["chroot"; "uploads"]) = None ->
  exists t1 r s',
    rtc (par_step cfr_step up_step) (CfrStart (chroot_target f1), UpStart files, s)
      (t1, UpDone r, s') /\
    fsys s' !! (cwd s ++ ["chroot"; "uploads"]) = Some Dir /\
    ~ frame (cwd s ++ ["uploads"]) (fsys s) (fsys s').
Proof.
  intros Hwf Hch Hcl Hn Hne Hup.
  destruct (race_enter_chroot up_step s f1 names (UpStart files) Hwf Hch Hcl Hn Hne)
    as [Hmid Hw1].
  set (s1 := mkOS (fsys s) (cwd s ++ ["chroot"])) in *.
  set (t1 := CfrLoop _ _ _) in Hmid.
  set (k := cwd s ++ ["chroot"; "uploads"]).
  assert (E1 : createFolderIfNotExists "uploads" s1 = (Ok tt, set_fsys <[k := Dir]> s1)).
  { assert (Hk1 : cwd s1 ++ ["uploads"] = k) by (unfold s1, k; cbn; by rewrite <- app_assoc).
    rewrite (createFolderIfNotExists_name s1 "uploads"), Hk1;
      [done|done|apply uploads_normal|left; by rewrite Hk1]. }
  pose proof (createFolderIfNotExists_sound "uploads" s1 Hw1) as [Hw2 _].
  rewrite E1 in Hw2. cbn [snd] in Hw2.
  destruct (uploadHandler (mkRequest MethodPost (Some files)) s1) as [r s2] eqn:E.
  unfold uploadHandler in E. cbn [req_method req_form] in E. rewrite E1 in E.
  destruct (upload_files_sound files _ Hw2) as [_ Hk]. rewrite E in Hk.
  assert (Hd : fsys s2 !! k = Some Dir) by (apply Hk; cbn; apply lookup_insert_eq).
  exists t1, r, s2. split_and!; [|done|].
  - etrans; [exact Hmid|]. apply (par_rtc_right cfr_step up_step (S (files_fuel files))).
    rewrite up_run_start. unfold uploadHandler. cbn [req_method req_form]. by rewrite E1, E.
  - intros Hfr. rewrite Hfr in Hd; [unfold k in Hd; congruence|].
    intros [k' Hk']. unfold k in Hk'. rewrite <- app_assoc in Hk'.
    apply app_inv_head in Hk'. discriminate.
Qed.

Lemma upload_race_escapes_witness :
  exists t1 r s',
    rtc (par_step cfr_step up_step)
      (CfrStart (chroot_target "a/x"), UpStart [("n.txt", [[Byte.x41]])], example_race_server)
      (t1, UpDone r, s') /\
    fsys s' !! ["srv"; "chroot"; "uploads"] = Some Dir /\
    ~ frame ["srv"; "uploads"] (fsys example_race_server) (fsys s').
Proof.
  apply (upload_race_escapes example_race_server "a/x" ["a"; "x"] [("n.txt", [[Byte.x41]])]).
  - apply wf_by_check. vm_compute. reflexivity.
  - reflexivity.
  - vm_compute. reflexivity.
  - apply normal_names_ab.
  - discriminate.
  - reflexivity.
Defined.
