(* ===== verification/Server.v ===== *)
(** * Server: the [main] functions of the two programs

    [src/main.go] registers a [--port] flag in [init] and, in [main],
    routes [/bin/] to a static file server over the directory [bin],
    [/chroot] to [chrootHandler] and [/upload] to [uploadHandler], then
    listens on [":" + lport].  [src/cmd/redkit/main.go] registers
    [--port]/[-p] and [--kits]/[-k], parses the command line, routes
    [/kit/] to [serveFiles] and listens on ["0.0.0.0:" + port].

    This file models the library code those functions call as far as
    their results depend on it: pflag's [StringVar], [StringVarP] and
    [Parse] (long and shorthand string flags, [--] and positional
    arguments, [ExitOnError]); [http.ServeMux]'s choice of a handler
    (cleaning and redirects, exact patterns, then the longest subtree
    pattern); [http.StripPrefix]; and the name that [http.FileServer]
    over [http.Dir] opens.  Logging and the network are not modelled: a
    server is its routing table and the address it listens on. *)

From stdpp Require Import base list gmap strings.
From Stdlib Require Import Ascii String.
From S2P Require Import Prelude GoPath OsFs Confinement.

Local Open Scope string_scope.
Local Open Scope list_scope.
Local Open Scope go_scope.

(** ** Strings *)

(** [strings.CutPrefix(s, prefix)]: the rest of [s] after [prefix]. *)
Fixpoint cut_prefix (prefix s : string) : option string :=
  match prefix, s with
  | EmptyString, _ => Some s
  | String c p, String d s' => if Ascii.eqb c d then cut_prefix p s' else None
  | String _ _, EmptyString => None
  end.

(** [strings.HasPrefix] and [strings.TrimPrefix]. *)
Definition has_prefix (prefix s : string) : bool := bool_decide (is_Some (cut_prefix prefix s)).

Definition trim_prefix (prefix s : string) : string := default s (cut_prefix prefix s).

(** ** pflag

    A string flag: its name, its shorthand (empty when it has none) and
    its value, the default until [Parse] sets it. *)
Record flag := mkFlag { fl_name : string; fl_short : string; fl_value : string }.

Definition flagset := list flag.

(** [flag.StringVarP(&v, name, shorthand, value, usage)]; [StringVar] has
    no shorthand.  The usage text is not modelled. *)
Definition StringVarP (name short value : string) (fs : flagset) : flagset :=
  fs ++ [mkFlag name short value].

Definition StringVar (name value : string) (fs : flagset) : flagset := StringVarP name "" value fs.

Definition lookup_flag (fs : flagset) (name : string) : option flag :=
  List.find (fun f => String.eqb (fl_name f) name) fs.

Definition lookup_short (fs : flagset) (c : ascii) : option flag :=
  List.find (fun f => String.eqb (fl_short f) (String c "")) fs.

(** The variable a flag is bound to. *)
Definition flag_value (fs : flagset) (name : string) : option string :=
  fl_value <$> lookup_flag fs name.

(** [f.Set(name, value)]. *)
Definition set_flag (fs : flagset) (name value : string) : flagset :=
  map (fun f => if String.eqb (fl_name f) name then mkFlag (fl_name f) (fl_short f) value else f) fs.

(** Why [Parse] stops: a malformed flag, an unknown one, a missing
    argument, or [--help]/[-h] without such a flag.  With [ExitOnError]
    the process exits (status 0 for help, 2 otherwise). *)
Inductive parse_error := BadSyntax | Unknown (name : string) | NeedsArg (name : string) | Help.

(** [strings.SplitN(name, "=", 2)]. *)
Fixpoint split_eq (s : string) : string * option string :=
  match s with
  | EmptyString => ("", None)
  | String c r =>
      if Ascii.eqb c "=" then ("", Some r)
      else let '(a, b) := split_eq r in (String c a, b)
  end.

(** The result of parsing one argument: the flags and the arguments left. *)
Definition parse_step := sum parse_error (flagset * list string).

(** [parseLongArg]: [--name=value] or [--name value]. *)
Definition parse_long (fs : flagset) (name : string) (rest : list string) : parse_step :=
  match name with
  | EmptyString => inl BadSyntax
  | String c _ =>
      if Ascii.eqb c "-" || Ascii.eqb c "=" then inl BadSyntax
      else
        let '(n, v) := split_eq name in
        match lookup_flag fs n with
        | None => if String.eqb n "help" then inl Help else inl (Unknown n)
        | Some f =>
            match v, rest with
            | Some value, _ => inr (set_flag fs (fl_name f) value, rest)
            | None, value :: rest' => inr (set_flag fs (fl_name f) value, rest')
            | None, [] => inl (NeedsArg n)
            end
        end
  end.

(** [parseSingleShortArg] for a string flag: [-p=value], [-pvalue] or
    [-p value]; a string flag takes the rest of the argument, so only the
    first shorthand of a group is read.  (pflag's skipping of [-test.*]
    arguments, meant for [go test], is left out.) *)
Definition parse_short (fs : flagset) (c : ascii) (more : string) (rest : list string)
    : parse_step :=
  match lookup_short fs c with
  | None => if Ascii.eqb c "h" then inl Help else inl (Unknown (String c ""))
  | Some f =>
      match more, rest with
      | String "=" (String v vs), _ => inr (set_flag fs (fl_name f) (String v vs), rest)
      | String m ms, _ => inr (set_flag fs (fl_name f) (String m ms), rest)
      | EmptyString, value :: rest' => inr (set_flag fs (fl_name f) value, rest')
      | EmptyString, [] => inl (NeedsArg (String c ""))
      end
  end.

(** [parseArgs]: a positional argument (empty, not starting with [-], or
    [-] alone) is skipped; [--] ends the flags.  Each round consumes at
    least one argument, so [length args] rounds are enough. *)
Fixpoint parse_args (fuel : nat) (fs : flagset) (args : list string) : sum parse_error flagset :=
  match fuel with
  | O => inr fs
  | S fuel' =>
      match args with
      | [] => inr fs
      | s :: rest =>
          let next r := match r with
                        | inl e => inl e
                        | inr (fs', rest') => parse_args fuel' fs' rest'
                        end in
          match s with
          | String "-" (String "-" EmptyString) => inr fs
          | String "-" (String "-" name) => next (parse_long fs name rest)
          | String "-" (String c more) => next (parse_short fs c more rest)
          | _ => parse_args fuel' fs rest
          end
      end
  end.

(** [flag.Parse()] on the command line [os.Args[1:]]. *)
Definition Parse (fs : flagset) (args : list string) : sum parse_error flagset :=
  parse_args (List.length args) fs args.

(** ** net/http *)

(** [strings.HasSuffix(s, suffix)]. *)
Fixpoint has_suffix (suffix s : string) : bool :=
  String.eqb s suffix || match s with EmptyString => false | String _ r => has_suffix suffix r end.

(** [cleanPath(p)] of the server mux: rooted, cleaned, with a trailing
    slash kept. *)
Definition cleanPath (p : string) : string :=
  match p with
  | EmptyString => "/"
  | _ =>
      let p := if is_rooted p then p else String "/" p in
      let np := clean p in
      if has_suffix_slash p && negb (String.eqb np "/") then np +:+ "/" else np
  end.

(** A [ServeMux]: its patterns, in registration order, with their
    handlers. *)
Definition mux (H : Type) := list (string * H).

Definition mux_exact {H} (m : mux H) (p : string) : option H :=
  snd <$> List.find (fun e => String.eqb (fst e) p) m.

(** The longest pattern ending in a slash that is a prefix of [p]. *)
Definition mux_subtree {H} (m : mux H) (p : string) : option (string * H) :=
  fold_left (fun best e =>
    if has_suffix_slash (fst e) && has_prefix (fst e) p then
      match best with
      | Some b => if Nat.ltb (String.length (fst b)) (String.length (fst e)) then Some e else best
      | None => Some e
      end
    else best) m None.

(** [mux.match(path)]: an exact pattern first, then the longest subtree. *)
Definition mux_match {H} (m : mux H) (p : string) : option H :=
  match mux_exact m p with
  | Some h => Some h
  | None => snd <$> mux_subtree m p
  end.

(** [shouldRedirectRLocked]: [path] is not a pattern but [path + "/"] is. *)
Definition should_redirect {H} (m : mux H) (path : string) : bool :=
  match mux_exact m path with
  | Some _ => false
  | None =>
      match path with
      | EmptyString => false
      | _ => bool_decide (is_Some (mux_exact m (path +:+ "/"))) && negb (has_suffix_slash path)
      end
  end.

(** What [ServeMux] does with a request path. *)
Inductive mux_result (H : Type) := Serve (h : H) | Redirect (to : string) | NotFound.
Arguments Serve {H} h.
Arguments Redirect {H} to.
Arguments NotFound {H}.

(** [mux.Handler(r)]: redirect to [path + "/"] for a subtree registered
    only with its slash, redirect to the cleaned path, else the handler of
    [mux.match] or [NotFoundHandler]. *)
Definition mux_Handler {H} (m : mux H) (p : string) : mux_result H :=
  let path := cleanPath p in
  if should_redirect m path then Redirect (path +:+ "/")
  else if negb (String.eqb path p) then Redirect path
  else match mux_match m p with
       | Some h => Serve h
       | None => NotFound
       end.

(** The static file server of [/bin/]: what it does with a request. *)
Inductive file_response :=
| FileNotFound
| FileRedirect
| FileOpened (h : handle)
| FileError (e : go_error).

(** [http.Dir(dir).Open(name)]: [os.Open(filepath.Join(dir,
    path.Clean("/" + name)))]. *)
Definition dir_open_name (dir name : string) : string :=
  path_join [dir; clean (String "/" name)].

(** [http.StripPrefix("/bin/", http.FileServer(http.Dir("bin")))] on the
    request path [p]: [NotFound] without the prefix; the file server roots
    the rest, redirects [.../index.html], and opens [path.Clean] of it in
    [bin].  What it serves once the file is open is not modelled. *)
Definition bin_serve (p : string) : St os file_response := fun s =>
  match cut_prefix "/bin/" p with
  | None => (Ok FileNotFound, s)
  | Some rest =>
      let upath := if has_prefix "/" rest then rest else String "/" rest in
      if has_suffix "/index.html" upath then (Ok FileRedirect, s)
      else match os_open (dir_open_name "bin" (clean upath)) s with
           | (Ok h, s') => (Ok (FileOpened h), s')
           | (Err e, s') => (Ok (FileError e), s')
           end
  end.

(** ** The upload server ([src/main.go]) *)

Inductive upload_route := RouteBin | RouteChroot | RouteUpload.

(** A server: its mux and the address [ListenAndServe] is given. *)
Record server (H : Type) := mkServer { srv_mux : mux H; srv_addr : string }.
Arguments mkServer {H} srv_mux srv_addr.
Arguments srv_mux {H} s.
Arguments srv_addr {H} s.

(** [init] (lines 18-24): [flag.StringVar(&lport, "port", "8080", ...)]. *)
Definition upload_init : flagset := StringVar "port" "8080" [].

(** [main] (lines 32-40): the routes, then [ListenAndServe(":" + lport)].
    The command line [args] is never parsed. *)
Definition upload_main (args : list string) : server upload_route :=
  let lport := default "" (flag_value upload_init "port") in
  mkServer [("/bin/", RouteBin); ("/chroot", RouteChroot); ("/upload", RouteUpload)]
           (":" +:+ lport).

(** ** The kit server ([src/cmd/redkit/main.go]) *)

Inductive kit_route := RouteKit (kitsDir : string).

(** [init] (lines 21-24). *)
Definition redkit_init : flagset :=
  StringVarP "kits" "k" "kits" (StringVarP "port" "p" "8080" []).

(** [main] (lines 26-33): [flag.Parse()], the route [/kit/] to
    [serveFiles] (which reads [kitsDir]), then
    [ListenAndServe("0.0.0.0:" + port)]; a parse error exits. *)
Definition redkit_main (args : list string) : sum parse_error (server kit_route) :=
  match Parse redkit_init args with
  | inl e => inl e
  | inr fs =>
      let port := default "" (flag_value fs "port") in
      let kits := default "" (flag_value fs "kits") in
      inr (mkServer [("/kit/", RouteKit kits)] ("0.0.0.0:" +:+ port))
  end.

(** ** The static file server stays in [bin] *)

(** [path.Clean] of a rooted path is the root followed by normal names. *)
Lemma clean_rooted t :
  exists names, Forall normal_name names /\ clean (String "/" t) = String "/" (join_slash names).
Proof.
  destruct (clean_segments_form true (split_slash (String "/" t)) (split_slash_no_slash _))
    as (k & names & Hout & Hn & Hk).
  rewrite Hk in Hout by done. exists names. split; [done|].
  unfold clean. rewrite is_rooted_slash, Hout. done.
Qed.

Lemma clean_segments_bin names :
  Forall normal_name names ->
  clean_segments false ("bin" :: "" :: split_slash (join_slash names)) = "bin" :: names.
Proof.
  intros Hn. unfold clean_segments. cbn [fold_left].
  rewrite (clean_step_name false [] "bin") by (apply normal_name_by_check; reflexivity).
  rewrite clean_step_skip by by left.
  destruct names as [|x names].
  - reflexivity.
  - rewrite split_join by auto using normal_name_slash_free.
    rewrite fold_clean_names by done. simpl. by rewrite !rev_app_distr, rev_involutive.
Qed.

(** [http.Dir("bin").Open] opens [bin] or a path of normal names below it,
    whatever the name. *)
Lemma dir_open_name_bin name :
  exists names, Forall normal_name names /\
    is_rooted (dir_open_name "bin" name) = false /\
    split_slash (dir_open_name "bin" name) = "bin" :: names.
Proof.
  destruct (clean_rooted name) as (names & Hn & Hc). exists names. unfold dir_open_name.
  rewrite Hc, path_join_two by done.
  assert (Hr : is_rooted ("bin" +:+ String "/" (String "/" (join_slash names))) = false)
    by reflexivity.
  rewrite clean_unrooted by done.
  rewrite split_slash_app, split_slash_rooted, (split_slash_single "bin") by reflexivity.
  cbn [app]. rewrite clean_segments_bin by done.
  split; [done|]. split; [by rewrite is_rooted_join|].
  apply split_join; [done|]. apply normal_name_slash_free. constructor; [|done].
  apply normal_name_by_check. reflexivity.
Qed.

(** C22: the static file server of [/bin/] stays in [bin].  Whatever the
    request path, when no symbolic link lies below [bin] the file the
    server opens is [bin] or an entry below it: [path.Clean("/" + name)]
    removes every [..] before the name is joined to [bin]. *)
Theorem bin_serve_confined p s h s' :
  no_links_under (fsys s) (cwd s ++ ["bin"]) ->
  bin_serve p s = (Ok (FileOpened h), s') ->
  (cwd s ++ ["bin"]) `prefix_of` h_path h.
Proof.
  intros Hnl. unfold bin_serve.
  destruct (cut_prefix "/bin/" p) as [rest|]; [|discriminate].
  destruct (has_suffix _ _); [discriminate|].
  destruct (dir_open_name_bin (clean (if has_prefix "/" rest then rest else String "/" rest)))
    as (names & Hn & Hr & Hs).
  unfold os_open, resolve, start. rewrite Hr, Hs.
  destruct (resolve_from _ _ _ _) as [q|e] eqn:E; [|discriminate]. intros [= <- _].
  apply resolve_from_lexical in E.
  - subst q. cbn [h_path]. exists names. by rewrite <- app_assoc.
  - constructor; [apply normal_name_by_check; reflexivity|done].
  - by intros c cs' [= <- _].
Qed.

(** C23: the upload server never reads its command line.  [init]
    registers [--port], and pflag's [Parse] would set it from
    [--port v]; but [main] never calls [flag.Parse()], so the server
    listens on [:8080] whatever the command line says. *)
Theorem upload_main_ignores_port v args :
  (exists fs, Parse upload_init ["--port"; v] = inr fs /\ flag_value fs "port" = Some v) /\
  srv_addr (upload_main ("--port" :: v :: args)) = ":8080".
Proof. split; [by eexists|reflexivity]. Qed.

(** C24: the kit server listens on the port of its command line, given
    as [--port v], [--port=v] or [-p v]. *)
Theorem redkit_main_port v :
  Forall (fun args => exists srv, redkit_main args = inr srv /\ srv_addr srv = "0.0.0.0:" +:+ v)
    [["--port"; v]; [("--port=" +:+ v)%string]; ["-p"; v]].
Proof. repeat constructor; by eexists. Qed.

Lemma mux_match_upload p r :
  mux_match (srv_mux (upload_main [])) p = Some r ->
  r = RouteBin \/ (r = RouteChroot /\ p = "/chroot") \/ (r = RouteUpload /\ p = "/upload").
Proof.
  unfold mux_match, mux_exact, mux_subtree.
  cbn [srv_mux upload_main List.find fst snd fold_left has_suffix_slash andb].
  destruct (String.eqb_spec "/bin/" p); [by intros [= <-]; left|].
  destruct (String.eqb_spec "/chroot" p); [by intros [= <-]; right; left|].
  destruct (String.eqb_spec "/upload" p); [by intros [= <-]; right; right|].
  destruct (has_prefix "/bin/" p); by intros [= <-]; left.
Qed.

(** C25: only the exact paths [/chroot] and [/upload] reach the upload
    handlers.  The server mux hands a request to [chrootHandler] exactly
    when its path is [/chroot], and to [uploadHandler] exactly when it is
    [/upload]: [/chroot/], [/chroot/x] and the like get 404. *)
Theorem upload_routes_exact args p :
  (mux_Handler (srv_mux (upload_main args)) p = Serve RouteChroot <-> p = "/chroot") /\
  (mux_Handler (srv_mux (upload_main args)) p = Serve RouteUpload <-> p = "/upload").
Proof.
  split; split; [|intros ->; reflexivity| |intros ->; reflexivity].
  all: unfold mux_Handler; destruct (should_redirect _ _); [discriminate|].
  all: destruct (negb _); [discriminate|].
  all: destruct (mux_match _ p) as [r|] eqn:E; [intros [= ->]|discriminate].
  all: destruct (mux_match_upload p _ E) as [?|[[? ?]|[? ?]]]; congruence.
Qed.

(** ** Witnesses *)

(** A server in [srv] with [bin/a] and a file [secret] beside [bin]. *)
Definition example_bin_server : os :=
  mkOS {[ [] := Dir; ["srv"] := Dir; ["srv"; "bin"] := Dir; ["srv"; "bin"; "a"] := File [];
          ["srv"; "secret"] := File [] ]} ["srv"].

Lemma bin_serve_confined_witness :
  bin_serve "/bin/../a" example_bin_server
  = (Ok (FileOpened (mkHandle ["srv"; "bin"; "a"] 0)), example_bin_server) /\
  (cwd example_bin_server ++ ["bin"]) `prefix_of` ["srv"; "bin"; "a"].
Proof.
  split; [vm_compute; reflexivity|].
  apply (bin_serve_confined "/bin/../a" example_bin_server (mkHandle ["srv"; "bin"; "a"] 0)
           example_bin_server).
  - apply no_links_by_check. vm_compute. reflexivity.
  - vm_compute. reflexivity.
Defined.
